(** * GltfLoader: the asynchronous glTF loading pipeline of Source/Scene/GltfLoader.js

    A shallow embedding of the loader: the glTF document and the model
    components are records, JavaScript's [undefined] is [None], the objects
    that completion callbacks mutate after assembly live in a heap addressed
    by index, and the closures registered on promises are a datatype
    ([Continuation]) interpreted by [run_continuation].  Code that can throw
    runs in the monad [M], which keeps the state reached when it throws. *)

From Stdlib Require Import ZArith Floats Lia.
From stdpp Require Import base tactics option list strings.

(** ** Errors and results *)

(** An error value: a message, and the error it wraps when it has a cause. *)
Inductive Error : Type :=
| ErrorMessage (message : string)
| ErrorCaused (message : string) (cause : Error).

Definition error_message (e : Error) : string :=
  match e with ErrorMessage m | ErrorCaused m _ => m end.

Definition error_cause (e : Error) : option Error :=
  match e with ErrorMessage _ => None | ErrorCaused _ c => Some c end.

(** Reading a property of [undefined] or calling a value that is no function. *)
Definition TypeError : Error := ErrorMessage "TypeError".
Definition RangeError : Error := ErrorMessage "RangeError".

Inductive Res (A : Type) : Type :=
| Ok (a : A)
| Throw (e : Error).
Arguments Ok {A} a.
Arguments Throw {A} e.

(** ** Enumerations *)

(** ResourceLoaderState. *)
Inductive ResourceLoaderState : Type :=
| UNLOADED | LOADING | PROCESSING | READY | FAILED.

(** AttributeType: the arity of an accessor's elements. *)
Inductive AttributeType : Type :=
| SCALAR | VEC2 | VEC3 | VEC4 | MAT2 | MAT3 | MAT4.

(** The math classes [getMathType] chooses from, and [Quaternion]. *)
Inductive MathType : Type :=
| TNumber | TCartesian2 | TCartesian3 | TCartesian4
| TMatrix2 | TMatrix3 | TMatrix4 | TQuaternion.

#[export] Instance ResourceLoaderState_eq_dec : EqDecision ResourceLoaderState.
Proof. solve_decision. Defined.
#[export] Instance AttributeType_eq_dec : EqDecision AttributeType.
Proof. solve_decision. Defined.
#[export] Instance MathType_eq_dec : EqDecision MathType.
Proof. solve_decision. Defined.

(** ** Math values *)

(** What [fromArray] and [getDefault] produce: a bare number, the array itself
    (for [Number], [fromArray] returns its argument), or an instance of a math
    class with its packed components. *)
Inductive MathValue : Type :=
| MNumber (x : float)
| MArray (values : list float)
| MPacked (T : MathType) (components : list float).

Definition packedLength (T : MathType) : nat :=
  match T with
  | TNumber => 1
  | TCartesian2 => 2
  | TCartesian3 => 3
  | TCartesian4 => 4
  | TMatrix2 => 4
  | TMatrix3 => 9
  | TMatrix4 => 16
  | TQuaternion => 4
  end.

(** [MathType.unpack(array, startingIndex)]: the [packedLength] components
    found from [startingIndex] on (fewer when the array ends before). *)
Definition unpack (T : MathType) (array : list float) (startingIndex : nat) : MathValue :=
  MPacked T (take (packedLength T) (drop startingIndex array)).

(** [new MathType()]: every component 0.0. *)
Definition math_new (T : MathType) : MathValue :=
  MPacked T (replicate (packedLength T) 0%float).

(** [Matrix4.IDENTITY], column-major. *)
Definition Matrix4_IDENTITY : MathValue :=
  MPacked TMatrix4
    [1%float; 0%float; 0%float; 0%float;
     0%float; 1%float; 0%float; 0%float;
     0%float; 0%float; 1%float; 0%float;
     0%float; 0%float; 0%float; 1%float].

(** ** The glTF document

    Objects whose keys are iterated ([for (var semantic in attributes)]) are
    association lists, in insertion order. *)

Definition Resource : Type := string.

Record GltfAccessor : Type := {
  accessor_bufferView : option nat;
  accessor_byteOffset : Z;
  accessor_componentType : Z;
  accessor_normalized : option bool;
  accessor_count : nat;
  accessor_type : AttributeType;
  accessor_min : option (list float);
  accessor_max : option (list float)
}.

Record GltfTextureInfo : Type := {
  textureInfo_index : option nat;
  textureInfo_texCoord : option nat
}.

Record GltfPbrMetallicRoughness : Type := {
  mr_baseColorTexture : option GltfTextureInfo;
  mr_metallicRoughnessTexture : option GltfTextureInfo;
  mr_baseColorFactor : option (list float);
  mr_metallicFactor : option float;
  mr_roughnessFactor : option float
}.

Record GltfPbrSpecularGlossiness : Type := {
  sg_diffuseTexture : option GltfTextureInfo;
  sg_specularGlossinessTexture : option GltfTextureInfo;
  sg_diffuseFactor : option (list float);
  sg_specularFactor : option (list float);
  sg_glossinessFactor : option float
}.

Record GltfMaterialExtensions : Type := {
  KHR_materials_pbrSpecularGlossiness : option GltfPbrSpecularGlossiness
}.

Record GltfMaterial : Type := {
  gmaterial_pbrMetallicRoughness : option GltfPbrMetallicRoughness;
  gmaterial_extensions : option GltfMaterialExtensions;
  gmaterial_emissiveTexture : option GltfTextureInfo;
  gmaterial_normalTexture : option GltfTextureInfo;
  gmaterial_occlusionTexture : option GltfTextureInfo;
  gmaterial_emissiveFactor : option (list float);
  gmaterial_alphaMode : option string;
  gmaterial_alphaCutoff : option float;
  gmaterial_doubleSided : option bool
}.

Record GltfFeatureIds : Type := {
  featureIds_attribute : option string;
  featureIds_constant : option Z;
  featureIds_divisor : option Z;
  featureIds_texture : option GltfTextureInfo;
  featureIds_channels : option string
}.

(** An entry of [featureIdAttributes] or of [featureIdTextures]. *)
Record GltfFeatureId : Type := {
  featureId_featureTable : option string;
  featureId_featureIds : option GltfFeatureIds
}.

(** EXT_feature_metadata on a primitive or on an instancing block. *)
Record GltfPrimitiveFeatureMetadata : Type := {
  fm_featureIdAttributes : option (list GltfFeatureId);
  fm_featureIdTextures : option (list GltfFeatureId);
  fm_featureTextures : option (list string)
}.

Record GltfDraco : Type := {
  draco_bufferView : option nat;
  draco_attributes : option (list (string * nat))
}.

Record GltfPrimitiveExtensions : Type := {
  KHR_draco_mesh_compression : option GltfDraco;
  primitive_EXT_feature_metadata : option GltfPrimitiveFeatureMetadata
}.

Record GltfPrimitive : Type := {
  gprimitive_material : option nat;
  gprimitive_extensions : option GltfPrimitiveExtensions;
  gprimitive_attributes : option (list (string * nat));
  gprimitive_targets : option (list (list (string * nat)));
  gprimitive_indices : option nat;
  gprimitive_mode : option Z
}.

Record GltfMesh : Type := {
  mesh_primitives : list GltfPrimitive;
  mesh_weights : option (list float)
}.

Record GltfInstancingExtensions : Type := {
  instancing_EXT_feature_metadata : option GltfPrimitiveFeatureMetadata
}.

Record GltfInstancing : Type := {
  instancing_attributes : option (list (string * nat));
  instancing_extensions : option GltfInstancingExtensions
}.

Record GltfNodeExtensions : Type := {
  EXT_mesh_gpu_instancing : option GltfInstancing
}.

Record GltfNode : Type := {
  gnode_matrix : option (list float);
  gnode_translation : option (list float);
  gnode_rotation : option (list float);
  gnode_scale : option (list float);
  gnode_mesh : option nat;
  gnode_weights : option (list float);
  gnode_children : option (list nat);
  gnode_skin : option nat;
  gnode_extensions : option GltfNodeExtensions
}.

Record GltfSkin : Type := {
  gskin_joints : list nat;
  gskin_inverseBindMatrices : option nat
}.

Record GltfScene : Type := {
  gscene_nodes : option (list nat)
}.

(** The document-level EXT_feature_metadata payload is only handed on to the
    metadata loader; its identity is all this file needs. *)
Record GltfExtensions : Type := {
  gltf_EXT_feature_metadata : option nat
}.

Record Gltf : Type := {
  gltf_accessors : list GltfAccessor;
  gltf_materials : list GltfMaterial;
  gltf_meshes : list GltfMesh;
  gltf_nodes : option (list GltfNode);
  gltf_skins : list GltfSkin;
  gltf_scenes : option (list GltfScene);
  gltf_scene : option nat;
  gltf_extensions : option GltfExtensions
}.

(** ** The model components (ModelComponents)

    Every constructor leaves scalar fields [undefined] and list fields empty.
    Attributes, indices, textures, skins and the components object are
    mutated by completion callbacks, so the scene graph holds them by
    reference (an index into the [Heap]). *)

Definition Buffer : Type := nat.
Definition GpuTexture : Type := nat.
Definition FeatureMetadata : Type := nat.

Record Quantization : Type := {
  quantization_componentDatatype : option Z;
  quantization_octEncoded : bool
}.

Record Sampler : Type := {
  sampler_wrapS : Z;
  sampler_wrapT : Z;
  sampler_minificationFilter : Z;
  sampler_magnificationFilter : Z
}.

Record Attribute : Type := {
  attribute_semantic : option string;
  attribute_constant : option MathValue;
  attribute_componentDatatype : option Z;
  attribute_normalized : option bool;
  attribute_count : option nat;
  attribute_type : option AttributeType;
  attribute_min : option MathValue;
  attribute_max : option MathValue;
  attribute_byteOffset : option Z;
  attribute_byteStride : option Z;
  attribute_quantization : option Quantization;
  attribute_buffer : option Buffer;
  attribute_typedArray : option (list float)
}.

Record Indices : Type := {
  indices_indexDatatype : option Z;
  indices_count : option nat;
  indices_buffer : option Buffer
}.

Record Texture : Type := {
  texture_texCoord : option nat;
  texture_sampler : option Sampler;
  texture_texture : option GpuTexture
}.

(** Joints are references into the node table ([None] where [nodes[id]] is
    [undefined]). *)
Record Skin : Type := {
  skin_joints : option (list (option nat));
  skin_inverseBindMatrices : option (list MathValue)
}.

Record MetallicRoughness : Type := {
  metallicRoughness_baseColorTexture : option nat;
  metallicRoughness_metallicRoughnessTexture : option nat;
  metallicRoughness_baseColorFactor : option MathValue;
  metallicRoughness_metallicFactor : option float;
  metallicRoughness_roughnessFactor : option float
}.

Record SpecularGlossiness : Type := {
  specularGlossiness_diffuseTexture : option nat;
  specularGlossiness_specularGlossinessTexture : option nat;
  specularGlossiness_diffuseFactor : option MathValue;
  specularGlossiness_specularFactor : option MathValue;
  specularGlossiness_glossinessFactor : option float
}.

Record Material : Type := {
  material_metallicRoughness : option MetallicRoughness;
  material_specularGlossiness : option SpecularGlossiness;
  material_emissiveTexture : option nat;
  material_normalTexture : option nat;
  material_occlusionTexture : option nat;
  material_emissiveFactor : option MathValue;
  material_alphaMode : option string;
  material_alphaCutoff : option float;
  material_doubleSided : option bool
}.

Record FeatureIdAttribute : Type := {
  featureIdAttribute_featureTableId : option string;
  featureIdAttribute_semantic : option string;
  featureIdAttribute_constant : option Z;
  featureIdAttribute_divisor : option Z
}.

Record FeatureIdTexture : Type := {
  featureIdTexture_featureTableId : option string;
  featureIdTexture_channel : option string;
  featureIdTexture_texture : option nat
}.

Record MorphTarget : Type := {
  morphTarget_attributes : list nat
}.

Record Primitive : Type := {
  primitive_attributes : list nat;
  primitive_indices : option nat;
  primitive_material : option Material;
  primitive_morphTargets : list MorphTarget;
  primitive_morphWeights : list float;
  primitive_featureIdAttributes : list FeatureIdAttribute;
  primitive_featureIdTextures : list FeatureIdTexture;
  primitive_featureTexturesIds : option (list string);
  primitive_primitiveType : option Z
}.

Record Instances : Type := {
  instances_attributes : list nat;
  instances_featureIdAttributes : list FeatureIdAttribute
}.

(** Children are references into the node table, like joints. *)
Record Node : Type := {
  node_matrix : option MathValue;
  node_translation : option MathValue;
  node_rotation : option MathValue;
  node_scale : option MathValue;
  node_children : list (option nat);
  node_primitives : list Primitive;
  node_skin : option nat;
  node_instances : option Instances
}.

Record Scene : Type := {
  scene_nodes : list (option nat)
}.

Record Components : Type := {
  components_scene : option Scene;
  components_nodes : option (list Node);
  components_featureMetadata : option FeatureMetadata
}.

Definition new_Attribute : Attribute :=
  {| attribute_semantic := None; attribute_constant := None;
     attribute_componentDatatype := None; attribute_normalized := None;
     attribute_count := None; attribute_type := None;
     attribute_min := None; attribute_max := None;
     attribute_byteOffset := None; attribute_byteStride := None;
     attribute_quantization := None; attribute_buffer := None;
     attribute_typedArray := None |}.

Definition new_Indices : Indices :=
  {| indices_indexDatatype := None; indices_count := None; indices_buffer := None |}.

Definition new_Texture : Texture :=
  {| texture_texCoord := None; texture_sampler := None; texture_texture := None |}.

Definition new_Skin : Skin :=
  {| skin_joints := None; skin_inverseBindMatrices := None |}.

Definition new_MetallicRoughness : MetallicRoughness :=
  {| metallicRoughness_baseColorTexture := None;
     metallicRoughness_metallicRoughnessTexture := None;
     metallicRoughness_baseColorFactor := None;
     metallicRoughness_metallicFactor := None;
     metallicRoughness_roughnessFactor := None |}.

Definition new_SpecularGlossiness : SpecularGlossiness :=
  {| specularGlossiness_diffuseTexture := None;
     specularGlossiness_specularGlossinessTexture := None;
     specularGlossiness_diffuseFactor := None;
     specularGlossiness_specularFactor := None;
     specularGlossiness_glossinessFactor := None |}.

Definition new_Material : Material :=
  {| material_metallicRoughness := None; material_specularGlossiness := None;
     material_emissiveTexture := None; material_normalTexture := None;
     material_occlusionTexture := None; material_emissiveFactor := None;
     material_alphaMode := None; material_alphaCutoff := None;
     material_doubleSided := None |}.

Definition new_FeatureIdAttribute : FeatureIdAttribute :=
  {| featureIdAttribute_featureTableId := None; featureIdAttribute_semantic := None;
     featureIdAttribute_constant := None; featureIdAttribute_divisor := None |}.

Definition new_FeatureIdTexture : FeatureIdTexture :=
  {| featureIdTexture_featureTableId := None; featureIdTexture_channel := None;
     featureIdTexture_texture := None |}.

Definition new_MorphTarget : MorphTarget := {| morphTarget_attributes := [] |}.

Definition new_Primitive : Primitive :=
  {| primitive_attributes := []; primitive_indices := None;
     primitive_material := None; primitive_morphTargets := [];
     primitive_morphWeights := []; primitive_featureIdAttributes := [];
     primitive_featureIdTextures := []; primitive_featureTexturesIds := None;
     primitive_primitiveType := None |}.

Definition new_Instances : Instances :=
  {| instances_attributes := []; instances_featureIdAttributes := [] |}.

Definition new_Node : Node :=
  {| node_matrix := None; node_translation := None; node_rotation := None;
     node_scale := None; node_children := []; node_primitives := [];
     node_skin := None; node_instances := None |}.

Definition new_Scene : Scene := {| scene_nodes := [] |}.

Definition new_Components : Components :=
  {| components_scene := None; components_nodes := None;
     components_featureMetadata := None |}.

(** Properties the loader reads on a freshly constructed output object that
    its constructor never defines: they are [undefined]. *)
Definition Material_extensions (material : Material) : option GltfMaterialExtensions := None.
Definition Node_extensions (node : Node) : option GltfNodeExtensions := None.

(** ** The environment: frame state, sub-loaders, promises *)

Record FrameState : Type := {
  context_s3tc : bool;
  context_pvrtc : bool;
  context_etc1 : bool;
  context_instancedArrays : bool
}.

Record SupportedImageFormats : Type := {
  supported_webp : bool;
  supported_s3tc : bool;
  supported_pvrtc : bool;
  supported_etc1 : bool
}.

(** A [Uint8Array]: the bytes of its buffer and where the view starts. *)
Record Uint8Array : Type := {
  typedArray_buffer : list Z;
  typedArray_byteOffset : Z
}.

(** The output properties of a resolved sub-loader that this file reads. *)
Record LoaderFields : Type := {
  loader_gltf : option Gltf;
  loader_vertexBuffer : option Buffer;
  loader_quantization : option Quantization;
  loader_indexBuffer : option Buffer;
  loader_typedArray : option Uint8Array;
  loader_texture : option GpuTexture;
  loader_featureMetadata : option FeatureMetadata
}.

Definition no_fields : LoaderFields :=
  {| loader_gltf := None; loader_vertexBuffer := None; loader_quantization := None;
     loader_indexBuffer := None; loader_typedArray := None; loader_texture := None;
     loader_featureMetadata := None |}.

Inductive PromiseState : Type :=
| Pending
| Resolved
| Rejected (e : Error).

(** The closures passed to [then], with the variables they capture. *)
Inductive Continuation : Type :=
| LoadThen
| SkinThen (skin : nat) (gltf : Gltf) (accessor : GltfAccessor) (jointsLength : nat)
| VertexAttributeThen (attribute : nat) (draco : option GltfDraco) (semantic : string)
| InstancedBufferThen (attribute : nat)
| InstancedTypedArrayThen (attribute : nat) (gltf : Gltf) (accessor : GltfAccessor)
| IndicesThen (indices : nat)
| TextureThen (texture : nat)
| FeatureMetadataThen (components : nat)
| ParseThen.

(** The closures passed to [otherwise]. *)
Inductive Handler : Type :=
| LoadOtherwise
| ParseOtherwise.

(** [promise.then(onFulfilled)], or [promise.then(onFulfilled).otherwise(onRejected)]. *)
Record Callback : Type := {
  callback_then : Continuation;
  callback_otherwise : option Handler
}.

(** What identifies a cached resource: the source it comes from and the
    parameters that change what is decoded. *)
Inductive CacheKey : Type :=
| GltfJsonKey (gltfResource baseResource : Resource)
| VertexBufferKey (gltfResource baseResource : Resource)
    (bufferViewId : option nat) (draco : option (GltfDraco * string))
| IndexBufferKey (gltfResource baseResource : Resource)
    (accessorId : nat) (draco : option GltfDraco)
| BufferViewKey (gltfResource baseResource : Resource) (bufferViewId : nat)
| TextureKey (gltfResource baseResource : Resource)
    (textureInfo : GltfTextureInfo) (supportedImageFormats : SupportedImageFormats)
| FeatureMetadataKey (gltfResource baseResource : Resource) (extension : nat).

#[export] Instance GltfTextureInfo_eq_dec : EqDecision GltfTextureInfo.
Proof. solve_decision. Defined.
#[export] Instance GltfDraco_eq_dec : EqDecision GltfDraco.
Proof. solve_decision. Defined.
#[export] Instance SupportedImageFormats_eq_dec : EqDecision SupportedImageFormats.
Proof. solve_decision. Defined.
#[export] Instance CacheKey_eq_dec : EqDecision CacheKey.
Proof. solve_decision. Defined.

(** A loader instance handed out by the cache (or constructed directly). *)
Record SubLoader : Type := {
  sub_key : CacheKey;
  sub_promise : PromiseState;
  sub_fields : LoaderFields;
  sub_callbacks : list Callback
}.

Record CacheEntry : Type := {
  entry_key : CacheKey;
  entry_loader : nat;
  entry_count : nat;
  entry_keepResident : bool
}.

(** [when.all(promises).then(..).otherwise(..)] of [parse]. *)
Record Aggregate : Type := {
  all_promises : list nat;
  all_state : PromiseState
}.

(** Calls that leave this file, and the settling of the public promise, in
    the order they happen. *)
Inductive Call : Type :=
| CacheUnload (r : nat)
| LoaderUnload (r : nat)
| LoaderProcess (r : nat) (frameState : FrameState)
| LoaderLoad (r : nat)
| WebPInitialize
| PromiseResolve
| PromiseReject (e : Error).

(** ** The loader object and the world it runs in *)

Record GltfLoader : Type := {
  _gltfResource : Resource;
  _baseResource : Resource;
  _typedArray : option Uint8Array;
  _keepResident : bool;
  _asynchronous : bool;
  _incrementallyLoadTextures : bool;
  _gltfJsonLoader : option nat;
  _state : ResourceLoaderState;
  _promise : PromiseState;
  _loaders : list nat;
  _components : option nat;
  isDestroyed : bool
}.

Record Heap : Type := {
  heap_attributes : list Attribute;
  heap_indices : list Indices;
  heap_textures : list Texture;
  heap_skins : list Skin;
  heap_components : list Components
}.

Record World : Type := {
  loader : GltfLoader;
  heap : Heap;
  subs : list SubLoader;
  cache : list CacheEntry;
  aggregate : option Aggregate;
  supportsWebP : option bool;
  metadataLoaderHasThen : bool;
  calls : list Call
}.

Definition set_loader (f : GltfLoader → GltfLoader) (w : World) : World :=
  {| loader := f (loader w); heap := heap w; subs := subs w; cache := cache w;
     aggregate := aggregate w; supportsWebP := supportsWebP w;
     metadataLoaderHasThen := metadataLoaderHasThen w; calls := calls w |}.

Definition set_heap (f : Heap → Heap) (w : World) : World :=
  {| loader := loader w; heap := f (heap w); subs := subs w; cache := cache w;
     aggregate := aggregate w; supportsWebP := supportsWebP w;
     metadataLoaderHasThen := metadataLoaderHasThen w; calls := calls w |}.

Definition set_subs (f : list SubLoader → list SubLoader) (w : World) : World :=
  {| loader := loader w; heap := heap w; subs := f (subs w); cache := cache w;
     aggregate := aggregate w; supportsWebP := supportsWebP w;
     metadataLoaderHasThen := metadataLoaderHasThen w; calls := calls w |}.

Definition set_cache (f : list CacheEntry → list CacheEntry) (w : World) : World :=
  {| loader := loader w; heap := heap w; subs := subs w; cache := f (cache w);
     aggregate := aggregate w; supportsWebP := supportsWebP w;
     metadataLoaderHasThen := metadataLoaderHasThen w; calls := calls w |}.

Definition set_aggregate (a : option Aggregate) (w : World) : World :=
  {| loader := loader w; heap := heap w; subs := subs w; cache := cache w;
     aggregate := a; supportsWebP := supportsWebP w;
     metadataLoaderHasThen := metadataLoaderHasThen w; calls := calls w |}.

Definition set_supportsWebP (b : option bool) (w : World) : World :=
  {| loader := loader w; heap := heap w; subs := subs w; cache := cache w;
     aggregate := aggregate w; supportsWebP := b;
     metadataLoaderHasThen := metadataLoaderHasThen w; calls := calls w |}.

Definition log_call (c : Call) (w : World) : World :=
  {| loader := loader w; heap := heap w; subs := subs w; cache := cache w;
     aggregate := aggregate w; supportsWebP := supportsWebP w;
     metadataLoaderHasThen := metadataLoaderHasThen w; calls := calls w ++ [c] |}.

Definition with_gltfJsonLoader (j : option nat) (l : GltfLoader) : GltfLoader :=
  {| _gltfResource := _gltfResource l; _baseResource := _baseResource l;
     _typedArray := _typedArray l; _keepResident := _keepResident l;
     _asynchronous := _asynchronous l;
     _incrementallyLoadTextures := _incrementallyLoadTextures l;
     _gltfJsonLoader := j; _state := _state l; _promise := _promise l;
     _loaders := _loaders l; _components := _components l;
     isDestroyed := isDestroyed l |}.

Definition with_state (s : ResourceLoaderState) (l : GltfLoader) : GltfLoader :=
  {| _gltfResource := _gltfResource l; _baseResource := _baseResource l;
     _typedArray := _typedArray l; _keepResident := _keepResident l;
     _asynchronous := _asynchronous l;
     _incrementallyLoadTextures := _incrementallyLoadTextures l;
     _gltfJsonLoader := _gltfJsonLoader l; _state := s; _promise := _promise l;
     _loaders := _loaders l; _components := _components l;
     isDestroyed := isDestroyed l |}.

Definition with_promise (p : PromiseState) (l : GltfLoader) : GltfLoader :=
  {| _gltfResource := _gltfResource l; _baseResource := _baseResource l;
     _typedArray := _typedArray l; _keepResident := _keepResident l;
     _asynchronous := _asynchronous l;
     _incrementallyLoadTextures := _incrementallyLoadTextures l;
     _gltfJsonLoader := _gltfJsonLoader l; _state := _state l; _promise := p;
     _loaders := _loaders l; _components := _components l;
     isDestroyed := isDestroyed l |}.

Definition with_loaders (ls : list nat) (l : GltfLoader) : GltfLoader :=
  {| _gltfResource := _gltfResource l; _baseResource := _baseResource l;
     _typedArray := _typedArray l; _keepResident := _keepResident l;
     _asynchronous := _asynchronous l;
     _incrementallyLoadTextures := _incrementallyLoadTextures l;
     _gltfJsonLoader := _gltfJsonLoader l; _state := _state l; _promise := _promise l;
     _loaders := ls; _components := _components l;
     isDestroyed := isDestroyed l |}.

Definition with_components (c : option nat) (l : GltfLoader) : GltfLoader :=
  {| _gltfResource := _gltfResource l; _baseResource := _baseResource l;
     _typedArray := _typedArray l; _keepResident := _keepResident l;
     _asynchronous := _asynchronous l;
     _incrementallyLoadTextures := _incrementallyLoadTextures l;
     _gltfJsonLoader := _gltfJsonLoader l; _state := _state l; _promise := _promise l;
     _loaders := _loaders l; _components := c;
     isDestroyed := isDestroyed l |}.

Definition with_destroyed (l : GltfLoader) : GltfLoader :=
  {| _gltfResource := _gltfResource l; _baseResource := _baseResource l;
     _typedArray := _typedArray l; _keepResident := _keepResident l;
     _asynchronous := _asynchronous l;
     _incrementallyLoadTextures := _incrementallyLoadTextures l;
     _gltfJsonLoader := _gltfJsonLoader l; _state := _state l; _promise := _promise l;
     _loaders := _loaders l; _components := _components l;
     isDestroyed := true |}.

(** ** Field updates

    [set_f v x] is [x] after the assignment [x.f = v]. *)

Definition set_attribute_semantic (v : option string) (x : Attribute) : Attribute :=
  {| attribute_semantic := v; attribute_constant := attribute_constant x;
     attribute_componentDatatype := attribute_componentDatatype x;
     attribute_normalized := attribute_normalized x;
     attribute_count := attribute_count x; attribute_type := attribute_type x;
     attribute_min := attribute_min x; attribute_max := attribute_max x;
     attribute_byteOffset := attribute_byteOffset x;
     attribute_byteStride := attribute_byteStride x;
     attribute_quantization := attribute_quantization x;
     attribute_buffer := attribute_buffer x;
     attribute_typedArray := attribute_typedArray x |}.
Definition set_attribute_constant (v : option MathValue) (x : Attribute) : Attribute :=
  {| attribute_semantic := attribute_semantic x; attribute_constant := v;
     attribute_componentDatatype := attribute_componentDatatype x;
     attribute_normalized := attribute_normalized x;
     attribute_count := attribute_count x; attribute_type := attribute_type x;
     attribute_min := attribute_min x; attribute_max := attribute_max x;
     attribute_byteOffset := attribute_byteOffset x;
     attribute_byteStride := attribute_byteStride x;
     attribute_quantization := attribute_quantization x;
     attribute_buffer := attribute_buffer x;
     attribute_typedArray := attribute_typedArray x |}.
Definition set_attribute_componentDatatype (v : option Z) (x : Attribute) : Attribute :=
  {| attribute_semantic := attribute_semantic x;
     attribute_constant := attribute_constant x; attribute_componentDatatype := v;
     attribute_normalized := attribute_normalized x;
     attribute_count := attribute_count x; attribute_type := attribute_type x;
     attribute_min := attribute_min x; attribute_max := attribute_max x;
     attribute_byteOffset := attribute_byteOffset x;
     attribute_byteStride := attribute_byteStride x;
     attribute_quantization := attribute_quantization x;
     attribute_buffer := attribute_buffer x;
     attribute_typedArray := attribute_typedArray x |}.
Definition set_attribute_normalized (v : option bool) (x : Attribute) : Attribute :=
  {| attribute_semantic := attribute_semantic x;
     attribute_constant := attribute_constant x;
     attribute_componentDatatype := attribute_componentDatatype x;
     attribute_normalized := v; attribute_count := attribute_count x;
     attribute_type := attribute_type x; attribute_min := attribute_min x;
     attribute_max := attribute_max x; attribute_byteOffset := attribute_byteOffset x;
     attribute_byteStride := attribute_byteStride x;
     attribute_quantization := attribute_quantization x;
     attribute_buffer := attribute_buffer x;
     attribute_typedArray := attribute_typedArray x |}.
Definition set_attribute_count (v : option nat) (x : Attribute) : Attribute :=
  {| attribute_semantic := attribute_semantic x;
     attribute_constant := attribute_constant x;
     attribute_componentDatatype := attribute_componentDatatype x;
     attribute_normalized := attribute_normalized x; attribute_count := v;
     attribute_type := attribute_type x; attribute_min := attribute_min x;
     attribute_max := attribute_max x; attribute_byteOffset := attribute_byteOffset x;
     attribute_byteStride := attribute_byteStride x;
     attribute_quantization := attribute_quantization x;
     attribute_buffer := attribute_buffer x;
     attribute_typedArray := attribute_typedArray x |}.
Definition set_attribute_type (v : option AttributeType) (x : Attribute) : Attribute :=
  {| attribute_semantic := attribute_semantic x;
     attribute_constant := attribute_constant x;
     attribute_componentDatatype := attribute_componentDatatype x;
     attribute_normalized := attribute_normalized x;
     attribute_count := attribute_count x; attribute_type := v;
     attribute_min := attribute_min x; attribute_max := attribute_max x;
     attribute_byteOffset := attribute_byteOffset x;
     attribute_byteStride := attribute_byteStride x;
     attribute_quantization := attribute_quantization x;
     attribute_buffer := attribute_buffer x;
     attribute_typedArray := attribute_typedArray x |}.
Definition set_attribute_min (v : option MathValue) (x : Attribute) : Attribute :=
  {| attribute_semantic := attribute_semantic x;
     attribute_constant := attribute_constant x;
     attribute_componentDatatype := attribute_componentDatatype x;
     attribute_normalized := attribute_normalized x;
     attribute_count := attribute_count x; attribute_type := attribute_type x;
     attribute_min := v; attribute_max := attribute_max x;
     attribute_byteOffset := attribute_byteOffset x;
     attribute_byteStride := attribute_byteStride x;
     attribute_quantization := attribute_quantization x;
     attribute_buffer := attribute_buffer x;
     attribute_typedArray := attribute_typedArray x |}.
Definition set_attribute_max (v : option MathValue) (x : Attribute) : Attribute :=
  {| attribute_semantic := attribute_semantic x;
     attribute_constant := attribute_constant x;
     attribute_componentDatatype := attribute_componentDatatype x;
     attribute_normalized := attribute_normalized x;
     attribute_count := attribute_count x; attribute_type := attribute_type x;
     attribute_min := attribute_min x; attribute_max := v;
     attribute_byteOffset := attribute_byteOffset x;
     attribute_byteStride := attribute_byteStride x;
     attribute_quantization := attribute_quantization x;
     attribute_buffer := attribute_buffer x;
     attribute_typedArray := attribute_typedArray x |}.
Definition set_attribute_byteOffset (v : option Z) (x : Attribute) : Attribute :=
  {| attribute_semantic := attribute_semantic x;
     attribute_constant := attribute_constant x;
     attribute_componentDatatype := attribute_componentDatatype x;
     attribute_normalized := attribute_normalized x;
     attribute_count := attribute_count x; attribute_type := attribute_type x;
     attribute_min := attribute_min x; attribute_max := attribute_max x;
     attribute_byteOffset := v; attribute_byteStride := attribute_byteStride x;
     attribute_quantization := attribute_quantization x;
     attribute_buffer := attribute_buffer x;
     attribute_typedArray := attribute_typedArray x |}.
Definition set_attribute_byteStride (v : option Z) (x : Attribute) : Attribute :=
  {| attribute_semantic := attribute_semantic x;
     attribute_constant := attribute_constant x;
     attribute_componentDatatype := attribute_componentDatatype x;
     attribute_normalized := attribute_normalized x;
     attribute_count := attribute_count x; attribute_type := attribute_type x;
     attribute_min := attribute_min x; attribute_max := attribute_max x;
     attribute_byteOffset := attribute_byteOffset x; attribute_byteStride := v;
     attribute_quantization := attribute_quantization x;
     attribute_buffer := attribute_buffer x;
     attribute_typedArray := attribute_typedArray x |}.
Definition set_attribute_quantization (v : option Quantization) (x : Attribute) : Attribute :=
  {| attribute_semantic := attribute_semantic x;
     attribute_constant := attribute_constant x;
     attribute_componentDatatype := attribute_componentDatatype x;
     attribute_normalized := attribute_normalized x;
     attribute_count := attribute_count x; attribute_type := attribute_type x;
     attribute_min := attribute_min x; attribute_max := attribute_max x;
     attribute_byteOffset := attribute_byteOffset x;
     attribute_byteStride := attribute_byteStride x; attribute_quantization := v;
     attribute_buffer := attribute_buffer x;
     attribute_typedArray := attribute_typedArray x |}.
Definition set_attribute_buffer (v : option Buffer) (x : Attribute) : Attribute :=
  {| attribute_semantic := attribute_semantic x;
     attribute_constant := attribute_constant x;
     attribute_componentDatatype := attribute_componentDatatype x;
     attribute_normalized := attribute_normalized x;
     attribute_count := attribute_count x; attribute_type := attribute_type x;
     attribute_min := attribute_min x; attribute_max := attribute_max x;
     attribute_byteOffset := attribute_byteOffset x;
     attribute_byteStride := attribute_byteStride x;
     attribute_quantization := attribute_quantization x; attribute_buffer := v;
     attribute_typedArray := attribute_typedArray x |}.
Definition set_attribute_typedArray (v : option (list float)) (x : Attribute) : Attribute :=
  {| attribute_semantic := attribute_semantic x;
     attribute_constant := attribute_constant x;
     attribute_componentDatatype := attribute_componentDatatype x;
     attribute_normalized := attribute_normalized x;
     attribute_count := attribute_count x; attribute_type := attribute_type x;
     attribute_min := attribute_min x; attribute_max := attribute_max x;
     attribute_byteOffset := attribute_byteOffset x;
     attribute_byteStride := attribute_byteStride x;
     attribute_quantization := attribute_quantization x;
     attribute_buffer := attribute_buffer x; attribute_typedArray := v |}.

Definition set_indices_indexDatatype (v : option Z) (x : Indices) : Indices :=
  {| indices_indexDatatype := v; indices_count := indices_count x;
     indices_buffer := indices_buffer x |}.
Definition set_indices_count (v : option nat) (x : Indices) : Indices :=
  {| indices_indexDatatype := indices_indexDatatype x; indices_count := v;
     indices_buffer := indices_buffer x |}.
Definition set_indices_buffer (v : option Buffer) (x : Indices) : Indices :=
  {| indices_indexDatatype := indices_indexDatatype x; indices_count := indices_count x;
     indices_buffer := v |}.

Definition set_texture_texCoord (v : option nat) (x : Texture) : Texture :=
  {| texture_texCoord := v; texture_sampler := texture_sampler x;
     texture_texture := texture_texture x |}.
Definition set_texture_sampler (v : option Sampler) (x : Texture) : Texture :=
  {| texture_texCoord := texture_texCoord x; texture_sampler := v;
     texture_texture := texture_texture x |}.
Definition set_texture_texture (v : option GpuTexture) (x : Texture) : Texture :=
  {| texture_texCoord := texture_texCoord x; texture_sampler := texture_sampler x;
     texture_texture := v |}.

Definition set_skin_joints (v : option (list (option nat))) (x : Skin) : Skin :=
  {| skin_joints := v; skin_inverseBindMatrices := skin_inverseBindMatrices x |}.
Definition set_skin_inverseBindMatrices (v : option (list MathValue)) (x : Skin) : Skin :=
  {| skin_joints := skin_joints x; skin_inverseBindMatrices := v |}.

Definition set_metallicRoughness_baseColorTexture (v : option nat) (x : MetallicRoughness) : MetallicRoughness :=
  {| metallicRoughness_baseColorTexture := v;
     metallicRoughness_metallicRoughnessTexture := metallicRoughness_metallicRoughnessTexture x;
     metallicRoughness_baseColorFactor := metallicRoughness_baseColorFactor x;
     metallicRoughness_metallicFactor := metallicRoughness_metallicFactor x;
     metallicRoughness_roughnessFactor := metallicRoughness_roughnessFactor x |}.
Definition set_metallicRoughness_metallicRoughnessTexture (v : option nat) (x : MetallicRoughness) : MetallicRoughness :=
  {| metallicRoughness_baseColorTexture := metallicRoughness_baseColorTexture x;
     metallicRoughness_metallicRoughnessTexture := v;
     metallicRoughness_baseColorFactor := metallicRoughness_baseColorFactor x;
     metallicRoughness_metallicFactor := metallicRoughness_metallicFactor x;
     metallicRoughness_roughnessFactor := metallicRoughness_roughnessFactor x |}.
Definition set_metallicRoughness_baseColorFactor (v : option MathValue) (x : MetallicRoughness) : MetallicRoughness :=
  {| metallicRoughness_baseColorTexture := metallicRoughness_baseColorTexture x;
     metallicRoughness_metallicRoughnessTexture := metallicRoughness_metallicRoughnessTexture x;
     metallicRoughness_baseColorFactor := v;
     metallicRoughness_metallicFactor := metallicRoughness_metallicFactor x;
     metallicRoughness_roughnessFactor := metallicRoughness_roughnessFactor x |}.
Definition set_metallicRoughness_metallicFactor (v : option float) (x : MetallicRoughness) : MetallicRoughness :=
  {| metallicRoughness_baseColorTexture := metallicRoughness_baseColorTexture x;
     metallicRoughness_metallicRoughnessTexture := metallicRoughness_metallicRoughnessTexture x;
     metallicRoughness_baseColorFactor := metallicRoughness_baseColorFactor x;
     metallicRoughness_metallicFactor := v;
     metallicRoughness_roughnessFactor := metallicRoughness_roughnessFactor x |}.
Definition set_metallicRoughness_roughnessFactor (v : option float) (x : MetallicRoughness) : MetallicRoughness :=
  {| metallicRoughness_baseColorTexture := metallicRoughness_baseColorTexture x;
     metallicRoughness_metallicRoughnessTexture := metallicRoughness_metallicRoughnessTexture x;
     metallicRoughness_baseColorFactor := metallicRoughness_baseColorFactor x;
     metallicRoughness_metallicFactor := metallicRoughness_metallicFactor x;
     metallicRoughness_roughnessFactor := v |}.

Definition set_specularGlossiness_diffuseTexture (v : option nat) (x : SpecularGlossiness) : SpecularGlossiness :=
  {| specularGlossiness_diffuseTexture := v;
     specularGlossiness_specularGlossinessTexture := specularGlossiness_specularGlossinessTexture x;
     specularGlossiness_diffuseFactor := specularGlossiness_diffuseFactor x;
     specularGlossiness_specularFactor := specularGlossiness_specularFactor x;
     specularGlossiness_glossinessFactor := specularGlossiness_glossinessFactor x |}.
Definition set_specularGlossiness_specularGlossinessTexture (v : option nat) (x : SpecularGlossiness) : SpecularGlossiness :=
  {| specularGlossiness_diffuseTexture := specularGlossiness_diffuseTexture x;
     specularGlossiness_specularGlossinessTexture := v;
     specularGlossiness_diffuseFactor := specularGlossiness_diffuseFactor x;
     specularGlossiness_specularFactor := specularGlossiness_specularFactor x;
     specularGlossiness_glossinessFactor := specularGlossiness_glossinessFactor x |}.
Definition set_specularGlossiness_diffuseFactor (v : option MathValue) (x : SpecularGlossiness) : SpecularGlossiness :=
  {| specularGlossiness_diffuseTexture := specularGlossiness_diffuseTexture x;
     specularGlossiness_specularGlossinessTexture := specularGlossiness_specularGlossinessTexture x;
     specularGlossiness_diffuseFactor := v;
     specularGlossiness_specularFactor := specularGlossiness_specularFactor x;
     specularGlossiness_glossinessFactor := specularGlossiness_glossinessFactor x |}.
Definition set_specularGlossiness_specularFactor (v : option MathValue) (x : SpecularGlossiness) : SpecularGlossiness :=
  {| specularGlossiness_diffuseTexture := specularGlossiness_diffuseTexture x;
     specularGlossiness_specularGlossinessTexture := specularGlossiness_specularGlossinessTexture x;
     specularGlossiness_diffuseFactor := specularGlossiness_diffuseFactor x;
     specularGlossiness_specularFactor := v;
     specularGlossiness_glossinessFactor := specularGlossiness_glossinessFactor x |}.
Definition set_specularGlossiness_glossinessFactor (v : option float) (x : SpecularGlossiness) : SpecularGlossiness :=
  {| specularGlossiness_diffuseTexture := specularGlossiness_diffuseTexture x;
     specularGlossiness_specularGlossinessTexture := specularGlossiness_specularGlossinessTexture x;
     specularGlossiness_diffuseFactor := specularGlossiness_diffuseFactor x;
     specularGlossiness_specularFactor := specularGlossiness_specularFactor x;
     specularGlossiness_glossinessFactor := v |}.

Definition set_material_metallicRoughness (v : option MetallicRoughness) (x : Material) : Material :=
  {| material_metallicRoughness := v;
     material_specularGlossiness := material_specularGlossiness x;
     material_emissiveTexture := material_emissiveTexture x;
     material_normalTexture := material_normalTexture x;
     material_occlusionTexture := material_occlusionTexture x;
     material_emissiveFactor := material_emissiveFactor x;
     material_alphaMode := material_alphaMode x;
     material_alphaCutoff := material_alphaCutoff x;
     material_doubleSided := material_doubleSided x |}.
Definition set_material_specularGlossiness (v : option SpecularGlossiness) (x : Material) : Material :=
  {| material_metallicRoughness := material_metallicRoughness x;
     material_specularGlossiness := v;
     material_emissiveTexture := material_emissiveTexture x;
     material_normalTexture := material_normalTexture x;
     material_occlusionTexture := material_occlusionTexture x;
     material_emissiveFactor := material_emissiveFactor x;
     material_alphaMode := material_alphaMode x;
     material_alphaCutoff := material_alphaCutoff x;
     material_doubleSided := material_doubleSided x |}.
Definition set_material_emissiveTexture (v : option nat) (x : Material) : Material :=
  {| material_metallicRoughness := material_metallicRoughness x;
     material_specularGlossiness := material_specularGlossiness x;
     material_emissiveTexture := v; material_normalTexture := material_normalTexture x;
     material_occlusionTexture := material_occlusionTexture x;
     material_emissiveFactor := material_emissiveFactor x;
     material_alphaMode := material_alphaMode x;
     material_alphaCutoff := material_alphaCutoff x;
     material_doubleSided := material_doubleSided x |}.
Definition set_material_normalTexture (v : option nat) (x : Material) : Material :=
  {| material_metallicRoughness := material_metallicRoughness x;
     material_specularGlossiness := material_specularGlossiness x;
     material_emissiveTexture := material_emissiveTexture x; material_normalTexture := v;
     material_occlusionTexture := material_occlusionTexture x;
     material_emissiveFactor := material_emissiveFactor x;
     material_alphaMode := material_alphaMode x;
     material_alphaCutoff := material_alphaCutoff x;
     material_doubleSided := material_doubleSided x |}.
Definition set_material_occlusionTexture (v : option nat) (x : Material) : Material :=
  {| material_metallicRoughness := material_metallicRoughness x;
     material_specularGlossiness := material_specularGlossiness x;
     material_emissiveTexture := material_emissiveTexture x;
     material_normalTexture := material_normalTexture x; material_occlusionTexture := v;
     material_emissiveFactor := material_emissiveFactor x;
     material_alphaMode := material_alphaMode x;
     material_alphaCutoff := material_alphaCutoff x;
     material_doubleSided := material_doubleSided x |}.
Definition set_material_emissiveFactor (v : option MathValue) (x : Material) : Material :=
  {| material_metallicRoughness := material_metallicRoughness x;
     material_specularGlossiness := material_specularGlossiness x;
     material_emissiveTexture := material_emissiveTexture x;
     material_normalTexture := material_normalTexture x;
     material_occlusionTexture := material_occlusionTexture x;
     material_emissiveFactor := v; material_alphaMode := material_alphaMode x;
     material_alphaCutoff := material_alphaCutoff x;
     material_doubleSided := material_doubleSided x |}.
Definition set_material_alphaMode (v : option string) (x : Material) : Material :=
  {| material_metallicRoughness := material_metallicRoughness x;
     material_specularGlossiness := material_specularGlossiness x;
     material_emissiveTexture := material_emissiveTexture x;
     material_normalTexture := material_normalTexture x;
     material_occlusionTexture := material_occlusionTexture x;
     material_emissiveFactor := material_emissiveFactor x; material_alphaMode := v;
     material_alphaCutoff := material_alphaCutoff x;
     material_doubleSided := material_doubleSided x |}.
Definition set_material_alphaCutoff (v : option float) (x : Material) : Material :=
  {| material_metallicRoughness := material_metallicRoughness x;
     material_specularGlossiness := material_specularGlossiness x;
     material_emissiveTexture := material_emissiveTexture x;
     material_normalTexture := material_normalTexture x;
     material_occlusionTexture := material_occlusionTexture x;
     material_emissiveFactor := material_emissiveFactor x;
     material_alphaMode := material_alphaMode x; material_alphaCutoff := v;
     material_doubleSided := material_doubleSided x |}.
Definition set_material_doubleSided (v : option bool) (x : Material) : Material :=
  {| material_metallicRoughness := material_metallicRoughness x;
     material_specularGlossiness := material_specularGlossiness x;
     material_emissiveTexture := material_emissiveTexture x;
     material_normalTexture := material_normalTexture x;
     material_occlusionTexture := material_occlusionTexture x;
     material_emissiveFactor := material_emissiveFactor x;
     material_alphaMode := material_alphaMode x;
     material_alphaCutoff := material_alphaCutoff x; material_doubleSided := v |}.

Definition set_featureIdAttribute_featureTableId (v : option string) (x : FeatureIdAttribute) : FeatureIdAttribute :=
  {| featureIdAttribute_featureTableId := v;
     featureIdAttribute_semantic := featureIdAttribute_semantic x;
     featureIdAttribute_constant := featureIdAttribute_constant x;
     featureIdAttribute_divisor := featureIdAttribute_divisor x |}.
Definition set_featureIdAttribute_semantic (v : option string) (x : FeatureIdAttribute) : FeatureIdAttribute :=
  {| featureIdAttribute_featureTableId := featureIdAttribute_featureTableId x;
     featureIdAttribute_semantic := v;
     featureIdAttribute_constant := featureIdAttribute_constant x;
     featureIdAttribute_divisor := featureIdAttribute_divisor x |}.
Definition set_featureIdAttribute_constant (v : option Z) (x : FeatureIdAttribute) : FeatureIdAttribute :=
  {| featureIdAttribute_featureTableId := featureIdAttribute_featureTableId x;
     featureIdAttribute_semantic := featureIdAttribute_semantic x;
     featureIdAttribute_constant := v;
     featureIdAttribute_divisor := featureIdAttribute_divisor x |}.
Definition set_featureIdAttribute_divisor (v : option Z) (x : FeatureIdAttribute) : FeatureIdAttribute :=
  {| featureIdAttribute_featureTableId := featureIdAttribute_featureTableId x;
     featureIdAttribute_semantic := featureIdAttribute_semantic x;
     featureIdAttribute_constant := featureIdAttribute_constant x;
     featureIdAttribute_divisor := v |}.

Definition set_featureIdTexture_featureTableId (v : option string) (x : FeatureIdTexture) : FeatureIdTexture :=
  {| featureIdTexture_featureTableId := v;
     featureIdTexture_channel := featureIdTexture_channel x;
     featureIdTexture_texture := featureIdTexture_texture x |}.
Definition set_featureIdTexture_channel (v : option string) (x : FeatureIdTexture) : FeatureIdTexture :=
  {| featureIdTexture_featureTableId := featureIdTexture_featureTableId x;
     featureIdTexture_channel := v;
     featureIdTexture_texture := featureIdTexture_texture x |}.
Definition set_featureIdTexture_texture (v : option nat) (x : FeatureIdTexture) : FeatureIdTexture :=
  {| featureIdTexture_featureTableId := featureIdTexture_featureTableId x;
     featureIdTexture_channel := featureIdTexture_channel x;
     featureIdTexture_texture := v |}.

Definition set_primitive_attributes (v : list nat) (x : Primitive) : Primitive :=
  {| primitive_attributes := v; primitive_indices := primitive_indices x;
     primitive_material := primitive_material x;
     primitive_morphTargets := primitive_morphTargets x;
     primitive_morphWeights := primitive_morphWeights x;
     primitive_featureIdAttributes := primitive_featureIdAttributes x;
     primitive_featureIdTextures := primitive_featureIdTextures x;
     primitive_featureTexturesIds := primitive_featureTexturesIds x;
     primitive_primitiveType := primitive_primitiveType x |}.
Definition set_primitive_indices (v : option nat) (x : Primitive) : Primitive :=
  {| primitive_attributes := primitive_attributes x; primitive_indices := v;
     primitive_material := primitive_material x;
     primitive_morphTargets := primitive_morphTargets x;
     primitive_morphWeights := primitive_morphWeights x;
     primitive_featureIdAttributes := primitive_featureIdAttributes x;
     primitive_featureIdTextures := primitive_featureIdTextures x;
     primitive_featureTexturesIds := primitive_featureTexturesIds x;
     primitive_primitiveType := primitive_primitiveType x |}.
Definition set_primitive_material (v : option Material) (x : Primitive) : Primitive :=
  {| primitive_attributes := primitive_attributes x;
     primitive_indices := primitive_indices x; primitive_material := v;
     primitive_morphTargets := primitive_morphTargets x;
     primitive_morphWeights := primitive_morphWeights x;
     primitive_featureIdAttributes := primitive_featureIdAttributes x;
     primitive_featureIdTextures := primitive_featureIdTextures x;
     primitive_featureTexturesIds := primitive_featureTexturesIds x;
     primitive_primitiveType := primitive_primitiveType x |}.
Definition set_primitive_morphTargets (v : list MorphTarget) (x : Primitive) : Primitive :=
  {| primitive_attributes := primitive_attributes x;
     primitive_indices := primitive_indices x;
     primitive_material := primitive_material x; primitive_morphTargets := v;
     primitive_morphWeights := primitive_morphWeights x;
     primitive_featureIdAttributes := primitive_featureIdAttributes x;
     primitive_featureIdTextures := primitive_featureIdTextures x;
     primitive_featureTexturesIds := primitive_featureTexturesIds x;
     primitive_primitiveType := primitive_primitiveType x |}.
Definition set_primitive_morphWeights (v : list float) (x : Primitive) : Primitive :=
  {| primitive_attributes := primitive_attributes x;
     primitive_indices := primitive_indices x;
     primitive_material := primitive_material x;
     primitive_morphTargets := primitive_morphTargets x; primitive_morphWeights := v;
     primitive_featureIdAttributes := primitive_featureIdAttributes x;
     primitive_featureIdTextures := primitive_featureIdTextures x;
     primitive_featureTexturesIds := primitive_featureTexturesIds x;
     primitive_primitiveType := primitive_primitiveType x |}.
Definition set_primitive_featureIdAttributes (v : list FeatureIdAttribute) (x : Primitive) : Primitive :=
  {| primitive_attributes := primitive_attributes x;
     primitive_indices := primitive_indices x;
     primitive_material := primitive_material x;
     primitive_morphTargets := primitive_morphTargets x;
     primitive_morphWeights := primitive_morphWeights x;
     primitive_featureIdAttributes := v;
     primitive_featureIdTextures := primitive_featureIdTextures x;
     primitive_featureTexturesIds := primitive_featureTexturesIds x;
     primitive_primitiveType := primitive_primitiveType x |}.
Definition set_primitive_featureIdTextures (v : list FeatureIdTexture) (x : Primitive) : Primitive :=
  {| primitive_attributes := primitive_attributes x;
     primitive_indices := primitive_indices x;
     primitive_material := primitive_material x;
     primitive_morphTargets := primitive_morphTargets x;
     primitive_morphWeights := primitive_morphWeights x;
     primitive_featureIdAttributes := primitive_featureIdAttributes x;
     primitive_featureIdTextures := v;
     primitive_featureTexturesIds := primitive_featureTexturesIds x;
     primitive_primitiveType := primitive_primitiveType x |}.
Definition set_primitive_featureTexturesIds (v : option (list string)) (x : Primitive) : Primitive :=
  {| primitive_attributes := primitive_attributes x;
     primitive_indices := primitive_indices x;
     primitive_material := primitive_material x;
     primitive_morphTargets := primitive_morphTargets x;
     primitive_morphWeights := primitive_morphWeights x;
     primitive_featureIdAttributes := primitive_featureIdAttributes x;
     primitive_featureIdTextures := primitive_featureIdTextures x;
     primitive_featureTexturesIds := v;
     primitive_primitiveType := primitive_primitiveType x |}.
Definition set_primitive_primitiveType (v : option Z) (x : Primitive) : Primitive :=
  {| primitive_attributes := primitive_attributes x;
     primitive_indices := primitive_indices x;
     primitive_material := primitive_material x;
     primitive_morphTargets := primitive_morphTargets x;
     primitive_morphWeights := primitive_morphWeights x;
     primitive_featureIdAttributes := primitive_featureIdAttributes x;
     primitive_featureIdTextures := primitive_featureIdTextures x;
     primitive_featureTexturesIds := primitive_featureTexturesIds x;
     primitive_primitiveType := v |}.

Definition set_instances_attributes (v : list nat) (x : Instances) : Instances :=
  {| instances_attributes := v;
     instances_featureIdAttributes := instances_featureIdAttributes x |}.
Definition set_instances_featureIdAttributes (v : list FeatureIdAttribute) (x : Instances) : Instances :=
  {| instances_attributes := instances_attributes x;
     instances_featureIdAttributes := v |}.

Definition set_node_matrix (v : option MathValue) (x : Node) : Node :=
  {| node_matrix := v; node_translation := node_translation x;
     node_rotation := node_rotation x; node_scale := node_scale x;
     node_children := node_children x; node_primitives := node_primitives x;
     node_skin := node_skin x; node_instances := node_instances x |}.
Definition set_node_translation (v : option MathValue) (x : Node) : Node :=
  {| node_matrix := node_matrix x; node_translation := v;
     node_rotation := node_rotation x; node_scale := node_scale x;
     node_children := node_children x; node_primitives := node_primitives x;
     node_skin := node_skin x; node_instances := node_instances x |}.
Definition set_node_rotation (v : option MathValue) (x : Node) : Node :=
  {| node_matrix := node_matrix x; node_translation := node_translation x;
     node_rotation := v; node_scale := node_scale x; node_children := node_children x;
     node_primitives := node_primitives x; node_skin := node_skin x;
     node_instances := node_instances x |}.
Definition set_node_scale (v : option MathValue) (x : Node) : Node :=
  {| node_matrix := node_matrix x; node_translation := node_translation x;
     node_rotation := node_rotation x; node_scale := v; node_children := node_children x;
     node_primitives := node_primitives x; node_skin := node_skin x;
     node_instances := node_instances x |}.
Definition set_node_children (v : list (option nat)) (x : Node) : Node :=
  {| node_matrix := node_matrix x; node_translation := node_translation x;
     node_rotation := node_rotation x; node_scale := node_scale x; node_children := v;
     node_primitives := node_primitives x; node_skin := node_skin x;
     node_instances := node_instances x |}.
Definition set_node_primitives (v : list Primitive) (x : Node) : Node :=
  {| node_matrix := node_matrix x; node_translation := node_translation x;
     node_rotation := node_rotation x; node_scale := node_scale x;
     node_children := node_children x; node_primitives := v; node_skin := node_skin x;
     node_instances := node_instances x |}.
Definition set_node_skin (v : option nat) (x : Node) : Node :=
  {| node_matrix := node_matrix x; node_translation := node_translation x;
     node_rotation := node_rotation x; node_scale := node_scale x;
     node_children := node_children x; node_primitives := node_primitives x;
     node_skin := v; node_instances := node_instances x |}.
Definition set_node_instances (v : option Instances) (x : Node) : Node :=
  {| node_matrix := node_matrix x; node_translation := node_translation x;
     node_rotation := node_rotation x; node_scale := node_scale x;
     node_children := node_children x; node_primitives := node_primitives x;
     node_skin := node_skin x; node_instances := v |}.

Definition set_components_scene (v : option Scene) (x : Components) : Components :=
  {| components_scene := v; components_nodes := components_nodes x;
     components_featureMetadata := components_featureMetadata x |}.
Definition set_components_nodes (v : option (list Node)) (x : Components) : Components :=
  {| components_scene := components_scene x; components_nodes := v;
     components_featureMetadata := components_featureMetadata x |}.
Definition set_components_featureMetadata (v : option FeatureMetadata) (x : Components) : Components :=
  {| components_scene := components_scene x; components_nodes := components_nodes x;
     components_featureMetadata := v |}.

Definition set_sub_key (v : CacheKey) (x : SubLoader) : SubLoader :=
  {| sub_key := v; sub_promise := sub_promise x; sub_fields := sub_fields x;
     sub_callbacks := sub_callbacks x |}.
Definition set_sub_promise (v : PromiseState) (x : SubLoader) : SubLoader :=
  {| sub_key := sub_key x; sub_promise := v; sub_fields := sub_fields x;
     sub_callbacks := sub_callbacks x |}.
Definition set_sub_fields (v : LoaderFields) (x : SubLoader) : SubLoader :=
  {| sub_key := sub_key x; sub_promise := sub_promise x; sub_fields := v;
     sub_callbacks := sub_callbacks x |}.
Definition set_sub_callbacks (v : list Callback) (x : SubLoader) : SubLoader :=
  {| sub_key := sub_key x; sub_promise := sub_promise x; sub_fields := sub_fields x;
     sub_callbacks := v |}.

Definition set_entry_key (v : CacheKey) (x : CacheEntry) : CacheEntry :=
  {| entry_key := v; entry_loader := entry_loader x; entry_count := entry_count x;
     entry_keepResident := entry_keepResident x |}.
Definition set_entry_loader (v : nat) (x : CacheEntry) : CacheEntry :=
  {| entry_key := entry_key x; entry_loader := v; entry_count := entry_count x;
     entry_keepResident := entry_keepResident x |}.
Definition set_entry_count (v : nat) (x : CacheEntry) : CacheEntry :=
  {| entry_key := entry_key x; entry_loader := entry_loader x; entry_count := v;
     entry_keepResident := entry_keepResident x |}.
Definition set_entry_keepResident (v : bool) (x : CacheEntry) : CacheEntry :=
  {| entry_key := entry_key x; entry_loader := entry_loader x;
     entry_count := entry_count x; entry_keepResident := v |}.

Definition set_heap_attributes (v : list Attribute) (x : Heap) : Heap :=
  {| heap_attributes := v; heap_indices := heap_indices x;
     heap_textures := heap_textures x; heap_skins := heap_skins x;
     heap_components := heap_components x |}.
Definition set_heap_indices (v : list Indices) (x : Heap) : Heap :=
  {| heap_attributes := heap_attributes x; heap_indices := v;
     heap_textures := heap_textures x; heap_skins := heap_skins x;
     heap_components := heap_components x |}.
Definition set_heap_textures (v : list Texture) (x : Heap) : Heap :=
  {| heap_attributes := heap_attributes x; heap_indices := heap_indices x;
     heap_textures := v; heap_skins := heap_skins x;
     heap_components := heap_components x |}.
Definition set_heap_skins (v : list Skin) (x : Heap) : Heap :=
  {| heap_attributes := heap_attributes x; heap_indices := heap_indices x;
     heap_textures := heap_textures x; heap_skins := v;
     heap_components := heap_components x |}.
Definition set_heap_components (v : list Components) (x : Heap) : Heap :=
  {| heap_attributes := heap_attributes x; heap_indices := heap_indices x;
     heap_textures := heap_textures x; heap_skins := heap_skins x;
     heap_components := v |}.

(** ** The monad of code that mutates the world and may throw *)

Definition M (A : Type) : Type := World → Res A * World.

#[export] Instance M_ret : MRet M := λ A a w, (Ok a, w).

#[export] Instance M_bind : MBind M := λ A B f m w,
  match m w with
  | (Ok a, w') => f a w'
  | (Throw e, w') => (Throw e, w')
  end.

Definition throw {A} (e : Error) : M A := λ w, (Throw e, w).
Definition gets {A} (f : World → A) : M A := λ w, (Ok (f w), w).
Definition modify (f : World → World) : M unit := λ w, (Ok tt, f w).

(** Reading a property of a value that may be [undefined]. *)
Definition js_deref {A} (o : option A) : M A :=
  match o with
  | Some a => mret a
  | None => throw TypeError
  end.

(** The empty statement. *)
Definition skip : M unit := mret tt.

(** A callback run by a promise: what it throws goes to the promise it
    returns, never to the caller. *)
Definition swallow (m : M unit) : M unit := λ w, (Ok tt, (m w).2).

(** [for (i = 0; i < array.length; ++i) body(array[i])]. *)
Fixpoint forEach {A} (l : list A) (body : A → M unit) : M unit :=
  match l with
  | [] => mret tt
  | x :: l' => body x;; forEach l' body
  end.

(** The same loop when each round yields a value that is pushed or stored. *)
Fixpoint forEachCollect {A B} (l : list A) (body : A → M B) : M (list B) :=
  match l with
  | [] => mret []
  | x :: l' => y ← body x; ys ← forEachCollect l' body; mret (y :: ys)
  end.

(** [for (i = 0; i < bound; ++i)] where [bound] may be [undefined]:
    [i < undefined] is false, so the body never runs. *)
Definition loop_rounds (bound : option nat) : list nat :=
  match bound with
  | Some n => seq 0 n
  | None => []
  end.

(** [defaultValue(a, b)]. *)
Definition defaultValue {A} (a b : option A) : option A :=
  match a with
  | Some _ => a
  | None => b
  end.

(** [array.slice()]: a new array with the same elements. *)
Definition slice {A} (array : list A) : list A := array.

(** [object[key]] on an object with string keys. *)
Fixpoint get_property {A} (key : string) (object : list (string * A)) : option A :=
  match object with
  | [] => None
  | (k, v) :: rest => if decide (k = key) then Some v else get_property key rest
  end.

(** [draco.attributes[semantic]] when [draco] and [draco.attributes] are
    defined, and [undefined] otherwise: the value tested by
    [defined(draco) && defined(draco.attributes) && defined(draco.attributes[semantic])]. *)
Definition draco_attribute (draco : option GltfDraco) (semantic : string) : option nat :=
  match draco with
  | Some draco =>
      match draco_attributes draco with
      | Some attributes => get_property semantic attributes
      | None => None
      end
  | None => None
  end.

(** *** Heap *)

Definition alloc_attribute (a : Attribute) : M nat := λ w,
  (Ok (length (heap_attributes (heap w))),
   set_heap (λ h, set_heap_attributes (heap_attributes h ++ [a]) h) w).

Definition alloc_indices (i : Indices) : M nat := λ w,
  (Ok (length (heap_indices (heap w))),
   set_heap (λ h, set_heap_indices (heap_indices h ++ [i]) h) w).

Definition alloc_texture (t : Texture) : M nat := λ w,
  (Ok (length (heap_textures (heap w))),
   set_heap (λ h, set_heap_textures (heap_textures h ++ [t]) h) w).

Definition alloc_skin (s : Skin) : M nat := λ w,
  (Ok (length (heap_skins (heap w))),
   set_heap (λ h, set_heap_skins (heap_skins h ++ [s]) h) w).

Definition alloc_components (c : Components) : M nat := λ w,
  (Ok (length (heap_components (heap w))),
   set_heap (λ h, set_heap_components (heap_components h ++ [c]) h) w).

Definition update_attribute (r : nat) (f : Attribute → Attribute) : M unit :=
  modify (set_heap (λ h, set_heap_attributes (alter f r (heap_attributes h)) h)).

Definition update_indices (r : nat) (f : Indices → Indices) : M unit :=
  modify (set_heap (λ h, set_heap_indices (alter f r (heap_indices h)) h)).

Definition update_texture (r : nat) (f : Texture → Texture) : M unit :=
  modify (set_heap (λ h, set_heap_textures (alter f r (heap_textures h)) h)).

Definition update_skin (r : nat) (f : Skin → Skin) : M unit :=
  modify (set_heap (λ h, set_heap_skins (alter f r (heap_skins h)) h)).

Definition update_components (r : nat) (f : Components → Components) : M unit :=
  modify (set_heap (λ h, set_heap_components (alter f r (heap_components h)) h)).

(** *** The public promise ([when.defer()]): it settles once. *)

Definition promise_resolve : M unit := λ w,
  let w := log_call PromiseResolve w in
  match _promise (loader w) with
  | Pending => (Ok tt, set_loader (with_promise Resolved) w)
  | _ => (Ok tt, w)
  end.

Definition promise_reject (error : Error) : M unit := λ w,
  let w := log_call (PromiseReject error) w in
  match _promise (loader w) with
  | Pending => (Ok tt, set_loader (with_promise (Rejected error)) w)
  | _ => (Ok tt, w)
  end.

(** *** ResourceCache *)

(** Modelled from the spec: [acquire(key, factory)] of section 4.1, which the
    sources do not include: a live entry for the key has its reference count
    incremented and its loader returned; otherwise a loader is constructed and
    stored under the key with reference count 1. *)
Definition ResourceCache_acquire (key : CacheKey) (keepResident : bool) : M nat := λ w,
  match list_find (λ e, entry_key e = key) (cache w) with
  | Some (i, e) =>
      (Ok (entry_loader e),
       set_cache (alter (λ e, set_entry_count (S (entry_count e)) e) i) w)
  | None =>
      let r := length (subs w) in
      (Ok r,
       set_cache (λ c, c ++ [{| entry_key := key; entry_loader := r; entry_count := 1;
                               entry_keepResident := keepResident |}])
         (set_subs (λ s, s ++ [{| sub_key := key; sub_promise := Pending;
                                 sub_fields := no_fields; sub_callbacks := [] |}]) w))
  end.

(** Modelled from the spec: [release(handle)] of section 4.1: the count is
    decremented, and at zero the entry is evicted unless it is kept resident. *)
Definition release (r : nat) (c : list CacheEntry) : list CacheEntry :=
  match list_find (λ e, entry_loader e = r) c with
  | Some (i, e) =>
      if bool_decide (entry_count e ≤ 1) && negb (entry_keepResident e)
      then delete i c
      else alter (λ e, set_entry_count (pred (entry_count e)) e) i c
  | None => c
  end.

Definition ResourceCache_unload (r : nat) : M unit :=
  modify (λ w, log_call (CacheUnload r) (set_cache (release r) w)).

(** A loader constructed directly ([new GltfFeatureMetadataLoader]). *)
Definition new_loader (key : CacheKey) : M nat := λ w,
  (Ok (length (subs w)),
   set_subs (λ s, s ++ [{| sub_key := key; sub_promise := Pending;
                           sub_fields := no_fields; sub_callbacks := [] |}]) w).

(** Modelled from the spec: the key of a vertex buffer names the compressed
    payload and the attribute when the attribute comes out of a mesh-compression
    payload, and the buffer view otherwise, so attributes interleaved in one
    buffer view share one loader. *)
Definition vertexBufferKey (gltfResource baseResource : Resource)
    (bufferViewId : option nat) (draco : option GltfDraco) (semantic : string) : CacheKey :=
  match draco, draco_attribute draco semantic with
  | Some d, Some _ => VertexBufferKey gltfResource baseResource None (Some (d, semantic))
  | _, _ => VertexBufferKey gltfResource baseResource bufferViewId None
  end.

Definition ResourceCache_loadGltf : M nat :=
  l ← gets loader;
  ResourceCache_acquire (GltfJsonKey (_gltfResource l) (_baseResource l)) (_keepResident l).

Definition ResourceCache_loadVertexBuffer (bufferViewId : option nat)
    (draco : option GltfDraco) (dracoAttributeSemantic : string) : M nat :=
  l ← gets loader;
  ResourceCache_acquire
    (vertexBufferKey (_gltfResource l) (_baseResource l) bufferViewId draco
       dracoAttributeSemantic) false.

Definition ResourceCache_loadIndexBuffer (accessorId : nat) (draco : option GltfDraco)
    : M nat :=
  l ← gets loader;
  ResourceCache_acquire
    (IndexBufferKey (_gltfResource l) (_baseResource l) accessorId draco) false.

Definition ResourceCache_loadBufferView (bufferViewId : nat) : M nat :=
  l ← gets loader;
  ResourceCache_acquire
    (BufferViewKey (_gltfResource l) (_baseResource l) bufferViewId) false.

Definition ResourceCache_loadTexture (textureInfo : GltfTextureInfo)
    (supportedImageFormats : SupportedImageFormats) : M nat :=
  l ← gets loader;
  ResourceCache_acquire
    (TextureKey (_gltfResource l) (_baseResource l) textureInfo supportedImageFormats)
    false.

(** ** Collaborators outside this file

    Functions of other modules that [GltfLoader] calls and whose results it
    only passes on, and the numbers that the bytes of a buffer decode to:
    they are parameters of the development. *)
Class Collaborators : Type := {
  (** [getAccessorByteStride(gltf, accessor)] *)
  getAccessorByteStride : Gltf → GltfAccessor → Z;
  (** [numberOfComponentsForType(accessor.type)] *)
  numberOfComponentsForType : AttributeType → nat;
  (** [ComponentDatatype.getSizeInBytes(componentType)] *)
  getSizeInBytes : Z → Z;
  (** The element that a typed array of this component type over [buffer]
      holds at byte [position]. *)
  readComponent : Z → list Z → Z → float;
  (** [GltfLoaderUtil.getImageIdFromTexture({gltf, textureId, supportedImageFormats})] *)
  getImageIdFromTexture : Gltf → option nat → SupportedImageFormats → option nat;
  (** [GltfLoaderUtil.createSampler({gltf, textureInfo})] *)
  createSampler : Gltf → GltfTextureInfo → Sampler;
  (** [Sampler.NEAREST] *)
  Sampler_NEAREST : Sampler
}.

(** The collaborators used to run the model on concrete documents: tightly
    packed accessors of 4-byte components, one decoded component per four
    bytes, and textures whose image is their own index. *)
Definition sample_numberOfComponents (type : AttributeType) : nat :=
  match type with
  | SCALAR => 1 | VEC2 => 2 | VEC3 => 3 | VEC4 => 4
  | MAT2 => 4 | MAT3 => 9 | MAT4 => 16
  end.

Definition sample_collaborators : Collaborators :=
  {| getAccessorByteStride := λ _ accessor,
       (4 * Z.of_nat (sample_numberOfComponents (accessor_type accessor)))%Z;
     numberOfComponentsForType := sample_numberOfComponents;
     getSizeInBytes := λ _, 4%Z;
     readComponent := λ _ _ _, 0%float;
     getImageIdFromTexture := λ _ textureId _, textureId;
     createSampler := λ _ _,
       {| sampler_wrapS := 10497; sampler_wrapT := 10497;
          sampler_minificationFilter := 9729; sampler_magnificationFilter := 9729 |};
     Sampler_NEAREST :=
       {| sampler_wrapS := 33071; sampler_wrapT := 33071;
          sampler_minificationFilter := 9728; sampler_magnificationFilter := 9728 |} |}.

Section GltfLoader.

Context {collaborators : Collaborators}.

(** ** The constructor *)

Record GltfLoaderOptions : Type := {
  options_gltfResource : Resource;
  options_baseResource : option Resource;
  options_typedArray : option Uint8Array;
  options_keepResident : option bool;
  options_asynchronous : option bool;
  options_incrementallyLoadTextures : option bool
}.

Definition GltfLoader_new (options : GltfLoaderOptions) : GltfLoader :=
  let gltfResource := options_gltfResource options in
  let baseResource := options_baseResource options in
  let typedArray := options_typedArray options in
  let keepResident := default false (options_keepResident options) in
  let asynchronous := default true (options_asynchronous options) in
  let incrementallyLoadTextures :=
    default true (options_incrementallyLoadTextures options) in
  let baseResource :=
    match baseResource with
    | Some b => b
    | None => gltfResource
    end in
  {| _gltfResource := gltfResource;
     _baseResource := baseResource;
     _typedArray := typedArray;
     _keepResident := keepResident;
     _asynchronous := asynchronous;
     _incrementallyLoadTextures := incrementallyLoadTextures;
     _gltfJsonLoader := None;
     _state := UNLOADED;
     _promise := Pending;
     _loaders := [];
     _components := None;
     isDestroyed := false |}.

(** ** unload and handleError *)

Definition unload : M unit :=
  gltfJsonLoader ← gets (λ w, _gltfJsonLoader (loader w));
  match gltfJsonLoader with
  | Some j => ResourceCache_unload j
  | None => skip
  end;;
  modify (set_loader (with_gltfJsonLoader None));;
  loaders ← gets (λ w, _loaders (loader w));
  forEach loaders (λ r, modify (log_call (LoaderUnload r)));;
  modify (set_loader (with_loaders [])).

(** Modelled from the spec: [ResourceLoader.prototype.getError], which the
    sources do not include: the error surfaced to the caller is a top-level
    error with the given message that wraps the originating cause. *)
Definition getError (errorMessage : string) (error : Error) : Error :=
  ErrorCaused errorMessage error.

Definition handleError (error : Error) : M unit :=
  unload;;
  modify (set_loader (with_state FAILED));;
  let errorMessage := "Failed to load glTF" in
  let error := getError errorMessage error in
  promise_reject error.

(** Modelled from the spec: [ResourceLoader.prototype.destroy], which the
    sources do not include: destroying the loader tears the graph down, as
    [unload] does, and from then on [isDestroyed()] answers true. *)
Definition destroy : M unit :=
  unload;;
  modify (set_loader with_destroyed).

(** ** getAccessorTypedArray *)

(** [ComponentDatatype.createTypedArray(componentType, length)]: zero-filled. *)
Definition createTypedArray (componentType : Z) (length : nat) : list float :=
  replicate length 0%float.

(** [array[i * componentStride + j]] with [componentStride = byteStride /
    componentByteLength]: an index that is no whole number reads [undefined]. *)
Definition strided_read (array : list float) (i : nat) (byteStride componentByteLength : Z)
    (j : nat) : option float :=
  if decide ((Z.of_nat i * byteStride) mod componentByteLength = 0)%Z
  then
    let index := ((Z.of_nat i * byteStride) / componentByteLength + Z.of_nat j)%Z in
    if decide (0 ≤ index)%Z then array !! Z.to_nat index else None
  else None.

(** Storing into a typed array: [undefined] becomes NaN in a float array
    (FLOAT is 5126, DOUBLE 5130) and 0 in an integer array. *)
Definition stored_element (componentType : Z) (v : option float) : float :=
  match v with
  | Some x => x
  | None =>
      if decide (componentType = 5126 ∨ componentType = 5130)%Z
      then nan else 0%float
  end.

(** [ComponentDatatype.createArrayBufferView(componentType, buffer, byteOffset,
    length)], which the sources do not include: it returns
    [new T(buffer, byteOffset, length)] for the typed array class [T] of the
    component type. That constructor throws a RangeError when the offset is
    negative or no multiple of the element size, and when the buffer is too
    short to hold [length] elements from the offset on; else the view has
    [length] elements, read from the buffer one element size apart. *)
Definition createArrayBufferView (componentType : Z) (buffer : list Z)
    (byteOffset length : Z) : M (list float) :=
  let elementSize := getSizeInBytes componentType in
  if decide (0 ≤ byteOffset ∧ byteOffset `mod` elementSize = 0 ∧ 0 ≤ length
             ∧ byteOffset + length * elementSize ≤ Z.of_nat (List.length buffer))%Z
  then
    mret ((λ i, readComponent componentType buffer
                  (byteOffset + Z.of_nat i * elementSize)%Z)
            <$> seq 0 (Z.to_nat length))
  else throw RangeError.

Definition getAccessorTypedArray (gltf : Gltf) (accessor : GltfAccessor)
    (bufferViewTypedArray : Uint8Array) : M (list float) :=
  let byteOffset := accessor_byteOffset accessor in
  let byteStride := getAccessorByteStride gltf accessor in
  let count := accessor_count accessor in
  let componentCount := numberOfComponentsForType (accessor_type accessor) in
  let componentType := accessor_componentType accessor in
  let componentByteLength := getSizeInBytes componentType in
  let defaultByteStride := (componentByteLength * Z.of_nat componentCount)%Z in
  let componentsLength := count * componentCount in
  (* componentStride * componentsLength, truncated as the view's length is *)
  componentsTypedArray ←
    createArrayBufferView componentType
      (typedArray_buffer bufferViewTypedArray)
      (typedArray_byteOffset bufferViewTypedArray + byteOffset)%Z
      (Z.quot (byteStride * Z.of_nat componentsLength) componentByteLength);
  if decide (byteStride = defaultByteStride) then mret componentsTypedArray
  else
    let accessorTypedArray := createTypedArray componentType componentsLength in
    mret
      (foldl (λ accessorTypedArray i,
         foldl (λ accessorTypedArray j,
           <[i * count + j :=
               stored_element componentType
                 (strided_read componentsTypedArray i byteStride componentByteLength j)]>
             accessorTypedArray)
           accessorTypedArray (seq 0 componentCount))
         accessorTypedArray (seq 0 count)).

(** ** The completion callbacks

    Each is the body of a function passed to [then] or [otherwise]; the
    argument of a [then] callback is the resolved sub-loader, read through
    its [LoaderFields]. *)

(** [load]: [gltfJsonLoader.promise.then(function () {..})]. *)
Definition load_then : M unit :=
  destroyed ← gets (λ w, isDestroyed (loader w));
  if (destroyed : bool) then skip
  else modify (set_loader (with_state PROCESSING)).

(** [load]: [.otherwise(function (error) {..})]. *)
Definition load_otherwise (error : Error) : M unit :=
  destroyed ← gets (λ w, isDestroyed (loader w));
  if (destroyed : bool) then skip
  else handleError error.

(** [loadSkin]: [bufferViewLoader.promise.then(function (bufferViewLoader) {..})]. *)
Definition loadSkin_then (skin : nat) (gltf : Gltf) (accessor : GltfAccessor)
    (jointsLength : nat) (bufferViewLoader : LoaderFields) : M unit :=
  destroyed ← gets (λ w, isDestroyed (loader w));
  if (destroyed : bool) then skip
  else
    bufferViewTypedArray ← js_deref (loader_typedArray bufferViewLoader);
    accessorTypedArray ← getAccessorTypedArray gltf accessor bufferViewTypedArray;
    let inverseBindMatrices :=
      (λ i, unpack TMatrix4 accessorTypedArray (i * 16)) <$> seq 0 jointsLength in
    update_skin skin (set_skin_inverseBindMatrices (Some inverseBindMatrices)).

(** [loadVertexAttribute]: [vertexBufferLoader.promise.then(function (vertexBufferLoader) {..})]. *)
Definition loadVertexAttribute_then (attribute : nat) (draco : option GltfDraco)
    (semantic : string) (vertexBufferLoader : LoaderFields) : M unit :=
  destroyed ← gets (λ w, isDestroyed (loader w));
  if (destroyed : bool) then skip
  else
    update_attribute attribute
      (set_attribute_buffer (loader_vertexBuffer vertexBufferLoader));;
    match draco_attribute draco semantic with
    | Some _ =>
        (* The accessor's byteOffset and byteStride should be ignored for draco. *)
        update_attribute attribute (set_attribute_byteOffset (Some 0%Z));;
        update_attribute attribute (set_attribute_byteStride None);;
        (* Update the attribute with the quantization information *)
        quantization ← js_deref (loader_quantization vertexBufferLoader);
        update_attribute attribute
          (set_attribute_componentDatatype (quantization_componentDatatype quantization));;
        (if quantization_octEncoded quantization
         then update_attribute attribute (set_attribute_type (Some VEC2))
         else skip);;
        update_attribute attribute
          (set_attribute_quantization (loader_quantization vertexBufferLoader))
    | None => skip
    end.

(** [loadInstancedAttribute]: the callback on the vertex buffer loader. *)
Definition loadInstancedAttribute_buffer_then (attribute : nat)
    (vertexBufferLoader : LoaderFields) : M unit :=
  destroyed ← gets (λ w, isDestroyed (loader w));
  if (destroyed : bool) then skip
  else
    update_attribute attribute
      (set_attribute_buffer (loader_vertexBuffer vertexBufferLoader)).

(** [loadInstancedAttribute]: the callback on the buffer view loader. *)
Definition loadInstancedAttribute_typedArray_then (attribute : nat) (gltf : Gltf)
    (accessor : GltfAccessor) (bufferViewLoader : LoaderFields) : M unit :=
  destroyed ← gets (λ w, isDestroyed (loader w));
  if (destroyed : bool) then skip
  else
    bufferViewTypedArray ← js_deref (loader_typedArray bufferViewLoader);
    accessorTypedArray ← getAccessorTypedArray gltf accessor bufferViewTypedArray;
    update_attribute attribute (set_attribute_typedArray (Some accessorTypedArray)).

(** [loadIndices]: [indexBufferLoader.promise.then(function (indexBufferLoader) {..})]. *)
Definition loadIndices_then (indices : nat) (indexBufferLoader : LoaderFields) : M unit :=
  destroyed ← gets (λ w, isDestroyed (loader w));
  if (destroyed : bool) then skip
  else
    update_indices indices (set_indices_buffer (loader_indexBuffer indexBufferLoader)).

(** [loadTexture]: [textureLoader.promise.then(function (textureLoader) {..})]. *)
Definition loadTexture_then (texture : nat) (textureLoader : LoaderFields) : M unit :=
  destroyed ← gets (λ w, isDestroyed (loader w));
  if (destroyed : bool) then skip
  else
    update_texture texture (set_texture_texture (loader_texture textureLoader)).

(** [parse]: [featureMetadataLoader.then(function (featureMetadataLoader) {..})]. *)
Definition parse_featureMetadata_then (components : nat)
    (featureMetadataLoader : LoaderFields) : M unit :=
  destroyed ← gets (λ w, isDestroyed (loader w));
  if (destroyed : bool) then skip
  else
    update_components components
      (set_components_featureMetadata (loader_featureMetadata featureMetadataLoader)).

(** [parse]: [when.all(promises).then(function () {..})]. *)
Definition parse_then : M unit :=
  destroyed ← gets (λ w, isDestroyed (loader w));
  if (destroyed : bool) then skip
  else
    modify (set_loader (with_state READY));;
    promise_resolve.

(** [parse]: [.otherwise(function (error) {..})]. *)
Definition parse_otherwise (error : Error) : M unit :=
  destroyed ← gets (λ w, isDestroyed (loader w));
  if (destroyed : bool) then skip
  else handleError error.

Definition run_continuation (k : Continuation) (resolved : LoaderFields) : M unit :=
  match k with
  | LoadThen => load_then
  | SkinThen skin gltf accessor jointsLength =>
      loadSkin_then skin gltf accessor jointsLength resolved
  | VertexAttributeThen attribute draco semantic =>
      loadVertexAttribute_then attribute draco semantic resolved
  | InstancedBufferThen attribute => loadInstancedAttribute_buffer_then attribute resolved
  | InstancedTypedArrayThen attribute gltf accessor =>
      loadInstancedAttribute_typedArray_then attribute gltf accessor resolved
  | IndicesThen indices => loadIndices_then indices resolved
  | TextureThen texture => loadTexture_then texture resolved
  | FeatureMetadataThen components => parse_featureMetadata_then components resolved
  | ParseThen => parse_then
  end.

Definition run_handler (h : Handler) (error : Error) : M unit :=
  match h with
  | LoadOtherwise => load_otherwise error
  | ParseOtherwise => parse_otherwise error
  end.

(** ** Promises

    Callbacks registered on a pending promise wait in registration order; on
    a promise that has already settled they run at once. *)

Definition invoke_fulfilled (cb : Callback) (resolved : LoaderFields) : M unit := λ w,
  match run_continuation (callback_then cb) resolved w with
  | (Ok _, w') => (Ok tt, w')
  | (Throw e, w') =>
      match callback_otherwise cb with
      | Some h => swallow (run_handler h e) w'
      | None => (Ok tt, w')
      end
  end.

Definition invoke_rejected (cb : Callback) (error : Error) : M unit :=
  match callback_otherwise cb with
  | Some h => swallow (run_handler h error)
  | None => skip
  end.

(** [loader.promise.then(onFulfilled)] and
    [loader.promise.then(onFulfilled).otherwise(onRejected)]. *)
Definition promise_then (r : nat) (onFulfilled : Continuation)
    (onRejected : option Handler) : M unit :=
  let cb := {| callback_then := onFulfilled; callback_otherwise := onRejected |} in
  s ← gets (λ w, subs w !! r);
  match s with
  | None => throw TypeError
  | Some s =>
      match sub_promise s with
      | Pending =>
          modify (set_subs (alter (λ s, set_sub_callbacks (sub_callbacks s ++ [cb]) s) r))
      | Resolved => invoke_fulfilled cb (sub_fields s)
      | Rejected e => invoke_rejected cb e
      end
  end.

(** [loader.then(onFulfilled)], called on the loader object itself: a
    TypeError unless the loader's class has a [then] of its own, which is then
    taken to be that of its promise. *)
Definition loader_then (r : nat) (onFulfilled : Continuation) : M unit :=
  hasThen ← gets metadataLoaderHasThen;
  if (hasThen : bool) then promise_then r onFulfilled None
  else throw TypeError.

(** How [when.all] over the promises of these loaders stands: rejected with
    the reason of the first rejected one, resolved when all are, else pending. *)
Fixpoint all_settlement (subs : list SubLoader) (promises : list nat) : PromiseState :=
  match promises with
  | [] => Resolved
  | r :: rest =>
      match sub_promise <$> subs !! r with
      | Some (Rejected e) => Rejected e
      | Some Resolved => all_settlement subs rest
      | _ =>
          match all_settlement subs rest with
          | Rejected e => Rejected e
          | _ => Pending
          end
      end
  end.

Definition parse_callback : Callback :=
  {| callback_then := ParseThen; callback_otherwise := Some ParseOtherwise |}.

(** The aggregate settles as soon as its promises allow, once. *)
Definition aggregate_progress : M unit := λ w,
  match aggregate w with
  | Some a =>
      match all_state a with
      | Pending =>
          match all_settlement (subs w) (all_promises a) with
          | Pending => (Ok tt, w)
          | Resolved =>
              invoke_fulfilled parse_callback no_fields
                (set_aggregate
                   (Some {| all_promises := all_promises a; all_state := Resolved |}) w)
          | Rejected e =>
              invoke_rejected parse_callback e
                (set_aggregate
                   (Some {| all_promises := all_promises a; all_state := Rejected e |}) w)
          end
      | _ => (Ok tt, w)
      end
  | None => (Ok tt, w)
  end.

(** [when.all(promises).then(..).otherwise(..)]. *)
Definition when_all (promises : list nat) : M unit :=
  modify (set_aggregate (Some {| all_promises := promises; all_state := Pending |}));;
  aggregate_progress.

(** ** Spawning sub-loaders *)

Definition push_loader (r : nat) : M unit :=
  modify (set_loader (λ l, with_loaders (_loaders l ++ [r]) l)).

Definition loadVertexBuffer (gltf : Gltf) (accessorId : nat) (semantic : string)
    (draco : option GltfDraco) : M nat :=
  accessor ← js_deref (gltf_accessors gltf !! accessorId);
  let bufferViewId := accessor_bufferView accessor in
  vertexBufferLoader ← ResourceCache_loadVertexBuffer bufferViewId draco semantic;
  push_loader vertexBufferLoader;;
  mret vertexBufferLoader.

Definition loadIndexBuffer (gltf : Gltf) (accessorId : nat) (draco : option GltfDraco)
    : M (option nat) :=
  accessor ← js_deref (gltf_accessors gltf !! accessorId);
  let bufferViewId := accessor_bufferView accessor in
  match draco, bufferViewId with
  | None, None => mret None
  | _, _ =>
      indexBufferLoader ← ResourceCache_loadIndexBuffer accessorId draco;
      push_loader indexBufferLoader;;
      mret (Some indexBufferLoader)
  end.

Definition loadBufferView (gltf : Gltf) (bufferViewId : nat) : M nat :=
  bufferViewLoader ← ResourceCache_loadBufferView bufferViewId;
  push_loader bufferViewLoader;;
  mret bufferViewLoader.

(** ** Skins *)

(** [nodes[id]] as a reference into the node table. *)
Definition node_ref (nodes : list Node) (id : nat) : option nat :=
  (λ _, id) <$> nodes !! id.

Definition read_skin_inverseBindMatrices (skin : nat) : M (option (list MathValue)) :=
  gets (λ w,
    match heap_skins (heap w) !! skin with
    | Some s => skin_inverseBindMatrices s
    | None => None
    end).

(** [gltf.accessors[value]] where the value is an array of matrices: no
    element of the array has such an index. *)
Definition accessors_at (gltf : Gltf) (value : list MathValue) : option GltfAccessor := None.

Definition loadSkin (gltf : Gltf) (gltfSkin : GltfSkin) (nodes : list Node)
    : M (option nat) :=
  skin ← alloc_skin new_Skin;
  let jointIds := gskin_joints gltfSkin in
  let jointsLength := length jointIds in
  let joints := node_ref nodes <$> jointIds in
  update_skin skin (set_skin_joints (Some joints));;
  (* var inverseBindMatricesAccessorId = skin.inverseBindMatrices; *)
  inverseBindMatricesAccessorId ← read_skin_inverseBindMatrices skin;
  match inverseBindMatricesAccessorId with
  | Some inverseBindMatricesAccessorId =>
      accessor ← js_deref (accessors_at gltf inverseBindMatricesAccessorId);
      match accessor_bufferView accessor with
      | Some bufferViewId =>
          bufferViewLoader ← loadBufferView gltf bufferViewId;
          promise_then bufferViewLoader (SkinThen skin gltf accessor jointsLength) None
      | None => skip
      end
  | None =>
      update_skin skin
        (set_skin_inverseBindMatrices (Some (replicate jointsLength Matrix4_IDENTITY)))
  end;;
  (* the function ends without a return statement *)
  mret None.

(** ** Attributes *)

Definition getMathType (type : AttributeType) : MathType :=
  match type with
  | SCALAR => TNumber
  | VEC2 => TCartesian2
  | VEC3 => TCartesian3
  | VEC4 => TCartesian4
  | MAT2 => TMatrix2
  | MAT3 => TMatrix3
  | MAT4 => TMatrix4
  end.

Definition fromArray (MathType : MathType) (values : option (list float))
    : option MathValue :=
  match values with
  | None => None
  | Some values =>
      if decide (MathType = TNumber) then Some (MArray values)
      else Some (unpack MathType values 0)
  end.

Definition getDefault (MathType : MathType) : MathValue :=
  if decide (MathType = TNumber) then MNumber 0%float
  else math_new MathType.

Definition createAttribute (gltf : Gltf) (accessorId : nat) (semantic : string) : M nat :=
  accessor ← js_deref (gltf_accessors gltf !! accessorId);
  let MathType := getMathType (accessor_type accessor) in
  alloc_attribute
    {| attribute_semantic := Some semantic;
       attribute_constant := Some (getDefault MathType);
       attribute_componentDatatype := Some (accessor_componentType accessor);
       attribute_normalized := accessor_normalized accessor;
       attribute_count := Some (accessor_count accessor);
       attribute_type := Some (accessor_type accessor);
       attribute_min := fromArray MathType (accessor_min accessor);
       attribute_max := fromArray MathType (accessor_max accessor);
       attribute_byteOffset := Some (accessor_byteOffset accessor);
       attribute_byteStride := Some (getAccessorByteStride gltf accessor);
       attribute_quantization := None;
       attribute_buffer := None;
       attribute_typedArray := None |}.

Definition loadVertexAttribute (gltf : Gltf) (accessorId : nat) (semantic : string)
    (draco : option GltfDraco) : M nat :=
  accessor ← js_deref (gltf_accessors gltf !! accessorId);
  let bufferViewId := accessor_bufferView accessor in
  attribute ← createAttribute gltf accessorId semantic;
  match draco, bufferViewId with
  | None, None => mret attribute
  | _, _ =>
      vertexBufferLoader ← loadVertexBuffer gltf accessorId semantic draco;
      promise_then vertexBufferLoader (VertexAttributeThen attribute draco semantic) None;;
      mret attribute
  end.

Definition loadInstancedAttribute (gltf : Gltf) (accessorId : nat) (semantic : string)
    (frameState : FrameState) : M nat :=
  accessor ← js_deref (gltf_accessors gltf !! accessorId);
  let bufferViewId := accessor_bufferView accessor in
  attribute ← createAttribute gltf accessorId semantic;
  match bufferViewId with
  | None => mret attribute
  | Some bufferViewId =>
      if context_instancedArrays frameState
      then
        (* Only create a GPU buffer if the browser supports WebGL instancing *)
        vertexBufferLoader ← loadVertexBuffer gltf accessorId semantic None;
        promise_then vertexBufferLoader (InstancedBufferThen attribute) None;;
        mret attribute
      else
        bufferViewLoader ← loadBufferView gltf bufferViewId;
        promise_then bufferViewLoader
          (InstancedTypedArrayThen attribute gltf accessor) None;;
        mret attribute
  end.

Definition loadIndices (gltf : Gltf) (accessorId : nat) (draco : option GltfDraco)
    : M (option nat) :=
  accessor ← js_deref (gltf_accessors gltf !! accessorId);
  let bufferViewId := accessor_bufferView accessor in
  match draco, bufferViewId with
  | None, None => mret None
  | _, _ =>
      indices ← alloc_indices
        {| indices_indexDatatype := Some (accessor_componentType accessor);
           indices_count := Some (accessor_count accessor);
           indices_buffer := None |};
      indexBufferLoader ← loadIndexBuffer gltf accessorId draco;
      indexBufferLoader ← js_deref indexBufferLoader;
      promise_then indexBufferLoader (IndicesThen indices) None;;
      mret (Some indices)
  end.

(** ** Textures and materials *)

Definition loadTexture (gltf : Gltf) (textureInfo : GltfTextureInfo)
    (supportedImageFormats : SupportedImageFormats) : M (option nat) :=
  let imageId :=
    getImageIdFromTexture gltf (textureInfo_index textureInfo) supportedImageFormats in
  match imageId with
  | None => mret None
  | Some _ =>
      textureLoader ← ResourceCache_loadTexture textureInfo supportedImageFormats;
      push_loader textureLoader;;
      texture ← alloc_texture
        {| texture_texCoord := textureInfo_texCoord textureInfo;
           texture_sampler := Some (createSampler gltf textureInfo);
           texture_texture := None |};
      promise_then textureLoader (TextureThen texture) None;;
      mret (Some texture)
  end.

(** A texture slot of the output material read as a [textureInfo]: the
    [Texture] object it refers to has a [texCoord] and no [index]. *)
Definition slot_as_textureInfo (texture : nat) : M GltfTextureInfo :=
  gets (λ w,
    {| textureInfo_index := None;
       textureInfo_texCoord :=
         match heap_textures (heap w) !! texture with
         | Some t => texture_texCoord t
         | None => None
         end |}).

(** [if (defined(info)) { slot = loadTexture(loader, gltf, info, ..) }]:
    the value to assign, or the slot as it was. *)
Definition loadTexture_if_defined (gltf : Gltf) (info : option GltfTextureInfo)
    (supportedImageFormats : SupportedImageFormats) (slot : option nat) : M (option nat) :=
  match info with
  | Some info => loadTexture gltf info supportedImageFormats
  | None => mret slot
  end.

(** The same statement when the tested value is a slot of the output
    material itself. *)
Definition reloadTexture_if_defined (gltf : Gltf) (slot : option nat)
    (supportedImageFormats : SupportedImageFormats) : M (option nat) :=
  match slot with
  | Some texture =>
      info ← slot_as_textureInfo texture;
      loadTexture gltf info supportedImageFormats
  | None => mret slot
  end.

Definition loadMaterial (gltf : Gltf) (gltfMaterial : GltfMaterial)
    (supportedImageFormats : SupportedImageFormats) : M Material :=
  let material := new_Material in
  (* Metallic roughness *)
  let pbrMetallicRoughness := gmaterial_pbrMetallicRoughness gltfMaterial in
  material ←
    match pbrMetallicRoughness with
    | Some pbrMetallicRoughness =>
        let metallicRoughness := new_MetallicRoughness in
        baseColorTexture ←
          loadTexture_if_defined gltf (mr_baseColorTexture pbrMetallicRoughness)
            supportedImageFormats (metallicRoughness_baseColorTexture metallicRoughness);
        let metallicRoughness :=
          set_metallicRoughness_baseColorTexture baseColorTexture metallicRoughness in
        metallicRoughnessTexture ←
          loadTexture_if_defined gltf (mr_metallicRoughnessTexture pbrMetallicRoughness)
            supportedImageFormats
            (metallicRoughness_metallicRoughnessTexture metallicRoughness);
        let metallicRoughness :=
          set_metallicRoughness_metallicRoughnessTexture metallicRoughnessTexture
            metallicRoughness in
        let metallicRoughness :=
          set_metallicRoughness_baseColorFactor
            (fromArray TCartesian4 (mr_baseColorFactor pbrMetallicRoughness))
            metallicRoughness in
        let metallicRoughness :=
          set_metallicRoughness_metallicFactor (mr_metallicFactor pbrMetallicRoughness)
            metallicRoughness in
        let metallicRoughness :=
          set_metallicRoughness_roughnessFactor (mr_roughnessFactor pbrMetallicRoughness)
            metallicRoughness in
        mret (set_material_metallicRoughness (Some metallicRoughness) material)
    | None => mret material
    end;
  (* if (defined(material.extensions)): the output material, not gltfMaterial *)
  material ←
    match Material_extensions material with
    | Some extensions =>
        (* Spec gloss extension *)
        match KHR_materials_pbrSpecularGlossiness extensions with
        | Some pbrSpecularGlossiness =>
            let specularGlossiness := new_SpecularGlossiness in
            diffuseTexture ←
              loadTexture_if_defined gltf (sg_diffuseTexture pbrSpecularGlossiness)
                supportedImageFormats
                (specularGlossiness_diffuseTexture specularGlossiness);
            let specularGlossiness :=
              set_specularGlossiness_diffuseTexture diffuseTexture specularGlossiness in
            specularGlossinessTexture ←
              loadTexture_if_defined gltf
                (sg_specularGlossinessTexture pbrSpecularGlossiness)
                supportedImageFormats
                (specularGlossiness_specularGlossinessTexture specularGlossiness);
            let specularGlossiness :=
              set_specularGlossiness_specularGlossinessTexture specularGlossinessTexture
                specularGlossiness in
            let specularGlossiness :=
              set_specularGlossiness_diffuseFactor
                (fromArray TCartesian4 (sg_diffuseFactor pbrSpecularGlossiness))
                specularGlossiness in
            let specularGlossiness :=
              set_specularGlossiness_specularFactor
                (fromArray TCartesian3 (sg_specularFactor pbrSpecularGlossiness))
                specularGlossiness in
            let specularGlossiness :=
              set_specularGlossiness_glossinessFactor
                (sg_glossinessFactor pbrSpecularGlossiness) specularGlossiness in
            mret (set_material_specularGlossiness (Some specularGlossiness) material)
        | None => mret material
        end
    | None => mret material
    end;
  (* Top level textures: again tested on the output material *)
  emissiveTexture ←
    reloadTexture_if_defined gltf (material_emissiveTexture material)
      supportedImageFormats;
  let material := set_material_emissiveTexture emissiveTexture material in
  normalTexture ←
    reloadTexture_if_defined gltf (material_normalTexture material) supportedImageFormats;
  let material := set_material_normalTexture normalTexture material in
  occlusionTexture ←
    reloadTexture_if_defined gltf (material_occlusionTexture material)
      supportedImageFormats;
  let material := set_material_occlusionTexture occlusionTexture material in
  let material :=
    set_material_emissiveFactor
      (fromArray TCartesian3 (gmaterial_emissiveFactor gltfMaterial)) material in
  let material := set_material_alphaMode (gmaterial_alphaMode gltfMaterial) material in
  let material := set_material_alphaCutoff (gmaterial_alphaCutoff gltfMaterial) material in
  let material := set_material_doubleSided (gmaterial_doubleSided gltfMaterial) material in
  mret material.

(** ** Feature ids *)

Definition loadFeatureIdAttribute (gltfFeatureIdAttribute : option GltfFeatureId)
    : M FeatureIdAttribute :=
  let featureIdAttribute := new_FeatureIdAttribute in
  gltfFeatureIdAttribute ← js_deref gltfFeatureIdAttribute;
  let featureIds := featureId_featureIds gltfFeatureIdAttribute in
  let featureIdAttribute :=
    set_featureIdAttribute_featureTableId
      (featureId_featureTable gltfFeatureIdAttribute) featureIdAttribute in
  featureIds ← js_deref featureIds;
  let featureIdAttribute :=
    set_featureIdAttribute_semantic (featureIds_attribute featureIds)
      featureIdAttribute in
  let featureIdAttribute :=
    set_featureIdAttribute_constant (featureIds_constant featureIds)
      featureIdAttribute in
  let featureIdAttribute :=
    set_featureIdAttribute_divisor (featureIds_divisor featureIds) featureIdAttribute in
  mret featureIdAttribute.

Definition loadFeatureIdTexture (gltf : Gltf) (gltfFeatureIdTexture : GltfFeatureId)
    (supportedImageFormats : SupportedImageFormats) : M FeatureIdTexture :=
  let featureIdTexture := new_FeatureIdTexture in
  let featureIds := featureId_featureIds gltfFeatureIdTexture in
  featureIds ← js_deref featureIds;
  let textureInfo := featureIds_texture featureIds in
  let featureIdTexture :=
    set_featureIdTexture_featureTableId (featureId_featureTable gltfFeatureIdTexture)
      featureIdTexture in
  let featureIdTexture :=
    set_featureIdTexture_channel (featureIds_channels featureIds) featureIdTexture in
  textureInfo ← js_deref textureInfo;
  texture ← loadTexture gltf textureInfo supportedImageFormats;
  let featureIdTexture := set_featureIdTexture_texture texture featureIdTexture in
  (* Feature ID textures require nearest sampling *)
  texture ← js_deref texture;
  update_texture texture (set_texture_sampler (Some Sampler_NEAREST));;
  mret featureIdTexture.

(** The loop over [featureIdAttributes] of [loadPrimitive] and
    [loadInstances]: [var featureIdAttributesLength = featureIdAttributesLength;]
    reads the variable it declares, which is still [undefined]. *)
Definition loadFeatureIdAttributes (featureIdAttributes : list GltfFeatureId)
    : M (list FeatureIdAttribute) :=
  let featureIdAttributesLength : option nat := None in
  forEachCollect (loop_rounds featureIdAttributesLength)
    (λ i, loadFeatureIdAttribute (featureIdAttributes !! i)).

(** ** Primitives *)

Definition loadMorphTarget (gltf : Gltf) (target : list (string * nat)) : M MorphTarget :=
  let morphTarget := new_MorphTarget in
  attributes ← forEachCollect target (λ '(semantic, accessorId),
    (* Don't pass in draco object since morph targets can't be draco compressed *)
    loadVertexAttribute gltf accessorId semantic None);
  mret {| morphTarget_attributes := morphTarget_attributes morphTarget ++ attributes |}.

Definition loadPrimitive (gltf : Gltf) (gltfPrimitive : GltfPrimitive)
    (morphWeights : option (list float)) (supportedImageFormats : SupportedImageFormats)
    : M Primitive :=
  let primitive := new_Primitive in
  let materialId := gprimitive_material gltfPrimitive in
  primitive ←
    match materialId with
    | Some materialId =>
        gltfMaterial ← js_deref (gltf_materials gltf !! materialId);
        material ← loadMaterial gltf gltfMaterial supportedImageFormats;
        mret (set_primitive_material (Some material) primitive)
    | None => mret primitive
    end;
  let extensions := gprimitive_extensions gltfPrimitive in
  let draco :=
    match extensions with
    | Some e => KHR_draco_mesh_compression e
    | None => None
    end in
  let featureMetadata :=
    match extensions with
    | Some e => primitive_EXT_feature_metadata e
    | None => None
    end in
  let attributes := gprimitive_attributes gltfPrimitive in
  primitive ←
    match attributes with
    | Some attributes =>
        loaded ← forEachCollect attributes (λ '(semantic, accessorId),
          loadVertexAttribute gltf accessorId semantic draco);
        mret (set_primitive_attributes (primitive_attributes primitive ++ loaded) primitive)
    | None => mret primitive
    end;
  let targets := gprimitive_targets gltfPrimitive in
  primitive ←
    match targets with
    | Some targets =>
        let targetsLength := length targets in
        loaded ← forEachCollect targets (loadMorphTarget gltf);
        let primitive :=
          set_primitive_morphTargets (primitive_morphTargets primitive ++ loaded)
            primitive in
        mret (set_primitive_morphWeights
                match morphWeights with
                | Some morphWeights => slice morphWeights
                | None => replicate targetsLength 0%float
                end primitive)
    | None => mret primitive
    end;
  let indices := gprimitive_indices gltfPrimitive in
  primitive ←
    match indices with
    | Some indices =>
        loaded ← loadIndices gltf indices draco;
        mret (set_primitive_indices loaded primitive)
    | None => mret primitive
    end;
  primitive ←
    match featureMetadata with
    | Some featureMetadata =>
        (* Feature ID Attributes *)
        let featureIdAttributes := fm_featureIdAttributes featureMetadata in
        primitive ←
          match featureIdAttributes with
          | Some featureIdAttributes =>
              loaded ← loadFeatureIdAttributes featureIdAttributes;
              mret (set_primitive_featureIdAttributes
                      (primitive_featureIdAttributes primitive ++ loaded) primitive)
          | None => mret primitive
          end;
        (* Feature ID Textures *)
        let featureIdTextures := fm_featureIdTextures featureMetadata in
        primitive ←
          match featureIdTextures with
          | Some featureIdTextures =>
              loaded ← forEachCollect featureIdTextures (λ gltfFeatureIdTexture,
                loadFeatureIdTexture gltf gltfFeatureIdTexture supportedImageFormats);
              mret (set_primitive_featureIdTextures
                      (primitive_featureIdTextures primitive ++ loaded) primitive)
          | None => mret primitive
          end;
        (* Feature Textures *)
        mret (set_primitive_featureTexturesIds (fm_featureTextures featureMetadata)
                primitive)
    | None => mret primitive
    end;
  mret (set_primitive_primitiveType (gprimitive_mode gltfPrimitive) primitive).

Definition loadInstances (gltf : Gltf) (instancingExtension : GltfInstancing)
    (frameState : FrameState) : M Instances :=
  let instances := new_Instances in
  let attributes := instancing_attributes instancingExtension in
  instances ←
    match attributes with
    | Some attributes =>
        loaded ← forEachCollect attributes (λ '(semantic, accessorId),
          loadInstancedAttribute gltf accessorId semantic frameState);
        mret (set_instances_attributes (instances_attributes instances ++ loaded)
                instances)
    | None => mret instances
    end;
  let extensions := instancing_extensions instancingExtension in
  let featureMetadata :=
    match extensions with
    | Some e => instancing_EXT_feature_metadata e
    | None => None
    end in
  match featureMetadata with
  | Some featureMetadata =>
      let featureIdAttributes := fm_featureIdAttributes featureMetadata in
      match featureIdAttributes with
      | Some featureIdAttributes =>
          loaded ← loadFeatureIdAttributes featureIdAttributes;
          mret (set_instances_featureIdAttributes
                  (instances_featureIdAttributes instances ++ loaded) instances)
      | None => mret instances
      end
  | None => mret instances
  end.

(** ** Nodes and the scene *)

Definition loadNode (gltf : Gltf) (gltfNode : GltfNode)
    (supportedImageFormats : SupportedImageFormats) (frameState : FrameState) : M Node :=
  let node := new_Node in
  let node := set_node_matrix (fromArray TMatrix4 (gnode_matrix gltfNode)) node in
  let node :=
    set_node_translation (fromArray TCartesian3 (gnode_translation gltfNode)) node in
  let node := set_node_rotation (fromArray TQuaternion (gnode_rotation gltfNode)) node in
  let node := set_node_scale (fromArray TCartesian3 (gnode_scale gltfNode)) node in
  let meshId := gnode_mesh gltfNode in
  node ←
    match meshId with
    | Some meshId =>
        mesh ← js_deref (gltf_meshes gltf !! meshId);
        let morphWeights := defaultValue (gnode_weights gltfNode) (mesh_weights mesh) in
        let primitives := mesh_primitives mesh in
        loaded ← forEachCollect primitives (λ gltfPrimitive,
          loadPrimitive gltf gltfPrimitive morphWeights supportedImageFormats);
        mret (set_node_primitives (node_primitives node ++ loaded) node)
    | None => mret node
    end;
  (* defaultValue(node.extensions, defaultValue.EMPTY_OBJECT): the output node *)
  let extensions := Node_extensions node in
  let instancingExtension :=
    match extensions with
    | Some e => EXT_mesh_gpu_instancing e
    | None => None
    end in
  match instancingExtension with
  | Some instancingExtension =>
      instances ← loadInstances gltf instancingExtension frameState;
      mret (set_node_instances (Some instances) node)
  | None => mret node
  end.

Definition loadNodes (gltf : Gltf) (supportedImageFormats : SupportedImageFormats)
    (frameState : FrameState) : M (list Node) :=
  gltfNodes ← js_deref (gltf_nodes gltf);
  nodes ← forEachCollect gltfNodes (λ gltfNode,
    loadNode gltf gltfNode supportedImageFormats frameState);
  let nodes :=
    zip_with (λ node gltfNode,
      match gnode_children gltfNode with
      | Some childrenNodeIds =>
          set_node_children (node_children node ++ (node_ref nodes <$> childrenNodeIds))
            node
      | None => node
      end) nodes gltfNodes in
  forEachCollect (zip nodes gltfNodes) (λ '(node, gltfNode),
    let skinId := gnode_skin gltfNode in
    match skinId with
    | Some skinId =>
        gltfSkin ← js_deref (gltf_skins gltf !! skinId);
        (* nodes[i].skin = loadSkin(loader, gltf, gltf.skins[skinId], nodes); *)
        skin ← loadSkin gltf gltfSkin nodes;
        mret (set_node_skin skin node)
    | None => mret node
    end).

Definition loadFeatureMetadata (gltf : Gltf) (extension : nat)
    (supportedImageFormats : SupportedImageFormats) : M nat :=
  l ← gets loader;
  featureMetadataLoader ←
    new_loader (FeatureMetadataKey (_gltfResource l) (_baseResource l) extension);
  modify (log_call (LoaderLoad featureMetadataLoader));;
  push_loader featureMetadataLoader;;
  mret featureMetadataLoader.

(** What [getSceneNodeIds] returns: the scene's node ids, or, by its
    fallback, the node objects of [gltf.nodes] themselves. *)
Inductive SceneNodeId : Type :=
| NodeIndex (id : nat)
| NodeObject (node : GltfNode).

Definition getSceneNodeIds (gltf : Gltf) : M (list SceneNodeId) :=
  nodesIds ←
    match gltf_scenes gltf, gltf_scene gltf with
    | Some scenes, Some scene =>
        scene ← js_deref (scenes !! scene);
        mret (fmap (M := list) NodeIndex <$> gscene_nodes scene)
    | _, _ => mret None
    end;
  let nodesIds := defaultValue nodesIds (fmap (M := list) NodeObject <$> gltf_nodes gltf) in
  let nodesIds :=
    match nodesIds with
    | Some nodesIds => nodesIds
    | None => []
    end in
  mret nodesIds.

Definition loadScene (gltf : Gltf) (nodes : list Node) : M Scene :=
  let scene := new_Scene in
  sceneNodeIds ← getSceneNodeIds gltf;
  mret {| scene_nodes :=
            (λ sceneNodeId,
               match sceneNodeId with
               | NodeIndex id => node_ref nodes id
               | NodeObject _ => None
               end) <$> sceneNodeIds |}.

(** ** parse, process, load *)

Definition parse (gltf : Gltf) (supportedImageFormats : SupportedImageFormats)
    (frameState : FrameState) : M unit :=
  nodes ← loadNodes gltf supportedImageFormats frameState;
  scene ← loadScene gltf nodes;
  components ← alloc_components new_Components;
  update_components components (set_components_scene (Some scene));;
  update_components components (set_components_nodes (Some nodes));;
  modify (set_loader (with_components (Some components)));;
  (* Load feature metadata (feature tables and feature textures) *)
  let extensions := gltf_extensions gltf in
  let featureMetadataExtension :=
    match extensions with
    | Some e => gltf_EXT_feature_metadata e
    | None => None
    end in
  match featureMetadataExtension with
  | Some featureMetadataExtension =>
      featureMetadataLoader ←
        loadFeatureMetadata gltf featureMetadataExtension supportedImageFormats;
      loader_then featureMetadataLoader (FeatureMetadataThen components)
  | None => skip
  end;;
  (* Gather promises and reject if any promises fail *)
  promises ← gets (λ w, _loaders (loader w));
  when_all promises.

Definition process (frameState : FrameState) : M unit :=
  state ← gets (λ w, _state (loader w));
  if decide (state ≠ PROCESSING) then skip
  else
    webp ← gets supportsWebP;
    match webp with
    | None =>
        (* FeatureDetection.supportsWebP.initialize(); return; *)
        modify (log_call WebPInitialize)
    | Some webp =>
        gltfJsonLoader ← gets (λ w, _gltfJsonLoader (loader w));
        match gltfJsonLoader with
        | Some gltfJsonLoader =>
            (* Parse the glTF *)
            let supportedImageFormats :=
              {| supported_webp := webp;
                 supported_s3tc := context_s3tc frameState;
                 supported_pvrtc := context_pvrtc frameState;
                 supported_etc1 := context_etc1 frameState |} in
            gltf ← gets (λ w,
              match subs w !! gltfJsonLoader with
              | Some s => loader_gltf (sub_fields s)
              | None => None
              end);
            gltf ← js_deref gltf;
            parse gltf supportedImageFormats frameState;;
            ResourceCache_unload gltfJsonLoader;;
            modify (set_loader (with_gltfJsonLoader None))
        | None => skip
        end;;
        loaders ← gets (λ w, _loaders (loader w));
        forEach loaders (λ r, modify (log_call (LoaderProcess r frameState)))
    end.

Definition load : M unit :=
  gltfJsonLoader ← ResourceCache_loadGltf;
  modify (set_loader (with_gltfJsonLoader (Some gltfJsonLoader)));;
  modify (set_loader (with_state LOADING));;
  promise_then gltfJsonLoader LoadThen (Some LoadOtherwise).

(** ** What the caller and the environment do *)

(** A sub-loader's promise resolves: its callbacks run in the order they
    were registered, then the aggregate is told. *)
Definition resolve_loader (r : nat) (fields : LoaderFields) : M unit :=
  s ← gets (λ w, subs w !! r);
  match s with
  | Some s =>
      match sub_promise s with
      | Pending =>
          modify (set_subs (alter (λ s,
            set_sub_callbacks []
              (set_sub_fields fields (set_sub_promise Resolved s))) r));;
          forEach (sub_callbacks s) (λ cb, invoke_fulfilled cb fields);;
          aggregate_progress
      | _ => skip
      end
  | None => skip
  end.

(** A sub-loader's promise rejects. *)
Definition reject_loader (r : nat) (error : Error) : M unit :=
  s ← gets (λ w, subs w !! r);
  match s with
  | Some s =>
      match sub_promise s with
      | Pending =>
          modify (set_subs (alter (λ s,
            set_sub_callbacks [] (set_sub_promise (Rejected error) s)) r));;
          forEach (sub_callbacks s) (λ cb, invoke_rejected cb error);;
          aggregate_progress
      | _ => skip
      end
  | None => skip
  end.

Inductive Event : Type :=
| CallProcess (frameState : FrameState)
| CallUnload
| CallDestroy
| WebPInitialized (supported : bool)
| LoaderResolves (r : nat) (fields : LoaderFields)
| LoaderRejects (r : nat) (error : Error).

(** One step of a run; an exception thrown by a call reaches the caller and
    leaves the world as it was when thrown. *)
Definition step (w : World) (ev : Event) : World :=
  match ev with
  | CallProcess frameState => (process frameState w).2
  | CallUnload => (unload w).2
  | CallDestroy => (destroy w).2
  | WebPInitialized supported =>
      match supportsWebP w with
      | None => set_supportsWebP (Some supported) w
      | Some _ => w
      end
  | LoaderResolves r fields => (resolve_loader r fields w).2
  | LoaderRejects r error => (reject_loader r error w).2
  end.

Definition run (w : World) (events : list Event) : World := foldl step w events.

(** The world in which a loader is constructed: nothing loaded or cached yet. *)
Definition new_world (options : GltfLoaderOptions) (webp : option bool)
    (hasThen : bool) : World :=
  {| loader := GltfLoader_new options;
     heap := {| heap_attributes := []; heap_indices := []; heap_textures := [];
                heap_skins := []; heap_components := [] |};
     subs := [];
     cache := [];
     aggregate := None;
     supportsWebP := webp;
     metadataLoaderHasThen := hasThen;
     calls := [] |}.

(** [new GltfLoader(options)] followed by [load()]. *)
Definition loading (options : GltfLoaderOptions) (webp : option bool)
    (hasThen : bool) : World :=
  (load (new_world options webp hasThen)).2.

End GltfLoader.

(** ** Sample documents

    Concrete inputs on which the model is run. *)

Definition sample_options : GltfLoaderOptions :=
  {| options_gltfResource := "model.gltf"; options_baseResource := None;
     options_typedArray := None; options_keepResident := None;
     options_asynchronous := None; options_incrementallyLoadTextures := None |}.

Definition sample_frameState : FrameState :=
  {| context_s3tc := false; context_pvrtc := false; context_etc1 := false;
     context_instancedArrays := true |}.

Definition sample_supportedImageFormats : SupportedImageFormats :=
  {| supported_webp := true; supported_s3tc := false; supported_pvrtc := false;
     supported_etc1 := false |}.

Definition sample_accessor (bufferView : option nat) (byteOffset : Z)
    (type : AttributeType) : GltfAccessor :=
  {| accessor_bufferView := bufferView; accessor_byteOffset := byteOffset;
     accessor_componentType := 5126; accessor_normalized := Some false;
     accessor_count := 3; accessor_type := type;
     accessor_min := None; accessor_max := None |}.

Definition sample_textureInfo (index : nat) : GltfTextureInfo :=
  {| textureInfo_index := Some index; textureInfo_texCoord := Some 0 |}.

(** A material that declares every optional channel. *)
Definition sample_material : GltfMaterial :=
  {| gmaterial_pbrMetallicRoughness :=
       Some {| mr_baseColorTexture := Some (sample_textureInfo 0);
               mr_metallicRoughnessTexture := None;
               mr_baseColorFactor := Some [1%float; 1%float; 1%float; 1%float];
               mr_metallicFactor := Some 0%float;
               mr_roughnessFactor := Some 1%float |};
     gmaterial_extensions :=
       Some {| KHR_materials_pbrSpecularGlossiness :=
                 Some {| sg_diffuseTexture := Some (sample_textureInfo 1);
                         sg_specularGlossinessTexture := None;
                         sg_diffuseFactor := None;
                         sg_specularFactor := None;
                         sg_glossinessFactor := Some 1%float |} |};
     gmaterial_emissiveTexture := Some (sample_textureInfo 2);
     gmaterial_normalTexture := Some (sample_textureInfo 3);
     gmaterial_occlusionTexture := Some (sample_textureInfo 4);
     gmaterial_emissiveFactor := None;
     gmaterial_alphaMode := Some "BLEND";
     gmaterial_alphaCutoff := Some 0.5%float;
     gmaterial_doubleSided := Some true |}.

Definition sample_featureId : GltfFeatureId :=
  {| featureId_featureTable := Some "buildings";
     featureId_featureIds :=
       Some {| featureIds_attribute := Some "_FEATURE_ID_0";
               featureIds_constant := None; featureIds_divisor := None;
               featureIds_texture := None; featureIds_channels := None |} |}.

(** The normals of the sample primitive come out of a compressed payload. *)
Definition sample_draco : GltfDraco :=
  {| draco_bufferView := Some 3; draco_attributes := Some [("NORMAL", 1)] |}.

(** A primitive with two attributes, two morph targets, an index accessor
    and one declared feature-id attribute. *)
Definition sample_primitive : GltfPrimitive :=
  {| gprimitive_material := Some 0;
     gprimitive_extensions :=
       Some {| KHR_draco_mesh_compression := Some sample_draco;
               primitive_EXT_feature_metadata :=
                 Some {| fm_featureIdAttributes := Some [sample_featureId];
                         fm_featureIdTextures := None;
                         fm_featureTextures := None |} |};
     gprimitive_attributes := Some [("POSITION", 0); ("NORMAL", 1)];
     gprimitive_targets := Some [[("POSITION", 0)]; [("POSITION", 0)]];
     gprimitive_indices := Some 3;
     gprimitive_mode := Some 4%Z |}.

Definition sample_instancing : GltfInstancing :=
  {| instancing_attributes := Some [("TRANSLATION", 0)];
     instancing_extensions :=
       Some {| instancing_EXT_feature_metadata :=
                 Some {| fm_featureIdAttributes := Some [sample_featureId];
                         fm_featureIdTextures := None;
                         fm_featureTextures := None |} |} |}.

(** A skin of two joints that declares an inverse-bind-matrix accessor. *)
Definition sample_skin : GltfSkin :=
  {| gskin_joints := [0; 1]; gskin_inverseBindMatrices := Some 2 |}.

Definition sample_mesh (weights : option (list float)) : GltfMesh :=
  {| mesh_primitives := [sample_primitive]; mesh_weights := weights |}.

Definition sample_node (mesh skin : option nat) (weights : option (list float))
    (children : option (list nat)) : GltfNode :=
  {| gnode_matrix := None; gnode_translation := None; gnode_rotation := None;
     gnode_scale := None; gnode_mesh := mesh; gnode_weights := weights;
     gnode_children := children; gnode_skin := skin; gnode_extensions := None |}.

(** Two nodes: the first has the mesh, the skin and the second as child. *)
Definition sample_gltf (nodeWeights meshWeights : option (list float)) : Gltf :=
  {| gltf_accessors :=
       [sample_accessor (Some 0) 0 VEC3; sample_accessor (Some 0) 12 VEC3;
        sample_accessor (Some 1) 0 MAT4; sample_accessor (Some 2) 0 SCALAR];
     gltf_materials := [sample_material];
     gltf_meshes := [sample_mesh meshWeights];
     gltf_nodes :=
       Some [sample_node (Some 0) (Some 0) nodeWeights (Some [1]);
             sample_node None None None None];
     gltf_skins := [sample_skin];
     gltf_scenes := Some [{| gscene_nodes := Some [0] |}];
     gltf_scene := Some 0;
     gltf_extensions := None |}.

(** A loader on which [load()] has been called, on a platform whose WebP
    support is known. *)
Definition sample_world : World :=
  loading (collaborators := sample_collaborators) sample_options (Some true) false.

(** What the document loader resolves with. *)
Definition sample_document (gltf : Gltf) : LoaderFields :=
  {| loader_gltf := Some gltf; loader_vertexBuffer := None;
     loader_quantization := None; loader_indexBuffer := None;
     loader_typedArray := None; loader_texture := None;
     loader_featureMetadata := None |}.

(** What a vertex buffer loader resolves with. *)
Definition sample_vertexBuffer (buffer : Buffer) (quantization : option Quantization)
    : LoaderFields :=
  {| loader_gltf := None; loader_vertexBuffer := Some buffer;
     loader_quantization := quantization; loader_indexBuffer := None;
     loader_typedArray := None; loader_texture := None;
     loader_featureMetadata := None |}.

Definition sample_octEncoded : Quantization :=
  {| quantization_componentDatatype := Some 5121%Z; quantization_octEncoded := true |}.

(** The attribute built for the NORMAL accessor of the sample document. *)
Definition sample_attribute_NORMAL : Attribute :=
  {| attribute_semantic := Some "NORMAL";
     attribute_constant := Some (MPacked TCartesian3 [0%float; 0%float; 0%float]);
     attribute_componentDatatype := Some 5126%Z;
     attribute_normalized := Some false;
     attribute_count := Some 3;
     attribute_type := Some VEC3;
     attribute_min := None;
     attribute_max := None;
     attribute_byteOffset := Some 12%Z;
     attribute_byteStride := Some 12%Z;
     attribute_quantization := None;
     attribute_buffer := None;
     attribute_typedArray := None |}.

(** The sample loader after its document resolved and one [process] call
    assembled the scene graph: it waits for the loaders 1 (a texture), 2 (the
    vertex buffer of POSITION and of both morph targets), 3 (the vertex
    buffer of the compressed NORMAL) and 4 (the index buffer). *)
Definition sample_assembled : World :=
  run (collaborators := sample_collaborators) sample_world
    [LoaderResolves 0 (sample_document (sample_gltf None None));
     CallProcess sample_frameState].

(** The assembled sample loader destroyed before any of its loaders settled. *)
Definition sample_destroyed : World :=
  run (collaborators := sample_collaborators) sample_assembled [CallDestroy].

(** ** Derived views of a world, used to state properties *)

Definition log_calls (cs : list Call) (w : World) : World :=
  {| loader := loader w; heap := heap w; subs := subs w; cache := cache w;
     aggregate := aggregate w; supportsWebP := supportsWebP w;
     metadataLoaderHasThen := metadataLoaderHasThen w; calls := calls w ++ cs |}.

(** The calls a full unload makes from this world: the document loader is
    released if it is still held, and every sub-loader is unloaded. *)
Definition unload_calls (w : World) : list Call :=
  match _gltfJsonLoader (loader w) with
  | Some j => [CacheUnload j]
  | None => []
  end ++ (LoaderUnload <$> _loaders (loader w)).

(** The world [unload] leaves. *)
Definition unloaded (w : World) : World :=
  set_loader (with_loaders [])
    (log_calls (LoaderUnload <$> _loaders (loader w))
       (set_loader (with_gltfJsonLoader None)
          match _gltfJsonLoader (loader w) with
          | Some j => log_call (CacheUnload j) (set_cache (release j) w)
          | None => w
          end)).

(** The loaders released through the cache, in order. *)
Definition cache_unloads (cs : list Call) : list nat :=
  omap (λ c, match c with CacheUnload r => Some r | _ => None end) cs.

(** The loaders the cache holds, each with the number of references it
    counts. *)
Definition reference_counts (w : World) : list (nat * nat) :=
  (λ e, (entry_loader e, entry_count e)) <$> cache w.


(** ** Completion: what a run keeps true

    The definitions below state how the public promise of the loader stands
    to the promises of the loaders that [parse] gathered for [when.all]. *)

(** The continuations that only write into a scene-graph object: all but
    the two that move the loader's own state. *)
Definition quiet (k : Continuation) : Prop :=
  match k with
  | LoadThen | ParseThen => False
  | _ => True
  end.

Definition quiet_callback (cb : Callback) : Prop :=
  quiet (callback_then cb) ∧ callback_otherwise cb = None.

(** The callbacks [load] registers on the document loader. *)
Definition load_callback : Callback :=
  {| callback_then := LoadThen; callback_otherwise := Some LoadOtherwise |}.

Definition promise_of (w : World) (r : nat) : option PromiseState :=
  sub_promise <$> subs w !! r.

Definition resolved_in (w : World) (r : nat) : Prop :=
  promise_of w r = Some Resolved.

Definition rejected_in (w : World) (r : nat) : Prop :=
  ∃ e, promise_of w r = Some (Rejected e).

(** What assembly does to the sub-loaders: those there stay as they are but
    for further quiet callbacks, and the new ones carry quiet callbacks only. *)
Definition sub_rel (l l' : list SubLoader) : Prop :=
  (∀ r s, l !! r = Some s →
     ∃ s', l' !! r = Some s' ∧ sub_promise s' = sub_promise s
           ∧ ∃ extra, sub_callbacks s' = sub_callbacks s ++ extra
                      ∧ Forall quiet_callback extra)
  ∧ (∀ r s', l' !! r = Some s' → l !! r = None →
       Forall quiet_callback (sub_callbacks s')).

(** What the [load*] functions leave alone: the state, the public promise,
    the aggregate, and the settlement of every sub-loader. *)
Definition keeps (w w' : World) : Prop :=
  _state (loader w') = _state (loader w)
  ∧ _promise (loader w') = _promise (loader w)
  ∧ isDestroyed (loader w') = isDestroyed (loader w)
  ∧ _gltfJsonLoader (loader w') = _gltfJsonLoader (loader w)
  ∧ aggregate w' = aggregate w
  ∧ metadataLoaderHasThen w' = metadataLoaderHasThen w
  ∧ sub_rel (subs w) (subs w').

Definition Keeps {A} (m : M A) : Prop := ∀ w, keeps w (m w).2.

(** A quiet continuation only touches the heap. *)
Definition heap_only (w w' : World) : Prop := ∃ h, w' = set_heap (λ _, h) w.

Definition HeapOnly {A} (m : M A) : Prop := ∀ w, heap_only w (m w).2.

(** The part of a world that completion depends on: state, public promise,
    destroyed flag, [_loaders], the aggregate, and the sub-loaders. *)
Definition View : Type :=
  ResourceLoaderState * PromiseState * bool * list nat * option Aggregate * list SubLoader.

Definition view (w : World) : View :=
  (_state (loader w), _promise (loader w), isDestroyed (loader w), _loaders (loader w),
   aggregate w, subs w).

Definition callbacks_quiet (ss : list SubLoader) : Prop :=
  Forall (λ s, Forall quiet_callback (sub_callbacks s)) ss.

(** The document fetch is outstanding: the document loader is the only
    sub-loader, and it holds the callbacks of [load]. *)
Definition fetching (v : View) : Prop :=
  let '(st, pr, d, ls, agg, ss) := v in
  ∃ s0, ss = [s0] ∧ sub_promise s0 = Pending ∧ sub_callbacks s0 = [load_callback]
    ∧ st = LOADING ∧ pr = Pending ∧ agg = None.

(** How the public promise stands to the aggregate: untouched while there is
    none or it is pending; once the aggregate has settled, settled the same
    way, unless the loader was destroyed by then. *)
Definition settled_as (v : View) : Prop :=
  let '(st, pr, d, ls, agg, ss) := v in
  match agg with
  | None => (pr = Pending ∧ st ≠ READY) ∨ (st = FAILED ∧ ∃ e, pr = Rejected e)
  | Some a =>
      (ls = all_promises a ∨ ls = [])
      ∧ match all_state a with
        | Pending => pr = Pending ∧ st = PROCESSING
        | Resolved =>
            Forall (λ r, sub_promise <$> ss !! r = Some Resolved) (all_promises a)
            ∧ ((pr = Resolved ∧ st = READY)
               ∨ (d = true ∧ pr = Pending ∧ st = PROCESSING))
        | Rejected e =>
            (∃ r, r ∈ all_promises a ∧ sub_promise <$> ss !! r = Some (Rejected e))
            ∧ ((pr = Rejected (getError "Failed to load glTF" e) ∧ st = FAILED)
               ∨ (d = true ∧ pr = Pending ∧ st = PROCESSING))
        end
  end.

(** Between two steps the aggregate has been told of every settlement, and
    the document loader was let go once the aggregate was made. *)
Definition in_step (v : View) (j : option nat) : Prop :=
  let '(st, pr, d, ls, agg, ss) := v in
  ∀ a, agg = Some a →
    j = None
    ∧ (all_state a = Pending → all_settlement ss (all_promises a) = Pending).

Definition assembling (v : View) (j : option nat) : Prop :=
  callbacks_quiet v.2 ∧ settled_as v ∧ in_step v j.

(** What every world of a run satisfies. *)
Definition Inv (w : World) : Prop :=
  fetching (view w) ∨ assembling (view w) (_gltfJsonLoader (loader w)).

Definition settled_kept (ss ss' : list SubLoader) : Prop :=
  ∀ r p, sub_promise <$> ss !! r = Some p → p ≠ Pending → sub_promise <$> ss' !! r = Some p.

(** Three runs of the sample document: every loader resolves; loader 3
    rejects; the loader is destroyed before its loaders have all resolved. *)
Definition sample_completion : list Event :=
  [LoaderResolves 0 (sample_document (sample_gltf None None));
   CallProcess sample_frameState;
   LoaderResolves 1 no_fields;
   LoaderResolves 2 no_fields;
   LoaderResolves 3 (sample_vertexBuffer 7 (Some sample_octEncoded));
   LoaderResolves 4 no_fields].

Definition sample_failure : list Event :=
  [LoaderResolves 0 (sample_document (sample_gltf None None));
   CallProcess sample_frameState;
   LoaderResolves 1 no_fields;
   LoaderRejects 3 (ErrorMessage "decode failed");
   LoaderResolves 2 no_fields].

Definition sample_abandonment : list Event :=
  [LoaderResolves 0 (sample_document (sample_gltf None None));
   CallProcess sample_frameState;
   LoaderResolves 1 no_fields;
   CallDestroy;
   LoaderResolves 2 no_fields;
   LoaderResolves 3 (sample_vertexBuffer 7 (Some sample_octEncoded));
   LoaderResolves 4 no_fields].

(** The sample loader when all its loaders have resolved. *)
Definition sample_ready : World :=
  run (collaborators := sample_collaborators) sample_world sample_completion.

(** ** Further definitions and samples *)

(** Collaborators for an interleaved buffer view: 4-byte components, 32 bytes
    from one element to the next, and a buffer that reads 1 everywhere. *)
Definition interleaved_collaborators : Collaborators :=
  {| getAccessorByteStride := λ _ _, 32%Z;
     numberOfComponentsForType := sample_numberOfComponents;
     getSizeInBytes := λ _, 4%Z;
     readComponent := λ _ _ _, 1%float;
     getImageIdFromTexture := λ _ textureId _, textureId;
     createSampler := createSampler (Collaborators := sample_collaborators);
     Sampler_NEAREST := Sampler_NEAREST (Collaborators := sample_collaborators) |}.

Definition sample_typedArray : Uint8Array :=
  {| typedArray_buffer := replicate 96 0%Z; typedArray_byteOffset := 0 |}.

(** The sample document without a default scene, and one whose first node
    declares instancing and the children 1 and 7. *)
Definition sample_gltf_sceneless : Gltf :=
  {| gltf_accessors := gltf_accessors (sample_gltf None None);
     gltf_materials := gltf_materials (sample_gltf None None);
     gltf_meshes := gltf_meshes (sample_gltf None None);
     gltf_nodes := gltf_nodes (sample_gltf None None);
     gltf_skins := gltf_skins (sample_gltf None None);
     gltf_scenes := gltf_scenes (sample_gltf None None);
     gltf_scene := None;
     gltf_extensions := None |}.

Definition sample_gltf_instanced : Gltf :=
  {| gltf_accessors := gltf_accessors (sample_gltf None None);
     gltf_materials := gltf_materials (sample_gltf None None);
     gltf_meshes := gltf_meshes (sample_gltf None None);
     gltf_nodes :=
       Some [{| gnode_matrix := None; gnode_translation := None; gnode_rotation := None;
                gnode_scale := None; gnode_mesh := None; gnode_weights := None;
                gnode_children := Some [1; 7]; gnode_skin := None;
                gnode_extensions :=
                  Some {| EXT_mesh_gpu_instancing := Some sample_instancing |} |};
             sample_node None None None None];
     gltf_skins := gltf_skins (sample_gltf None None);
     gltf_scenes := gltf_scenes (sample_gltf None None);
     gltf_scene := Some 0;
     gltf_extensions := None |}.

(** A feature-id texture over texture 5, and one that names no texture. *)
Definition sample_featureIdTexture (index : option nat) : GltfFeatureId :=
  {| featureId_featureTable := Some "buildings";
     featureId_featureIds :=
       Some {| featureIds_attribute := None;
               featureIds_constant := None; featureIds_divisor := None;
               featureIds_texture :=
                 Some {| textureInfo_index := index; textureInfo_texCoord := Some 0 |};
               featureIds_channels := Some "r" |} |}.

(** What a destroyed loader keeps: it stays destroyed, in its state, with its
    public promise as it is. *)
Definition inert (w w' : World) : Prop :=
  isDestroyed (loader w') = true
  ∧ _state (loader w') = _state (loader w)
  ∧ _promise (loader w') = _promise (loader w).

(** The loader has components, with their scene and their nodes. *)
Definition published (w : World) : Prop :=
  ∃ c components,
    _components (loader w) = Some c
    ∧ heap_components (heap w) !! c = Some components
    ∧ is_Some (components_scene components)
    ∧ is_Some (components_nodes components).

(** What no callback and no teardown undoes: components once published stay
    published, and no aggregate appears. *)
Definition publishing (w w' : World) : Prop :=
  (published w → published w') ∧ (aggregate w = None → aggregate w' = None).

Definition Publishes {A} (m : M A) : Prop := ∀ w, publishing w (m w).2.

(** Components are published by the time the loaders are gathered. *)
Definition published_once_gathered (w : World) : Prop :=
  aggregate w = None ∨ published w.

(** A loader in state PROCESSING that let its document loader go before any
    [parse] gathered its loaders. *)
Definition stranded (w : World) : Prop :=
  _state (loader w) = PROCESSING
  ∧ _gltfJsonLoader (loader w) = None
  ∧ aggregate w = None.

(** A document with an empty node list and no default scene, and one with
    no node list at all. *)
Definition sample_gltf_empty : Gltf :=
  {| gltf_accessors := []; gltf_materials := []; gltf_meshes := [];
     gltf_nodes := Some []; gltf_skins := [];
     gltf_scenes := None; gltf_scene := None; gltf_extensions := None |}.

Definition sample_gltf_nodeless : Gltf :=
  {| gltf_accessors := []; gltf_materials := []; gltf_meshes := [];
     gltf_nodes := None; gltf_skins := [];
     gltf_scenes := None; gltf_scene := None; gltf_extensions := None |}.

(** The empty document with the feature metadata extension. *)
Definition sample_gltf_metadata : Gltf :=
  {| gltf_accessors := []; gltf_materials := []; gltf_meshes := [];
     gltf_nodes := Some []; gltf_skins := [];
     gltf_scenes := None; gltf_scene := None;
     gltf_extensions := Some {| gltf_EXT_feature_metadata := Some 0 |} |}.

(** ** Reasoning about the monad *)

Section Monad.

Lemma bind_run {A B} (m : M A) (f : A → M B) (w : World) :
  (m ≫= f) w =
  match m w with
  | (Ok a, w') => f a w'
  | (Throw e, w') => (Throw e, w')
  end.
Proof. reflexivity. Qed.

Lemma bind_ok {A B} (m : M A) (f : A → M B) (w w' : World) (b : B) :
  (m ≫= f) w = (Ok b, w') →
  ∃ a w1, m w = (Ok a, w1) ∧ f a w1 = (Ok b, w').
Proof.
  rewrite bind_run. destruct (m w) as [[a|e] w1]; [eauto|discriminate].
Qed.

Lemma ret_ok {A} (a b : A) (w w1 : World) :
  (mret a : M A) w = (Ok b, w1) → a = b ∧ w = w1.
Proof. intros H. by injection H. Qed.

End Monad.

(** Inversion of a run that returned: binds are split, branches on
    [undefined] are cased, returns are resolved. *)
Ltac inv_M :=
  repeat match goal with
  | H : skip _ = (Ok _, _) |- _ => apply ret_ok in H as [? ?]; subst
  | H : mret _ _ = (Ok _, _) |- _ => apply ret_ok in H as [? ?]; subst
  | H : throw _ _ = (Ok _, _) |- _ => discriminate H
  | H : (_ ≫= _) _ = (Ok _, _) |- _ => apply bind_ok in H as (? & ? & ? & H)
  | H : match ?x with _ => _ end _ = (Ok _, _) |- _ => destruct x eqn:?
  end.

Section Loops.

Lemma forEach_log {A} (f : A → Call) (l : list A) (w : World) :
  forEach l (λ r, modify (log_call (f r))) w = (Ok tt, log_calls (f <$> l) w).
Proof.
  revert w. induction l as [|x l IH]; intros w; simpl.
  - unfold mret, M_ret, log_calls. rewrite app_nil_r. by destruct w.
  - rewrite bind_run. unfold modify at 1. rewrite IH. f_equal.
    unfold log_calls, log_call; simpl. by rewrite <- app_assoc.
Qed.

Lemma forEachCollect_Forall2 {A B} (P : A → B → Prop) (body : A → M B) (l : list A) :
  (∀ x w y w', body x w = (Ok y, w') → P x y) →
  ∀ w ys w', forEachCollect l body w = (Ok ys, w') → Forall2 P l ys.
Proof.
  intros HP. induction l as [|x l IH]; intros w ys w' H; simpl in H.
  - apply ret_ok in H as [<- _]. constructor.
  - inv_M. constructor; eauto.
Qed.

Lemma forEachCollect_Forall {A B} (Q : B → Prop) (body : A → M B) (l : list A) :
  (∀ x w y w', x ∈ l → body x w = (Ok y, w') → Q y) →
  ∀ w ys w', forEachCollect l body w = (Ok ys, w') → Forall Q ys.
Proof.
  induction l as [|x l IH]; intros HQ w ys w' H; simpl in H.
  - apply ret_ok in H as [<- _]. constructor.
  - inv_M. constructor.
    + eapply HQ; [left|eassumption].
    + eapply IH; [|eassumption]. intros; eapply HQ; [by right|eassumption].
Qed.

Lemma alter_app_last {A} (f : A → A) (l : list A) (x : A) :
  alter f (length l) (l ++ [x]) = l ++ [f x].
Proof. induction l; simpl; [done|]. by f_equal. Qed.

Lemma lookup_app_last {A} (l : list A) (x : A) : (l ++ [x]) !! length l = Some x.
Proof. induction l; simpl; done. Qed.

End Loops.

(** ** unload *)

Section Unload.

Lemma unload_run (w : World) : unload w = (Ok tt, unloaded w).
Proof.
  unfold unload. rewrite bind_run. unfold gets at 1.
  destruct w as [l h s c a wp mt cs].
  destruct l as [gr br ta kr asy inc j st p ls co d].
  destruct j as [j|]; simpl.
  - rewrite !bind_run. unfold ResourceCache_unload, modify at 1. simpl.
    rewrite !bind_run. unfold modify at 1. rewrite bind_run. unfold gets at 1. simpl.
    rewrite bind_run, forEach_log. reflexivity.
  - rewrite !bind_run. unfold skip, mret, M_ret at 1.
    rewrite !bind_run. unfold modify at 1. rewrite bind_run. unfold gets at 1. simpl.
    rewrite bind_run, forEach_log. reflexivity.
Qed.

Lemma unloaded_loader (w : World) :
  _gltfJsonLoader (loader (unloaded w)) = None
  ∧ _loaders (loader (unloaded w)) = []
  ∧ _state (loader (unloaded w)) = _state (loader w)
  ∧ _promise (loader (unloaded w)) = _promise (loader w)
  ∧ isDestroyed (loader (unloaded w)) = isDestroyed (loader w).
Proof.
  destruct w as [l h s c a wp mt cs].
  destruct l as [gr br ta kr asy inc j st p ls co d].
  destruct j; repeat split.
Qed.

Lemma unloaded_calls (w : World) : calls (unloaded w) = calls w ++ unload_calls w.
Proof.
  unfold unload_calls, unloaded.
  destruct w as [l h s c a wp mt cs].
  destruct l as [gr br ta kr asy inc j st p ls co d].
  destruct j; simpl; by rewrite <- ?app_assoc.
Qed.

Lemma unloaded_nothing_held (w : World) :
  _gltfJsonLoader (loader w) = None → _loaders (loader w) = [] → unloaded w = w.
Proof.
  destruct w as [l h s c a wp mt cs].
  destruct l as [gr br ta kr asy inc j st p ls co d].
  cbn [loader _gltfJsonLoader _loaders]. intros -> ->.
  unfold unloaded, log_calls, set_loader, with_loaders, with_gltfJsonLoader.
  cbn. by rewrite app_nil_r.
Qed.

Lemma unloaded_unloaded (w : World) : unloaded (unloaded w) = unloaded w.
Proof.
  destruct (unloaded_loader w) as (Hj & Hl & _).
  by apply unloaded_nothing_held.
Qed.

Lemma cache_unloads_app (cs1 cs2 : list Call) :
  cache_unloads (cs1 ++ cs2) = cache_unloads cs1 ++ cache_unloads cs2.
Proof. apply omap_app. Qed.

Lemma cache_unloads_unload_calls (w : World) :
  cache_unloads (unload_calls w) =
  match _gltfJsonLoader (loader w) with
  | Some j => [j]
  | None => []
  end.
Proof.
  unfold unload_calls. rewrite cache_unloads_app.
  assert (H : cache_unloads (LoaderUnload <$> _loaders (loader w)) = []).
  { induction (_loaders (loader w)); simpl; done. }
  rewrite H, app_nil_r. destruct (_gltfJsonLoader (loader w)); reflexivity.
Qed.

Lemma unloaded_cache (w : World) :
  cache (unloaded w) =
  match _gltfJsonLoader (loader w) with
  | Some j => release j (cache w)
  | None => cache w
  end.
Proof.
  destruct w as [l h s c a wp mt cs].
  destruct l as [gr br ta kr asy inc j st p ls co d].
  by destruct j.
Qed.

(** Releasing one loader leaves the entries of the others as they are. *)
Lemma release_other (r : nat) (c : list CacheEntry) (e : CacheEntry) :
  e ∈ c → entry_loader e ≠ r → e ∈ release r c.
Proof.
  intros He Hr. unfold release.
  destruct (list_find _ c) as [[i e']|] eqn:Hfind; [|done].
  apply list_find_Some in Hfind as (Hi & He' & _).
  apply list_elem_of_lookup in He as [k Hk].
  assert (Hki : k ≠ i) by (intros ->; congruence).
  apply list_elem_of_lookup. destruct (_ && _).
  - destruct (decide (k < i)) as [Hlt|Hge].
    + exists k. by rewrite list_lookup_delete_lt.
    + exists (pred k). rewrite list_lookup_delete_ge by lia.
      by replace (S (pred k)) with k by lia.
  - exists k. by rewrite list_lookup_alter_ne.
Qed.

(** [unload()] from every state of the loader: it never throws, it leaves the
    loader with neither the document loader nor any sub-loader, and a second
    call right after it changes nothing and makes no call at all. The one
    reference it gives back to the cache is that of the document loader, if
    it was held: each sub-loader has its own [unload()] called, and the cache
    still holds the entry of every other loader, with the count it had. *)
Lemma unload_twice (w : World) :
  let w1 := (unload w).2 in
  let w2 := (unload w1).2 in
  (unload w).1 = Ok tt
  ∧ (unload w1).1 = Ok tt
  ∧ w2 = w1
  ∧ _gltfJsonLoader (loader w1) = None
  ∧ _loaders (loader w1) = []
  ∧ calls w1 = calls w ++ unload_calls w
  ∧ cache_unloads (calls w2) =
      cache_unloads (calls w) ++
      match _gltfJsonLoader (loader w) with
      | Some j => [j]
      | None => []
      end
  ∧ cache w2 =
      match _gltfJsonLoader (loader w) with
      | Some j => release j (cache w)
      | None => cache w
      end
  ∧ ∀ e, e ∈ cache w → Some (entry_loader e) ≠ _gltfJsonLoader (loader w) →
         e ∈ cache w2.
Proof.
  cbv zeta. rewrite (unload_run w). cbn [fst snd].
  rewrite (unload_run (unloaded w)). cbn [fst snd].
  rewrite unloaded_unloaded.
  destruct (unloaded_loader w) as (Hj & Hl & _).
  repeat split; try assumption.
  - apply unloaded_calls.
  - by rewrite unloaded_calls, cache_unloads_app, cache_unloads_unload_calls.
  - apply unloaded_cache.
  - intros e He Hne. rewrite unloaded_cache.
    destruct (_gltfJsonLoader (loader w)) as [j|]; [|exact He].
    apply release_other; [exact He|]. intros Heq. apply Hne. by rewrite Heq.
Qed.

End Unload.

(** C9, at the failing input: the sample loader has reached READY and its
    public promise has resolved. It no longer holds the document loader, and
    holds the loaders 1 to 4 that [parse] took out of the cache, loader 2
    three times. [unload()], once or twice, throws nothing and leaves the
    loader with an empty list, and the second call changes nothing. Yet all
    it does with the sub-loaders is to call the [unload()] of each: no
    reference goes back to the cache, which counts 1, 3, 1 and 1 references
    to them as before. *)
Theorem unload_keeps_subloader_references :
  let w := sample_ready in
  let w1 := (unload w).2 in
  let w2 := (unload w1).2 in
  _state (loader w) = READY
  ∧ _promise (loader w) = Resolved
  ∧ _gltfJsonLoader (loader w) = None
  ∧ _loaders (loader w) = [1; 2; 3; 2; 2; 4]
  ∧ reference_counts w = [(1, 1); (2, 3); (3, 1); (4, 1)]
  ∧ (unload w).1 = Ok tt
  ∧ (unload w1).1 = Ok tt
  ∧ w2 = w1
  ∧ _gltfJsonLoader (loader w2) = None
  ∧ _loaders (loader w2) = []
  ∧ calls w2 = calls w ++ (LoaderUnload <$> [1; 2; 3; 2; 2; 4])
  ∧ cache_unloads (calls w2) = cache_unloads (calls w)
  ∧ reference_counts w2 = [(1, 1); (2, 3); (3, 1); (4, 1)].
Proof.
  cbv zeta.
  assert (Hs : _state (loader sample_ready) = READY) by (vm_compute; reflexivity).
  assert (Hp : _promise (loader sample_ready) = Resolved) by (vm_compute; reflexivity).
  assert (Hj : _gltfJsonLoader (loader sample_ready) = None)
    by (vm_compute; reflexivity).
  assert (Hl : _loaders (loader sample_ready) = [1; 2; 3; 2; 2; 4])
    by (vm_compute; reflexivity).
  assert (Hc : reference_counts sample_ready = [(1, 1); (2, 3); (3, 1); (4, 1)])
    by (vm_compute; reflexivity).
  destruct (unload_twice sample_ready)
    as (H1 & H2 & H21 & Hj2 & Hl2 & Hcalls & Hunloads & Hcache & _).
  rewrite Hj in Hunloads, Hcache. rewrite app_nil_r in Hunloads.
  unfold unload_calls in Hcalls. rewrite Hj, Hl in Hcalls.
  unfold reference_counts in *. rewrite H21 in Hunloads, Hcache |- *.
  rewrite Hcache. repeat split; assumption.
Qed.

(** ** The destroyed flag *)

Section Destroyed.

Context {collaborators : Collaborators}.

Lemma run_continuation_destroyed (k : Continuation) (resolved : LoaderFields) (w : World) :
  isDestroyed (loader w) = true → run_continuation k resolved w = (Ok tt, w).
Proof.
  intros Hd. destruct k; simpl;
    unfold load_then, loadSkin_then, loadVertexAttribute_then,
      loadInstancedAttribute_buffer_then, loadInstancedAttribute_typedArray_then,
      loadIndices_then, loadTexture_then, parse_featureMetadata_then, parse_then;
    rewrite bind_run; unfold gets; rewrite Hd; reflexivity.
Qed.

Lemma run_handler_destroyed (h : Handler) (error : Error) (w : World) :
  isDestroyed (loader w) = true → run_handler h error w = (Ok tt, w).
Proof.
  intros Hd. destruct h; simpl; unfold load_otherwise, parse_otherwise;
    rewrite bind_run; unfold gets; rewrite Hd; reflexivity.
Qed.

(** C8. Every completion callback registered by the loader (on the document
    loader, on vertex buffer, index buffer, buffer view, texture and feature
    metadata loaders, and on the aggregate of all of them) returns at once
    when the loader has been destroyed: the world it leaves, scene-graph
    objects and loader state included, is the world it found. *)
Theorem destroyed_callbacks_mutate_nothing (w : World) :
  isDestroyed (loader w) = true →
  (∀ k resolved, run_continuation k resolved w = (Ok tt, w))
  ∧ (∀ h error, run_handler h error w = (Ok tt, w)).
Proof.
  intros Hd. split; intros.
  - by apply run_continuation_destroyed.
  - by apply run_handler_destroyed.
Qed.

End Destroyed.

(** The sample loader torn down while its document is still loading. *)
Lemma destroyed_callbacks_mutate_nothing_witness :
  let w := (destroy sample_world).2 in
  isDestroyed (loader w) = true
  ∧ (∀ k resolved,
       run_continuation (collaborators := sample_collaborators) k resolved w = (Ok tt, w))
  ∧ (∀ h error, run_handler h error w = (Ok tt, w)).
Proof.
  split; [vm_compute; reflexivity|].
  apply (destroyed_callbacks_mutate_nothing (collaborators := sample_collaborators)).
  reflexivity.
Defined.

(** ** Skins *)

Section Skins.

Context {collaborators : Collaborators}.

(** Whatever the document's skin declares, [loadSkin] spawns no loader,
    registers no callback, fills [inverseBindMatrices] with one identity
    matrix per joint and returns [undefined]. *)
Lemma loadSkin_run (gltf : Gltf) (gltfSkin : GltfSkin) (nodes : list Node) (w : World) :
  loadSkin gltf gltfSkin nodes w =
  (Ok None,
   set_heap (λ h, set_heap_skins
     (heap_skins h ++
        [{| skin_joints := Some (node_ref nodes <$> gskin_joints gltfSkin);
            skin_inverseBindMatrices :=
              Some (replicate (length (gskin_joints gltfSkin)) Matrix4_IDENTITY) |}]) h) w).
Proof.
  unfold loadSkin. rewrite bind_run. unfold alloc_skin at 1.
  rewrite bind_run. unfold update_skin at 1, modify at 1.
  rewrite bind_run. unfold read_skin_inverseBindMatrices, gets at 1.
  destruct w as [l h s c a wp mt cs]. destruct h as [ha hi ht hs hc]. simpl.
  rewrite alter_app_last, lookup_app_last. simpl.
  rewrite bind_run. unfold update_skin, modify at 1. simpl.
  unfold mret, M_ret, set_heap, set_heap_skins; simpl.
  rewrite !alter_app_last. reflexivity.
Qed.

End Skins.

(** C3, at the failing input: the sample skin declares the accessor 2, which
    is backed by buffer view 1, yet [loadSkin] leaves the loader as it was
    (no buffer view loader is spawned) and the skin it builds holds two
    identity matrices. *)
Theorem loadSkin_declared_accessor_unused :
  let gltf := sample_gltf None None in
  let run := loadSkin (collaborators := sample_collaborators) gltf sample_skin
               [new_Node; new_Node] sample_world in
  gskin_inverseBindMatrices sample_skin = Some 2
  ∧ (accessor_bufferView <$> gltf_accessors gltf !! 2) = Some (Some 1)
  ∧ run.1 = Ok None
  ∧ loader run.2 = loader sample_world
  ∧ subs run.2 = subs sample_world
  ∧ heap_skins (heap run.2) =
      [{| skin_joints := Some [Some 0; Some 1];
          skin_inverseBindMatrices := Some [Matrix4_IDENTITY; Matrix4_IDENTITY] |}].
Proof.
  cbv zeta. rewrite loadSkin_run. repeat split.
Qed.

(** ** Materials *)

Section Materials.

Context {collaborators : Collaborators}.

(** The optional channels other than metallic-roughness are tested on the
    output material, where they are still [undefined]: whatever the document
    declares, they stay [undefined]. *)
Lemma loadMaterial_channels gltf gltfMaterial supportedImageFormats w material w' :
  loadMaterial gltf gltfMaterial supportedImageFormats w = (Ok material, w') →
  material_specularGlossiness material = None
  ∧ material_emissiveTexture material = None
  ∧ material_normalTexture material = None
  ∧ material_occlusionTexture material = None
  ∧ material_alphaMode material = gmaterial_alphaMode gltfMaterial
  ∧ material_alphaCutoff material = gmaterial_alphaCutoff gltfMaterial
  ∧ material_doubleSided material = gmaterial_doubleSided gltfMaterial.
Proof.
  intros H. unfold loadMaterial, reloadTexture_if_defined, Material_extensions in H.
  simpl in H. inv_M; try discriminate; repeat split.
Qed.

End Materials.

(** C4, at the failing input: the sample material declares a
    specular-glossiness extension and emissive, normal and occlusion
    textures; the material built from it has none of them, and only the
    base-color texture was requested. *)
Theorem loadMaterial_declared_channels_dropped :
  let run := loadMaterial (collaborators := sample_collaborators) (sample_gltf None None)
               sample_material sample_supportedImageFormats sample_world in
  is_Some (gmaterial_extensions sample_material
             ≫= KHR_materials_pbrSpecularGlossiness)
  ∧ is_Some (gmaterial_emissiveTexture sample_material)
  ∧ is_Some (gmaterial_normalTexture sample_material)
  ∧ is_Some (gmaterial_occlusionTexture sample_material)
  ∧ ∃ material,
      run.1 = Ok material
      ∧ material_specularGlossiness material = None
      ∧ material_emissiveTexture material = None
      ∧ material_normalTexture material = None
      ∧ material_occlusionTexture material = None
      ∧ is_Some (material_metallicRoughness material)
      ∧ length (_loaders (loader run.2)) = 1.
Proof.
  vm_compute. repeat split; try (eexists; reflexivity).
  eexists. split; [reflexivity|]. repeat split. eexists; reflexivity.
Qed.

(** ** Feature-id attributes *)

Section FeatureIds.

Context {collaborators : Collaborators}.

(** The loop bound is [undefined], so no entry is ever loaded. *)
Lemma loadFeatureIdAttributes_run (featureIdAttributes : list GltfFeatureId) (w : World) :
  loadFeatureIdAttributes featureIdAttributes w = (Ok [], w).
Proof. reflexivity. Qed.

Lemma loadPrimitive_featureIdAttributes gltf gltfPrimitive morphWeights
    supportedImageFormats w primitive w' :
  loadPrimitive gltf gltfPrimitive morphWeights supportedImageFormats w
    = (Ok primitive, w') →
  primitive_featureIdAttributes primitive = [].
Proof.
  intros H. unfold loadPrimitive in H.
  inv_M; try reflexivity.
  all: match goal with
       | H : loadFeatureIdAttributes _ _ = _ |- _ => injection H as <- <-
       end; reflexivity.
Qed.

Lemma loadInstances_featureIdAttributes gltf instancingExtension frameState w instances w' :
  loadInstances gltf instancingExtension frameState w = (Ok instances, w') →
  instances_featureIdAttributes instances = [].
Proof.
  intros H. unfold loadInstances in H.
  inv_M; try reflexivity.
  all: match goal with
       | H : loadFeatureIdAttributes _ _ = _ |- _ => injection H as <- <-
       end; reflexivity.
Qed.

End FeatureIds.

(** C5, at the failing input: the sample primitive and the sample instancing
    block each declare one feature-id attribute, and none is pushed. *)
Theorem featureIdAttributes_declared_not_loaded :
  let gltf := sample_gltf None None in
  let primitive_run :=
    loadPrimitive (collaborators := sample_collaborators) gltf sample_primitive None
      sample_supportedImageFormats sample_world in
  let instances_run :=
    loadInstances (collaborators := sample_collaborators) gltf sample_instancing
      sample_frameState sample_world in
  (fm_featureIdAttributes <$>
     (gprimitive_extensions sample_primitive ≫= primitive_EXT_feature_metadata))
    = Some (Some [sample_featureId])
  ∧ (fm_featureIdAttributes <$>
       (instancing_extensions sample_instancing ≫= instancing_EXT_feature_metadata))
    = Some (Some [sample_featureId])
  ∧ (∃ primitive,
       primitive_run.1 = Ok primitive ∧ primitive_featureIdAttributes primitive = [])
  ∧ (∃ instances,
       instances_run.1 = Ok instances ∧ instances_featureIdAttributes instances = []).
Proof.
  vm_compute. split; [reflexivity|]. split; [reflexivity|].
  split; eexists; (split; [reflexivity|]); reflexivity.
Qed.

(** ** Morph weights *)

Section MorphWeights.

Context {collaborators : Collaborators}.

Lemma forEachCollect_length {A B} (body : A → M B) (l : list A) w ys w' :
  forEachCollect l body w = (Ok ys, w') → length ys = length l.
Proof.
  intros H. symmetry. eapply Forall2_length.
  eapply (forEachCollect_Forall2 (λ _ _, True)); [done|eassumption].
Qed.

Lemma loadPrimitive_morphWeights gltf gltfPrimitive morphWeights supportedImageFormats
    w primitive w' targets :
  loadPrimitive gltf gltfPrimitive morphWeights supportedImageFormats w
    = (Ok primitive, w') →
  gprimitive_targets gltfPrimitive = Some targets →
  length (primitive_morphTargets primitive) = length targets
  ∧ primitive_morphWeights primitive =
      match morphWeights with
      | Some declared => declared
      | None => replicate (length targets) 0%float
      end.
Proof.
  intros H Ht. unfold loadPrimitive in H. rewrite Ht in H.
  inv_M; (split; [|reflexivity]); simpl;
    match goal with
    | H : forEachCollect targets _ _ = _ |- _ => by apply forEachCollect_length in H
    end.
Qed.

(** C7. A node's primitives get their morph weights from the node's
    [weights] if it declares them, else from the mesh's [weights] if it
    declares them, else they are an array of zeros with one entry per morph
    target; declared weights are copied element for element, and every
    declared target is loaded. *)
Theorem morphWeights_node_mesh_zero gltf gltfNode supportedImageFormats frameState
    w node w' meshId mesh :
  loadNode gltf gltfNode supportedImageFormats frameState w = (Ok node, w') →
  gnode_mesh gltfNode = Some meshId →
  gltf_meshes gltf !! meshId = Some mesh →
  Forall2 (λ gltfPrimitive primitive,
      ∀ targets, gprimitive_targets gltfPrimitive = Some targets →
        length (primitive_morphTargets primitive) = length targets
        ∧ primitive_morphWeights primitive =
            match gnode_weights gltfNode with
            | Some nodeWeights => nodeWeights
            | None =>
                match mesh_weights mesh with
                | Some meshWeights => meshWeights
                | None => replicate (length targets) 0%float
                end
            end)
    (mesh_primitives mesh) (node_primitives node).
Proof.
  intros H Hmesh Hlookup. unfold loadNode, Node_extensions in H.
  rewrite Hmesh, Hlookup in H. simpl in H. inv_M.
  match goal with
  | H : forEachCollect _ _ _ = _ |- _ =>
      eapply forEachCollect_Forall2 in H; [exact H|]
  end.
  intros gltfPrimitive w1 primitive w2 Hp targets Ht.
  destruct (loadPrimitive_morphWeights _ _ _ _ _ _ _ _ Hp Ht) as [Hlen Hw].
  split; [exact Hlen|]. rewrite Hw.
  unfold defaultValue. destruct (gnode_weights gltfNode); [reflexivity|].
  by destruct (mesh_weights _).
Qed.

End MorphWeights.

(** The sample node declares no weights and its mesh declares two. *)
Lemma morphWeights_node_mesh_zero_witness :
  let gltf := sample_gltf None (Some [0.5%float; 0.25%float]) in
  let gltfNode := sample_node (Some 0) (Some 0) None (Some [1]) in
  ∃ node w',
    loadNode (collaborators := sample_collaborators) gltf gltfNode
      sample_supportedImageFormats sample_frameState sample_world = (Ok node, w')
    ∧ Forall2 (λ gltfPrimitive primitive,
        ∀ targets, gprimitive_targets gltfPrimitive = Some targets →
          length (primitive_morphTargets primitive) = length targets
          ∧ primitive_morphWeights primitive = [0.5%float; 0.25%float])
      [sample_primitive] (node_primitives node).
Proof.
  cbv zeta. eexists _, _. split; [vm_compute; reflexivity|].
  eapply (morphWeights_node_mesh_zero (collaborators := sample_collaborators)
            (sample_gltf None (Some [0.5%float; 0.25%float]))
            (sample_node (Some 0) (Some 0) None (Some [1]))
            sample_supportedImageFormats sample_frameState sample_world _ _ 0
            (sample_mesh (Some [0.5%float; 0.25%float])));
    [vm_compute; reflexivity|reflexivity|reflexivity].
Defined.

(** ** Node skins *)

Section NodeSkins.

Context {collaborators : Collaborators}.

Lemma loadNode_skin gltf gltfNode supportedImageFormats frameState w node w' :
  loadNode gltf gltfNode supportedImageFormats frameState w = (Ok node, w') →
  node_skin node = None.
Proof.
  intros H. unfold loadNode, Node_extensions in H. simpl in H. inv_M; reflexivity.
Qed.

(** C10. Every node that [loadNodes] produces has an [undefined] skin, also
    when the document declares a skin for it: the value assigned is what
    [loadSkin] returns, and it returns nothing. *)
Theorem loaded_nodes_have_no_skin gltf supportedImageFormats frameState w nodes w' :
  loadNodes gltf supportedImageFormats frameState w = (Ok nodes, w') →
  Forall (λ node, node_skin node = None) nodes.
Proof.
  intros H. unfold loadNodes in H. inv_M.
  match goal with
  | H : forEachCollect _ (λ gltfNode, loadNode _ _ _ _) _ = _ |- _ =>
      apply (forEachCollect_Forall (λ node, node_skin node = None)) in H;
        [rename H into Hloaded|by intros; eapply loadNode_skin]
  end.
  match goal with
  | H : forEachCollect (zip _ _) _ _ = _ |- _ =>
      apply (forEachCollect_Forall (λ node, node_skin node = None)) in H; [exact H|]
  end.
  intros [node gltfNode] w1 node' w2 Hin Hstep.
  apply elem_of_zip_l, elem_of_zip_with in Hin as (node0 & gltfNode0 & -> & Hin0 & _).
  assert (Hskin : node_skin node0 = None).
  { eapply Forall_forall in Hloaded; eassumption. }
  destruct (gnode_skin gltfNode) as [skinId|].
  - inv_M.
    match goal with
    | H : loadSkin _ _ _ _ = _ |- _ => rewrite loadSkin_run in H; injection H as <- _
    end.
    reflexivity.
  - inv_M. by destruct (gnode_children gltfNode0).
Qed.

End NodeSkins.

(** The first node of the sample document declares skin 0. *)
Lemma loaded_nodes_have_no_skin_witness :
  let gltf := sample_gltf None None in
  (gnode_skin <$> (gltf_nodes gltf ≫= (.!! 0))) = Some (Some 0)
  ∧ ∃ nodes w',
      loadNodes (collaborators := sample_collaborators) gltf
        sample_supportedImageFormats sample_frameState sample_world = (Ok nodes, w')
      ∧ length nodes = 2
      ∧ Forall (λ node, node_skin node = None) nodes.
Proof.
  cbv zeta. split; [reflexivity|].
  eexists _, _. split; [vm_compute; reflexivity|]. split; [reflexivity|].
  eapply (loaded_nodes_have_no_skin (collaborators := sample_collaborators)
            (sample_gltf None None) sample_supportedImageFormats sample_frameState
            sample_world).
  vm_compute; reflexivity.
Defined.

(** ** Attributes out of a compressed payload *)

Section Draco.

Context {collaborators : Collaborators}.

(** C6, amended. On a loader that has not been destroyed, when the vertex
    buffer loader of an attribute that comes out of a Draco payload resolves
    with its quantization, the attribute gets the loader's buffer, byte
    offset 0, no byte stride, the quantization's component datatype and the
    quantization itself, and its type becomes VEC2 when the quantization is
    oct-encoded, whatever type the accessor declared (and stays the
    accessor's otherwise); its other fields and the loader are untouched. *)
Theorem draco_attribute_retyped attribute draco semantic vertexBufferLoader
    quantization (a : Attribute) (w : World) :
  isDestroyed (loader w) = false →
  is_Some (draco_attribute draco semantic) →
  loader_quantization vertexBufferLoader = Some quantization →
  heap_attributes (heap w) !! attribute = Some a →
  ∃ w' a',
    run_continuation (VertexAttributeThen attribute draco semantic) vertexBufferLoader w
      = (Ok tt, w')
    ∧ heap_attributes (heap w') !! attribute = Some a'
    ∧ attribute_buffer a' = loader_vertexBuffer vertexBufferLoader
    ∧ attribute_byteOffset a' = Some 0%Z
    ∧ attribute_byteStride a' = None
    ∧ attribute_quantization a' = Some quantization
    ∧ attribute_componentDatatype a' = quantization_componentDatatype quantization
    ∧ attribute_type a' =
        (if quantization_octEncoded quantization then Some VEC2 else attribute_type a)
    ∧ (attribute_semantic a', attribute_constant a', attribute_normalized a',
       attribute_count a', attribute_min a', attribute_max a', attribute_typedArray a')
      = (attribute_semantic a, attribute_constant a, attribute_normalized a,
         attribute_count a, attribute_min a, attribute_max a, attribute_typedArray a)
    ∧ loader w' = loader w.
Proof.
  intros Hd [accessorId Hdraco] Hq Ha.
  simpl. unfold loadVertexAttribute_then.
  rewrite bind_run. unfold gets at 1. rewrite Hd, Hdraco, Hq.
  destruct quantization as [componentDatatype [|]];
    (eexists _, _; split; [reflexivity|]);
    cbn; rewrite !list_lookup_alter_eq, Ha; cbn;
    (split; [reflexivity|]); repeat split.
Qed.

End Draco.

(** The compressed NORMAL of the sample document (attribute 1, declared VEC3
    at byte offset 12) once loader 3 resolves with an oct-encoded
    quantization: through the callback alone, and through the whole run. *)
Lemma draco_attribute_retyped_witness :
  let fields := sample_vertexBuffer 7 (Some sample_octEncoded) in
  (attribute_type <$> heap_attributes (heap sample_assembled) !! 1) = Some (Some VEC3)
  ∧ (∃ w' a',
       run_continuation (collaborators := sample_collaborators)
         (VertexAttributeThen 1 (Some sample_draco) "NORMAL") fields sample_assembled
         = (Ok tt, w')
       ∧ heap_attributes (heap w') !! 1 = Some a'
       ∧ attribute_byteOffset a' = Some 0%Z
       ∧ attribute_byteStride a' = None
       ∧ attribute_quantization a' = Some sample_octEncoded
       ∧ attribute_type a' = Some VEC2)
  ∧ ∃ a',
      heap_attributes
        (heap (run (collaborators := sample_collaborators) sample_assembled
                 [LoaderResolves 3 fields])) !! 1 = Some a'
      ∧ attribute_byteOffset a' = Some 0%Z
      ∧ attribute_byteStride a' = None
      ∧ attribute_quantization a' = Some sample_octEncoded
      ∧ attribute_type a' = Some VEC2.
Proof.
  cbv zeta. split; [vm_compute; reflexivity|]. split.
  - destruct (draco_attribute_retyped (collaborators := sample_collaborators)
                1 (Some sample_draco) "NORMAL"
                (sample_vertexBuffer 7 (Some sample_octEncoded)) sample_octEncoded
                (sample_attribute_NORMAL) sample_assembled)
      as (w' & a' & Hrun & Ha' & _ & Hoff & Hstride & Hq & _ & Hty & _).
    + vm_compute; reflexivity.
    + eexists; vm_compute; reflexivity.
    + reflexivity.
    + vm_compute; reflexivity.
    + exists w', a'. repeat split; assumption.
  - vm_compute. eexists. split; [reflexivity|]. repeat split.
Defined.

(** C6 as stated fails on a destroyed loader: loader 3 of the sample
    document resolves with an oct-encoded quantization after the loader was
    destroyed, and the compressed NORMAL keeps the accessor's byte offset 12,
    stride 12 and type VEC3, with no quantization and no buffer. *)
Lemma draco_attribute_untouched_once_destroyed :
  let fields := sample_vertexBuffer 7 (Some sample_octEncoded) in
  let w := run (collaborators := sample_collaborators) sample_assembled
             [CallDestroy; LoaderResolves 3 fields] in
  ((sub_key <$> subs w !! 3)
     = Some (VertexBufferKey "model.gltf" "model.gltf" None (Some (sample_draco, "NORMAL")))
   ∧ (sub_promise <$> subs w !! 3) = Some Resolved
   ∧ ∃ a,
       heap_attributes (heap w) !! 1 = Some a
       ∧ attribute_semantic a = Some "NORMAL"
       ∧ attribute_byteOffset a = Some 12%Z
       ∧ attribute_byteStride a = Some 12%Z
       ∧ attribute_type a = Some VEC3
       ∧ attribute_quantization a = None
       ∧ attribute_buffer a = None)
  ∧ ¬ (∀ attribute draco semantic vertexBufferLoader quantization a w,
         is_Some (draco_attribute draco semantic) →
         loader_quantization vertexBufferLoader = Some quantization →
         heap_attributes (heap w) !! attribute = Some a →
         ∃ w' a',
           run_continuation (collaborators := sample_collaborators)
             (VertexAttributeThen attribute draco semantic) vertexBufferLoader w
             = (Ok tt, w')
           ∧ heap_attributes (heap w') !! attribute = Some a'
           ∧ attribute_byteOffset a' = Some 0%Z
           ∧ attribute_byteStride a' = None
           ∧ attribute_quantization a' = Some quantization).
Proof.
  cbv zeta. split.
  - vm_compute. split; [reflexivity|]. split; [reflexivity|].
    eexists. split; [reflexivity|]. repeat split.
  - intros Hclaim.
    assert (Hdraco : is_Some (draco_attribute (Some sample_draco) "NORMAL"))
      by (exists 1; vm_compute; reflexivity).
    assert (Ha : heap_attributes (heap sample_destroyed) !! 1
                 = Some sample_attribute_NORMAL)
      by (vm_compute; reflexivity).
    assert (Hd : isDestroyed (loader sample_destroyed) = true)
      by (vm_compute; reflexivity).
    destruct (Hclaim 1 (Some sample_draco) "NORMAL"
                (sample_vertexBuffer 7 (Some sample_octEncoded)) sample_octEncoded
                sample_attribute_NORMAL sample_destroyed Hdraco eq_refl Ha)
      as (w' & a' & Hrun & Ha' & Hoff & _).
    rewrite (run_continuation_destroyed _ _ _ Hd) in Hrun.
    assert (Hw : w' = sample_destroyed) by congruence.
    rewrite Hw, Ha in Ha'.
    assert (Ha'' : a' = sample_attribute_NORMAL) by congruence.
    rewrite Ha'' in Hoff. discriminate Hoff.
Qed.

(** ** Failures *)

Section Failures.

Context {collaborators : Collaborators}.

Lemma handleError_run (error : Error) (w : World) :
  handleError error w =
  promise_reject (getError "Failed to load glTF" error)
    (set_loader (with_state FAILED) (unloaded w)).
Proof.
  unfold handleError. rewrite bind_run, unload_run. reflexivity.
Qed.

Lemma handleError_spec (error : Error) (w : World) :
  let w' := (handleError error w).2 in
  (handleError error w).1 = Ok tt
  ∧ calls w' =
      calls w ++ unload_calls w ++ [PromiseReject (getError "Failed to load glTF" error)]
  ∧ _gltfJsonLoader (loader w') = None
  ∧ _loaders (loader w') = []
  ∧ _state (loader w') = FAILED
  ∧ isDestroyed (loader w') = isDestroyed (loader w)
  ∧ _promise (loader w') =
      match _promise (loader w) with
      | Pending => Rejected (getError "Failed to load glTF" error)
      | settled => settled
      end.
Proof.
  cbv zeta. rewrite handleError_run.
  destruct (unloaded_loader w) as (Hj & Hl & _ & Hp & Hd).
  pose proof (unloaded_calls w) as Hc.
  destruct (unloaded w) as [l h s c a wp mt cs].
  destruct l as [gr br ta kr asy inc j st p ls co d].
  cbn in Hj, Hl, Hp, Hd, Hc. subst j ls.
  unfold promise_reject. cbn. rewrite <- Hp, <- Hd, Hc.
  destruct p; cbn; rewrite <- app_assoc; repeat split.
Qed.

(** C2, amended. A failure of the document fetch, and the failure among the
    sub-loaders that rejects their aggregate, reach the loader through these
    two handlers.  On a loader that has not been destroyed each of them first
    performs the full unload (the document loader, if still held, is
    released, and every spawned sub-loader is unloaded) and only then rejects
    the public promise, with an error whose message is "Failed to load glTF"
    and whose cause is the originating error; the loader ends FAILED, and
    its promise, if it was pending, is rejected with that error. *)
Theorem failure_unloads_then_rejects (h : Handler) (error : Error) (w : World) :
  isDestroyed (loader w) = false →
  let w' := (run_handler h error w).2 in
  let surfaced := getError "Failed to load glTF" error in
  (run_handler h error w).1 = Ok tt
  ∧ calls w' = calls w ++ unload_calls w ++ [PromiseReject surfaced]
  ∧ _gltfJsonLoader (loader w') = None
  ∧ _loaders (loader w') = []
  ∧ _state (loader w') = FAILED
  ∧ (_promise (loader w) = Pending → _promise (loader w') = Rejected surfaced)
  ∧ error_message surfaced = "Failed to load glTF"
  ∧ error_cause surfaced = Some error.
Proof.
  intros Hd. cbv zeta.
  assert (Hrun : run_handler h error w = handleError error w).
  { destruct h; simpl; unfold load_otherwise, parse_otherwise;
      rewrite bind_run; unfold gets; rewrite Hd; reflexivity. }
  rewrite Hrun.
  destruct (handleError_spec error w) as (Hok & Hc & Hj & Hl & Hs & _ & Hp).
  repeat split; try assumption.
  intros Hpending. by rewrite Hp, Hpending.
Qed.

End Failures.

(** The two failures on the sample loader: the document fetch fails right
    after [load()], and loader 3 fails after assembly. *)
Lemma failure_unloads_then_rejects_witness :
  let e := ErrorMessage "decode failed" in
  let surfaced := ErrorCaused "Failed to load glTF" e in
  (let w' := (run_handler LoadOtherwise e
                sample_world).2 in
   calls w' = [CacheUnload 0; PromiseReject surfaced]
   ∧ _promise (loader w') = Rejected surfaced)
  ∧ (let w' := (run_handler ParseOtherwise e
                  sample_assembled).2 in
     calls w' =
       calls sample_assembled ++
       [LoaderUnload 1; LoaderUnload 2; LoaderUnload 3; LoaderUnload 2; LoaderUnload 2;
        LoaderUnload 4; PromiseReject surfaced]
     ∧ _promise (loader w') = Rejected surfaced)
  ∧ (let w' := run (collaborators := sample_collaborators) sample_world
                 [LoaderRejects 0 e] in
     calls w' = [CacheUnload 0; PromiseReject surfaced]
     ∧ _promise (loader w') = Rejected surfaced)
  ∧ (let w' := run (collaborators := sample_collaborators) sample_assembled
                 [LoaderRejects 3 e] in
     calls w' =
       calls sample_assembled ++
       [LoaderUnload 1; LoaderUnload 2; LoaderUnload 3; LoaderUnload 2; LoaderUnload 2;
        LoaderUnload 4; PromiseReject surfaced]
     ∧ _promise (loader w') = Rejected surfaced).
Proof.
  cbv zeta. split; [|split].
  - destruct (failure_unloads_then_rejects
                LoadOtherwise (ErrorMessage "decode failed") sample_world)
      as (_ & Hc & _ & _ & _ & Hp & _); [reflexivity|].
    split; [exact Hc|]. apply Hp. reflexivity.
  - destruct (failure_unloads_then_rejects
                ParseOtherwise (ErrorMessage "decode failed") sample_assembled)
      as (_ & Hc & _ & _ & _ & Hp & _); [vm_compute; reflexivity|].
    split; [rewrite Hc; vm_compute; reflexivity|]. apply Hp. vm_compute; reflexivity.
  - vm_compute. repeat split.
Defined.

(** C2 as stated fails on a destroyed loader: the document fetch, or loader
    3, fails after the loader was destroyed; the handler makes no call, and
    the public promise is never rejected. *)
Lemma failure_ignored_once_destroyed :
  let e := ErrorMessage "decode failed" in
  (let w := run (collaborators := sample_collaborators) sample_world [CallDestroy] in
   let w' := run (collaborators := sample_collaborators) w [LoaderRejects 0 e] in
   (sub_promise <$> subs w' !! 0) = Some (Rejected e)
   ∧ calls w' = calls w
   ∧ _state (loader w') = LOADING
   ∧ _promise (loader w') = Pending)
  ∧ (let w := run (collaborators := sample_collaborators) sample_assembled
                [CallDestroy] in
     let w' := run (collaborators := sample_collaborators) w [LoaderRejects 3 e] in
     (sub_promise <$> subs w' !! 3) = Some (Rejected e)
     ∧ calls w' = calls w
     ∧ _state (loader w') = PROCESSING
     ∧ _promise (loader w') = Pending)
  ∧ ¬ (∀ h error w,
         let w' := (run_handler h error w).2 in
         calls w' =
           calls w ++ unload_calls w ++
           [PromiseReject (getError "Failed to load glTF" error)]).
Proof.
  cbv zeta. split; [|split].
  - vm_compute. repeat split.
  - vm_compute. repeat split.
  - intros Hclaim.
    specialize (Hclaim LoadOtherwise (ErrorMessage "decode failed")
                  (run (collaborators := sample_collaborators) sample_world
                     [CallDestroy])).
    vm_compute in Hclaim. discriminate Hclaim.
Qed.

(** ** C1: completion of a load *)

(** *** What assembly leaves alone *)

Section Assembly.
Context {collaborators : Collaborators}.

Lemma sub_rel_refl l : sub_rel l l.
Proof.
  split.
  - intros r s H. exists s. repeat split; [done|]. exists []. by rewrite app_nil_r.
  - intros r s' H1 H2. congruence.
Qed.

Lemma sub_rel_trans l1 l2 l3 : sub_rel l1 l2 → sub_rel l2 l3 → sub_rel l1 l3.
Proof.
  intros [Ha Hb] [Ha' Hb']. split.
  - intros r s H. destruct (Ha r s H) as (s2 & H2 & Hp & ex & Hc & Hq).
    destruct (Ha' r s2 H2) as (s3 & H3 & Hp' & ex' & Hc' & Hq').
    exists s3. repeat split; [done|congruence|].
    exists (ex ++ ex'). split; [by rewrite Hc', Hc, app_assoc|by apply Forall_app].
  - intros r s3 H3 H1. destruct (l2 !! r) as [s2|] eqn:H2.
    + destruct (Ha' r s2 H2) as (s3' & H3' & _ & ex & Hc & Hq).
      assert (s3' = s3) by congruence. subst. rewrite Hc. apply Forall_app. split; [|done].
      by eapply Hb.
    + by eapply Hb'.
Qed.

Lemma keeps_refl w : keeps w w.
Proof. repeat split; apply sub_rel_refl. Qed.

Lemma keeps_trans w1 w2 w3 : keeps w1 w2 → keeps w2 w3 → keeps w1 w3.
Proof.
  intros (?&?&?&?&?&?&?) (?&?&?&?&?&?&?).
  unfold keeps. repeat (split; [congruence|]). by eapply sub_rel_trans.
Qed.

Lemma Keeps_ret {A} (a : A) : Keeps (mret a).
Proof. intros w. apply keeps_refl. Qed.

Lemma Keeps_skip : Keeps skip.
Proof. intros w. apply keeps_refl. Qed.

Lemma Keeps_throw {A} e : Keeps (throw e : M A).
Proof. intros w. apply keeps_refl. Qed.

Lemma Keeps_gets {A} (f : World → A) : Keeps (gets f).
Proof. intros w. apply keeps_refl. Qed.

Lemma Keeps_js_deref {A} (o : option A) : Keeps (js_deref o).
Proof. destruct o; [apply Keeps_ret|apply Keeps_throw]. Qed.

Lemma Keeps_bind {A B} (m : M A) (f : A → M B) :
  Keeps m → (∀ a, Keeps (f a)) → Keeps (m ≫= f).
Proof.
  intros Hm Hf w. rewrite bind_run. specialize (Hm w).
  destruct (m w) as [[a|e] w1]; simpl in *; [|done].
  eapply keeps_trans; [exact Hm|apply Hf].
Qed.

Lemma Keeps_forEachCollect {A B} (l : list A) (body : A → M B) :
  (∀ x, Keeps (body x)) → Keeps (forEachCollect l body).
Proof.
  intros Hb. induction l as [|x l IH]; simpl.
  - apply Keeps_ret.
  - apply Keeps_bind; [apply Hb|]. intros y. apply Keeps_bind; [apply IH|].
    intros ys. apply Keeps_ret.
Qed.

Lemma Keeps_heap (f : Heap → Heap) : Keeps (modify (set_heap f)).
Proof. intros w. destruct w. repeat split; apply sub_rel_refl. Qed.

Lemma Keeps_alloc_attribute a : Keeps (alloc_attribute a).
Proof. intros w. destruct w. repeat split; apply sub_rel_refl. Qed.
Lemma Keeps_alloc_indices a : Keeps (alloc_indices a).
Proof. intros w. destruct w. repeat split; apply sub_rel_refl. Qed.
Lemma Keeps_alloc_texture a : Keeps (alloc_texture a).
Proof. intros w. destruct w. repeat split; apply sub_rel_refl. Qed.
Lemma Keeps_alloc_skin a : Keeps (alloc_skin a).
Proof. intros w. destruct w. repeat split; apply sub_rel_refl. Qed.
Lemma Keeps_alloc_components a : Keeps (alloc_components a).
Proof. intros w. destruct w. repeat split; apply sub_rel_refl. Qed.
Lemma Keeps_update_attribute r f : Keeps (update_attribute r f).
Proof. apply Keeps_heap. Qed.
Lemma Keeps_update_indices r f : Keeps (update_indices r f).
Proof. apply Keeps_heap. Qed.
Lemma Keeps_update_texture r f : Keeps (update_texture r f).
Proof. apply Keeps_heap. Qed.
Lemma Keeps_update_skin r f : Keeps (update_skin r f).
Proof. apply Keeps_heap. Qed.
Lemma Keeps_update_components r f : Keeps (update_components r f).
Proof. apply Keeps_heap. Qed.

Lemma Keeps_log c : Keeps (modify (log_call c)).
Proof. intros w. destruct w. repeat split; apply sub_rel_refl. Qed.

Lemma Keeps_push_loader r : Keeps (push_loader r).
Proof. intros w. destruct w as [[] ? ? ? ? ? ? ?]. repeat split; apply sub_rel_refl. Qed.

Lemma Keeps_set_components c : Keeps (modify (set_loader (with_components c))).
Proof. intros w. destruct w as [[] ? ? ? ? ? ? ?]. repeat split; apply sub_rel_refl. Qed.

Lemma sub_rel_snoc l s : sub_callbacks s = [] → sub_rel l (l ++ [s]).
Proof.
  intros Hs. split.
  - intros r s0 H. exists s0. split; [by apply lookup_app_l_Some|].
    split; [done|]. exists []. by rewrite app_nil_r.
  - intros r s' H1 H2. apply lookup_ge_None in H2.
    rewrite lookup_app_r in H1 by done.
    destruct (r - length l) as [|n]; simpl in H1; [|by destruct n].
    injection H1 as <-. rewrite Hs. constructor.
Qed.

Lemma Keeps_acquire key keepResident : Keeps (ResourceCache_acquire key keepResident).
Proof.
  intros w. unfold ResourceCache_acquire.
  destruct (list_find _ _) as [[i e]|]; destruct w; simpl.
  - repeat split; apply sub_rel_refl.
  - repeat split; by apply sub_rel_snoc.
Qed.

Lemma Keeps_new_loader key : Keeps (new_loader key).
Proof. intros w. destruct w; simpl. repeat split; by apply sub_rel_snoc. Qed.


Lemma heap_only_keeps w w' : heap_only w w' → keeps w w'.
Proof. intros [h ->]. destruct w. repeat split; apply sub_rel_refl. Qed.

Lemma set_heap_id w : w = set_heap (λ _, heap w) w.
Proof. by destruct w. Qed.

Lemma set_heap_heap_only f w : heap_only w (set_heap f w).
Proof. exists (f (heap w)). by destruct w. Qed.

Lemma heap_only_refl w : heap_only w w.
Proof. exists (heap w). apply set_heap_id. Qed.

Lemma heap_only_trans w1 w2 w3 : heap_only w1 w2 → heap_only w2 w3 → heap_only w1 w3.
Proof. intros [h ->] [h' ->]. exists h'. by destruct w1. Qed.


Lemma HeapOnly_bind {A B} (m : M A) (f : A → M B) :
  HeapOnly m → (∀ a, HeapOnly (f a)) → HeapOnly (m ≫= f).
Proof.
  intros Hm Hf w. rewrite bind_run. specialize (Hm w).
  destruct (m w) as [[a|e] w1]; simpl in *; [|done].
  eapply heap_only_trans; [exact Hm|apply Hf].
Qed.

Lemma HeapOnly_ret {A} (a : A) : HeapOnly (mret a).
Proof. intros w. apply heap_only_refl. Qed.
Lemma HeapOnly_skip : HeapOnly skip.
Proof. intros w. apply heap_only_refl. Qed.
Lemma HeapOnly_gets {A} (f : World → A) : HeapOnly (gets f).
Proof. intros w. apply heap_only_refl. Qed.
Lemma HeapOnly_js_deref {A} (o : option A) : HeapOnly (js_deref o).
Proof. destruct o; intros w; apply heap_only_refl. Qed.
Lemma HeapOnly_heap f : HeapOnly (modify (set_heap f)).
Proof. intros w. apply set_heap_heap_only. Qed.
Lemma HeapOnly_throw {A} e : HeapOnly (throw (A := A) e).
Proof. intros w. apply heap_only_refl. Qed.

Lemma quiet_heap_only k resolved : quiet k → HeapOnly (run_continuation k resolved).
Proof.
  destruct k; simpl; try done; intros _;
    unfold loadSkin_then, loadVertexAttribute_then, loadInstancedAttribute_buffer_then,
      loadInstancedAttribute_typedArray_then, loadIndices_then, loadTexture_then,
      parse_featureMetadata_then, getAccessorTypedArray, createArrayBufferView,
      update_skin, update_attribute, update_indices, update_texture, update_components;
    cbv zeta;
    repeat first
      [ apply HeapOnly_gets | apply HeapOnly_skip | apply HeapOnly_ret
      | apply HeapOnly_js_deref | apply HeapOnly_heap | apply HeapOnly_throw
      | apply HeapOnly_bind; [|intros ?]
      | match goal with
        | |- HeapOnly (if ?b then _ else _) => destruct b
        | |- HeapOnly (match ?x with _ => _ end) => destruct x
        end ].
Qed.

Lemma invoke_fulfilled_quiet cb resolved :
  quiet_callback cb → HeapOnly (invoke_fulfilled cb resolved).
Proof.
  intros [Hq Hh] w. unfold invoke_fulfilled. rewrite Hh.
  pose proof (quiet_heap_only _ resolved Hq w) as H.
  by destruct (run_continuation _ _ _) as [[|] ?].
Qed.

Lemma invoke_rejected_quiet cb e : quiet_callback cb → invoke_rejected cb e = skip.
Proof. intros [_ Hh]. unfold invoke_rejected. by rewrite Hh. Qed.

Lemma sub_rel_add_callback l r cb :
  quiet_callback cb →
  sub_rel l (alter (λ s, set_sub_callbacks (sub_callbacks s ++ [cb]) s) r l).
Proof.
  intros Hq. split.
  - intros r' s H. destruct (decide (r = r')) as [->|Hne].
    + eexists. rewrite list_lookup_alter_eq, H. split; [reflexivity|].
      split; [done|]. exists [cb]. split; [done|]. by constructor.
    + exists s. rewrite list_lookup_alter_ne by done. split; [done|]. split; [done|].
      exists []. by rewrite app_nil_r.
  - intros r' s' H1 H2. destruct (decide (r = r')) as [->|Hne].
    + rewrite list_lookup_alter_eq, H2 in H1. done.
    + rewrite list_lookup_alter_ne in H1 by done. congruence.
Qed.

Lemma Keeps_promise_then r k : quiet k → Keeps (promise_then r k None).
Proof.
  intros Hq w. unfold promise_then. rewrite bind_run. unfold gets.
  destruct (subs w !! r) as [s|] eqn:Hs; [|apply keeps_refl].
  assert (Hcb : quiet_callback {| callback_then := k; callback_otherwise := None |})
    by done.
  destruct (sub_promise s).
  - destruct w; unfold keeps; simpl. repeat (split; [reflexivity|]).
    by apply sub_rel_add_callback.
  - apply heap_only_keeps. by apply invoke_fulfilled_quiet.
  - rewrite invoke_rejected_quiet by done. apply keeps_refl.
Qed.

Lemma Keeps_loader_then r k : quiet k → Keeps (loader_then r k).
Proof.
  intros Hq. unfold loader_then. apply Keeps_bind; [apply Keeps_gets|].
  intros []; [by apply Keeps_promise_then|apply Keeps_throw].
Qed.


Create HintDb keeps.

Ltac keeps :=
  repeat first
    [ solve [auto with keeps] | progress cbv zeta
    | apply Keeps_ret | apply Keeps_skip | apply Keeps_throw | apply Keeps_gets
    | apply Keeps_js_deref
    | apply Keeps_alloc_attribute | apply Keeps_alloc_indices | apply Keeps_alloc_texture
    | apply Keeps_alloc_skin | apply Keeps_alloc_components
    | apply Keeps_update_attribute | apply Keeps_update_indices
    | apply Keeps_update_texture | apply Keeps_update_skin | apply Keeps_update_components
    | apply Keeps_push_loader | apply Keeps_acquire | apply Keeps_new_loader
    | apply Keeps_log | apply Keeps_set_components
    | apply Keeps_promise_then; exact I
    | apply Keeps_loader_then; exact I
    | apply Keeps_forEachCollect; intros ?
    | apply Keeps_bind; [|intros ?]
    | match goal with
      | |- Keeps (match ?x with _ => _ end) => destruct x
      | |- Keeps (if ?b then _ else _) => destruct b
      end ].

Lemma Keeps_loadVertexBuffer gltf accessorId semantic draco :
  Keeps (loadVertexBuffer gltf accessorId semantic draco).
Proof. unfold loadVertexBuffer, ResourceCache_loadVertexBuffer. keeps. Qed.
Lemma Keeps_loadIndexBuffer gltf accessorId draco :
  Keeps (loadIndexBuffer gltf accessorId draco).
Proof. unfold loadIndexBuffer, ResourceCache_loadIndexBuffer. keeps. Qed.
Lemma Keeps_loadBufferView gltf bufferViewId : Keeps (loadBufferView gltf bufferViewId).
Proof. unfold loadBufferView, ResourceCache_loadBufferView. keeps. Qed.
#[local] Hint Resolve Keeps_loadVertexBuffer Keeps_loadIndexBuffer Keeps_loadBufferView : keeps.

Lemma Keeps_loadSkin gltf gltfSkin nodes : Keeps (loadSkin gltf gltfSkin nodes).
Proof. unfold loadSkin, read_skin_inverseBindMatrices. keeps. Qed.
Lemma Keeps_createAttribute gltf accessorId semantic :
  Keeps (createAttribute gltf accessorId semantic).
Proof. unfold createAttribute. keeps. Qed.
#[local] Hint Resolve Keeps_loadSkin Keeps_createAttribute : keeps.

Lemma Keeps_loadVertexAttribute gltf accessorId semantic draco :
  Keeps (loadVertexAttribute gltf accessorId semantic draco).
Proof. unfold loadVertexAttribute. keeps. Qed.
Lemma Keeps_loadInstancedAttribute gltf accessorId semantic frameState :
  Keeps (loadInstancedAttribute gltf accessorId semantic frameState).
Proof. unfold loadInstancedAttribute. keeps. Qed.
Lemma Keeps_loadIndices gltf accessorId draco : Keeps (loadIndices gltf accessorId draco).
Proof. unfold loadIndices. keeps. Qed.
Lemma Keeps_loadTexture gltf textureInfo supportedImageFormats :
  Keeps (loadTexture gltf textureInfo supportedImageFormats).
Proof. unfold loadTexture, ResourceCache_loadTexture. keeps. Qed.
#[local] Hint Resolve Keeps_loadVertexAttribute Keeps_loadInstancedAttribute
  Keeps_loadIndices Keeps_loadTexture : keeps.

Lemma Keeps_loadTexture_if_defined gltf info supportedImageFormats slot :
  Keeps (loadTexture_if_defined gltf info supportedImageFormats slot).
Proof. unfold loadTexture_if_defined. keeps. Qed.
Lemma Keeps_reloadTexture_if_defined gltf slot supportedImageFormats :
  Keeps (reloadTexture_if_defined gltf slot supportedImageFormats).
Proof. unfold reloadTexture_if_defined, slot_as_textureInfo. keeps. Qed.
#[local] Hint Resolve Keeps_loadTexture_if_defined Keeps_reloadTexture_if_defined : keeps.

Lemma Keeps_loadMaterial gltf gltfMaterial supportedImageFormats :
  Keeps (loadMaterial gltf gltfMaterial supportedImageFormats).
Proof. unfold loadMaterial. keeps. Qed.
Lemma Keeps_loadFeatureIdAttribute gltfFeatureIdAttribute :
  Keeps (loadFeatureIdAttribute gltfFeatureIdAttribute).
Proof. unfold loadFeatureIdAttribute. keeps. Qed.
Lemma Keeps_loadFeatureIdTexture gltf gltfFeatureIdTexture supportedImageFormats :
  Keeps (loadFeatureIdTexture gltf gltfFeatureIdTexture supportedImageFormats).
Proof. unfold loadFeatureIdTexture. keeps. Qed.
#[local] Hint Resolve Keeps_loadMaterial Keeps_loadFeatureIdAttribute
  Keeps_loadFeatureIdTexture : keeps.

Lemma Keeps_loadFeatureIdAttributes featureIdAttributes :
  Keeps (loadFeatureIdAttributes featureIdAttributes).
Proof. unfold loadFeatureIdAttributes. keeps. Qed.
Lemma Keeps_loadMorphTarget gltf target : Keeps (loadMorphTarget gltf target).
Proof. unfold loadMorphTarget. keeps. Qed.
#[local] Hint Resolve Keeps_loadFeatureIdAttributes Keeps_loadMorphTarget : keeps.

Lemma Keeps_loadPrimitive gltf gltfPrimitive morphWeights supportedImageFormats :
  Keeps (loadPrimitive gltf gltfPrimitive morphWeights supportedImageFormats).
Proof. unfold loadPrimitive. keeps. Qed.
Lemma Keeps_loadInstances gltf instancingExtension frameState :
  Keeps (loadInstances gltf instancingExtension frameState).
Proof. unfold loadInstances. keeps. Qed.
#[local] Hint Resolve Keeps_loadPrimitive Keeps_loadInstances : keeps.

Lemma Keeps_loadNode gltf gltfNode supportedImageFormats frameState :
  Keeps (loadNode gltf gltfNode supportedImageFormats frameState).
Proof. unfold loadNode. keeps. Qed.
#[local] Hint Resolve Keeps_loadNode : keeps.

Lemma Keeps_loadNodes gltf supportedImageFormats frameState :
  Keeps (loadNodes gltf supportedImageFormats frameState).
Proof. unfold loadNodes. keeps. Qed.
Lemma Keeps_loadFeatureMetadata gltf extension supportedImageFormats :
  Keeps (loadFeatureMetadata gltf extension supportedImageFormats).
Proof. unfold loadFeatureMetadata. keeps. Qed.
Lemma Keeps_loadScene gltf nodes : Keeps (loadScene gltf nodes).
Proof. unfold loadScene, getSceneNodeIds. keeps. Qed.
#[local] Hint Resolve Keeps_loadNodes Keeps_loadFeatureMetadata Keeps_loadScene : keeps.


Lemma parse_settles_bind {A} (m : M A) (k : A → M unit) :
  Keeps m →
  (∀ a w, (∃ e w', k a w = (Throw e, w') ∧ keeps w w')
        ∨ (∃ w1, keeps w w1 ∧ k a w = when_all (_loaders (loader w1)) w1)) →
  ∀ w, (∃ e w', (m ≫= k) w = (Throw e, w') ∧ keeps w w')
     ∨ (∃ w1, keeps w w1 ∧ (m ≫= k) w = when_all (_loaders (loader w1)) w1).
Proof.
  intros Hm Hk w. rewrite bind_run. specialize (Hm w).
  destruct (m w) as [[a|e] w0]; simpl in Hm; [|left; eauto].
  destruct (Hk a w0) as [(e & w' & -> & Hw')|(w1 & Hw1 & ->)].
  - left. eexists _, _. split; [done|]. by eapply keeps_trans.
  - right. exists w1. split; [|done]. by eapply keeps_trans.
Qed.

Lemma parse_settles gltf supportedImageFormats frameState w :
  (∃ e w', parse gltf supportedImageFormats frameState w = (Throw e, w') ∧ keeps w w')
  ∨ (∃ w1, keeps w w1
       ∧ parse gltf supportedImageFormats frameState w = when_all (_loaders (loader w1)) w1).
Proof.
  revert w. unfold parse.
  do 7 (apply parse_settles_bind; [solve [keeps]|intros ?]).
  intros w. right. exists w. split; [apply keeps_refl|done].
Qed.

End Assembly.

(** *** What a run keeps true *)

Section Completion.
Context {collaborators : Collaborators}.

Lemma all_settlement_resolved ss ps :
  all_settlement ss ps = Resolved ↔
  Forall (λ r, sub_promise <$> ss !! r = Some Resolved) ps.
Proof.
  induction ps as [|r ps IH]; simpl.
  - split; [constructor|done].
  - rewrite Forall_cons.
    destruct (sub_promise <$> ss !! r) as [[| |e]|].
    + split; [by destruct (all_settlement ss ps)|by intros [[=] _]].
    + rewrite IH. split; [by split|by intros [_ ?]].
    + split; [done|by intros [[=] _]].
    + split; [by destruct (all_settlement ss ps)|by intros [[=] _]].
Qed.

Lemma all_settlement_rejected ss ps e :
  all_settlement ss ps = Rejected e →
  ∃ r, r ∈ ps ∧ sub_promise <$> ss !! r = Some (Rejected e).
Proof.
  induction ps as [|r ps IH]; simpl; [done|].
  destruct (sub_promise <$> ss !! r) as [[| |e']|] eqn:Hr.
  - destruct (all_settlement ss ps); try done. intros [= ->].
    destruct IH as (r' & ? & ?); [done|]. exists r'. split; [by right|done].
  - intros H. destruct (IH H) as (r' & ? & ?). exists r'. split; [by right|done].
  - intros [= ->]. exists r. split; [by left|done].
  - destruct (all_settlement ss ps); try done. intros [= ->].
    destruct IH as (r' & ? & ?); [done|]. exists r'. split; [by right|done].
Qed.

Lemma all_settlement_some_rejected ss ps r e :
  r ∈ ps → sub_promise <$> ss !! r = Some (Rejected e) →
  ∃ e', all_settlement ss ps = Rejected e'.
Proof.
  induction ps as [|r' ps IH]; simpl.
  - intros H. by apply elem_of_nil in H.
  - intros Hin He. apply elem_of_cons in Hin as [->|Hin].
    + rewrite He. by exists e.
    + destruct IH as [e0 ->]; [done|done|].
      destruct (sub_promise <$> ss !! r') as [[| |e']|]; eauto.
Qed.

(** *** What the two handlers of the aggregate leave *)

Lemma unloaded_view w : view (unloaded w) = (_state (loader w), _promise (loader w),
  isDestroyed (loader w), [], aggregate w, subs w).
Proof.
  destruct w as [[gr br ta kr asy inc j st p ls co d] h s c a wp mt cs].
  by destruct j.
Qed.

Lemma unloaded_rest w :
  aggregate (unloaded w) = aggregate w ∧ subs (unloaded w) = subs w.
Proof.
  destruct w as [[gr br ta kr asy inc j st p ls co d] h s c a wp mt cs].
  by destruct j.
Qed.

Lemma parse_then_run w :
  parse_then w =
  (Ok tt,
   if isDestroyed (loader w) then w
   else
     let w := log_call PromiseResolve (set_loader (with_state READY) w) in
     match _promise (loader w) with
     | Pending => set_loader (with_promise Resolved) w
     | _ => w
     end).
Proof.
  unfold parse_then. rewrite bind_run. unfold gets.
  destruct (isDestroyed (loader w)); [done|].
  rewrite bind_run. unfold modify, promise_resolve. cbv zeta.
  by destruct (_promise _).
Qed.

Lemma parse_otherwise_run e w :
  parse_otherwise e w =
  (Ok tt,
   if isDestroyed (loader w) then w
   else
     let w := log_call (PromiseReject (getError "Failed to load glTF" e))
                (set_loader (with_state FAILED) (unloaded w)) in
     match _promise (loader w) with
     | Pending => set_loader (with_promise (Rejected (getError "Failed to load glTF" e))) w
     | _ => w
     end).
Proof.
  unfold parse_otherwise. rewrite bind_run. unfold gets.
  destruct (isDestroyed (loader w)); [done|].
  rewrite handleError_run. unfold promise_reject. cbv zeta.
  by destruct (_promise _).
Qed.

Lemma parse_then_view w :
  isDestroyed (loader w) = false → _promise (loader w) = Pending →
  view (parse_then w).2 = (READY, Resolved, false, _loaders (loader w), aggregate w, subs w)
  ∧ _gltfJsonLoader (loader (parse_then w).2) = _gltfJsonLoader (loader w).
Proof.
  intros Hd Hp. rewrite parse_then_run, Hd. cbv zeta.
  cbn [snd loader log_call set_loader with_state _promise]. rewrite Hp.
  unfold view. cbn. by rewrite Hd.
Qed.

Lemma parse_otherwise_view e w :
  isDestroyed (loader w) = false → _promise (loader w) = Pending →
  view (parse_otherwise e w).2 =
    (FAILED, Rejected (getError "Failed to load glTF" e), false, [], aggregate w, subs w)
  ∧ _gltfJsonLoader (loader (parse_otherwise e w).2) = None.
Proof.
  intros Hd Hp. rewrite parse_otherwise_run, Hd. cbv zeta.
  cbn [snd loader log_call set_loader with_state _promise].
  destruct (unloaded_loader w) as (Hj & Hl & _ & Hp' & Hd').
  destruct (unloaded_rest w) as (Ha & Hs).
  rewrite Hp', Hp. unfold view.
  cbn [loader log_call set_loader with_state with_promise _state _promise isDestroyed
       _loaders aggregate subs _gltfJsonLoader].
  by rewrite Hd', Hd, Hl, Ha, Hs, Hj.
Qed.


Lemma aggregate_progress_assembling w :
  settled_as (view w) →
  let w' := (aggregate_progress w).2 in
  (aggregate_progress w).1 = Ok tt
  ∧ subs w' = subs w
  ∧ settled_as (view w')
  ∧ (∀ a', aggregate w' = Some a' → all_state a' = Pending →
       all_settlement (subs w') (all_promises a') = Pending)
  ∧ (aggregate w = None → aggregate w' = None)
  ∧ (_gltfJsonLoader (loader w') = None
     ∨ _gltfJsonLoader (loader w') = _gltfJsonLoader (loader w)).
Proof.
  intros Hs. unfold aggregate_progress.
  destruct (aggregate w) as [[ps sa]|] eqn:Ha;
    [|cbn; repeat split; auto; intros; congruence].
  destruct sa as [| |e0]; cbn [all_state all_promises];
    [|cbn; repeat split; auto; try (intros; congruence);
      intros a' Ha'; rewrite Ha in Ha'; injection Ha' as <-; discriminate..].
  unfold view, settled_as in Hs. rewrite Ha in Hs. cbn in Hs.
  destruct Hs as (Hls & Hp & Hst).
  destruct (all_settlement (subs w) ps) as [| |e] eqn:Hall.
  - cbn. split; [done|]. split; [done|]. split; [|split; [|split; [done|by right]]].
    + unfold view, settled_as. rewrite Ha. by cbn.
    + intros a' Ha'. rewrite Ha in Ha'. by injection Ha' as <-.
  - apply all_settlement_resolved in Hall.
    set (w0 := set_aggregate _ w).
    unfold invoke_fulfilled. cbn [parse_callback callback_then run_continuation].
    destruct (isDestroyed (loader w)) eqn:Hd.
    + rewrite (run_continuation_destroyed ParseThen no_fields w0 Hd).
      cbn [fst snd]. split; [done|]. split; [done|].
      split; [|split; [|split; [done|by right]]].
      * unfold view, settled_as. cbn. rewrite Hd, Hp, Hst.
        split; [done|split; [done|by right]].
      * by intros a' [= <-].
    + destruct (parse_then_view w0 Hd Hp) as [Hv Hj].
      pose proof (parse_then_run w0) as Hrun.
      destruct (parse_then w0) as [r w1]. injection Hrun as -> _.
      cbn [fst snd] in *. split; [done|]. split; [exact (f_equal snd Hv)|].
      split; [|split; [|split; [done|by right]]].
      * rewrite Hv. cbn. split; [done|split; [done|by left]].
      * intros a' Ha'. pose proof (f_equal (λ v, v.1.2) Hv) as Hagg.
        cbn in Hagg. rewrite Hagg in Ha'. by injection Ha' as <-.
  - apply all_settlement_rejected in Hall.
    set (w0 := set_aggregate _ w).
    unfold invoke_rejected, swallow.
    cbn [parse_callback callback_otherwise fst snd].
    destruct (isDestroyed (loader w)) eqn:Hd.
    + rewrite (run_handler_destroyed ParseOtherwise e w0 Hd).
      cbn [fst snd]. split; [done|]. split; [done|].
      split; [|split; [|split; [done|by right]]].
      * unfold view, settled_as. cbn. rewrite Hd, Hp, Hst.
        split; [done|split; [done|by right]].
      * by intros a' [= <-].
    + destruct (parse_otherwise_view e w0 Hd Hp) as [Hv Hj].
      cbn [run_handler]. split; [done|]. split; [exact (f_equal snd Hv)|].
      split; [|split; [|split; [done|by left]]].
      * rewrite Hv. cbn. split; [by right|split; [done|by left]].
      * intros a' Ha'. pose proof (f_equal (λ v, v.1.2) Hv) as Hagg.
        cbn in Hagg. rewrite Hagg in Ha'. by injection Ha' as <-.
Qed.


(** *** The invariant does not look at what teardown changes *)

Lemma fetching_not_assembled st pr d d' ls ls' agg ss :
  fetching (st, pr, d, ls, agg, ss) → fetching (st, pr, d', ls', agg, ss).
Proof. done. Qed.

Lemma assembling_torn st pr d d' ls agg ss j :
  (d = true → d' = true) →
  assembling (st, pr, d, ls, agg, ss) j → assembling (st, pr, d', [], agg, ss) None.
Proof.
  intros Hd (Hq & Hs & Hi). split; [done|]. split.
  - unfold settled_as in *. destruct agg as [[ps [| |e]]|]; cbn in *; [| | |done].
    + split; [by right|tauto].
    + split; [by right|]. destruct Hs as (_ & ? & [?|(? & ?)]); auto.
    + split; [by right|]. destruct Hs as (_ & ? & [?|(? & ?)]); auto.
  - intros a Ha. destruct (Hi a Ha) as [_ ?]. done.
Qed.

Lemma assembling_same st pr d ls agg ss j :
  assembling (st, pr, d, ls, agg, ss) j → assembling (st, pr, d, ls, agg, ss) None.
Proof.
  intros (Hq & Hs & Hi). split; [done|]. split; [done|].
  intros a Ha. destruct (Hi a Ha) as [_ ?]. done.
Qed.

Lemma Inv_same_view w w' :
  view w' = view w →
  (_gltfJsonLoader (loader w') = None
   ∨ _gltfJsonLoader (loader w') = _gltfJsonLoader (loader w)) →
  Inv w → Inv w'.
Proof.
  unfold Inv. intros -> Hj [H|H]; [by left|right].
  destruct Hj as [-> | ->]; [|done].
  destruct (view w) as [[[[[st pr] d] ls] agg] ss]. by eapply assembling_same.
Qed.

Lemma Inv_unloaded w : Inv w → Inv (unloaded w).
Proof.
  unfold Inv. rewrite unloaded_view.
  destruct (unloaded_loader w) as (-> & _). intros [H|H]; [by left|right].
  by eapply assembling_torn.
Qed.

Lemma Inv_unload w : Inv w → Inv (unload w).2.
Proof. rewrite unload_run. apply Inv_unloaded. Qed.

Lemma Inv_destroy w : Inv w → Inv (destroy w).2.
Proof.
  unfold destroy. rewrite bind_run, unload_run. unfold modify. cbn [snd].
  unfold Inv. intros HI.
  assert (Hv : view (set_loader with_destroyed (unloaded w)) =
    (_state (loader w), _promise (loader w), true, [], aggregate w, subs w)).
  { pose proof (unloaded_view w) as Hv. unfold view in *.
    cbn [loader set_loader with_destroyed _state _promise isDestroyed _loaders
         aggregate subs]. congruence. }
  rewrite Hv. cbn [loader set_loader with_destroyed _gltfJsonLoader].
  destruct (unloaded_loader w) as (-> & _). destruct HI as [H|H]; [by left|right].
  unfold view in H. eapply assembling_torn; [|exact H]. done.
Qed.


(** *** Settling a sub-loader *)

Lemma invoke_fulfilled_ok cb resolved w : (invoke_fulfilled cb resolved w).1 = Ok tt.
Proof.
  unfold invoke_fulfilled. destruct (run_continuation _ _ _) as [[|e] w']; [done|].
  by destruct (callback_otherwise cb).
Qed.

Lemma forEach_fulfilled_quiet cbs resolved w :
  Forall quiet_callback cbs →
  ∃ h, forEach cbs (λ cb, invoke_fulfilled cb resolved) w = (Ok tt, set_heap (λ _, h) w).
Proof.
  intros Hq. revert w. induction Hq as [|cb cbs Hcb _ IH]; intros w; cbn [forEach].
  - exists (heap w). unfold mret, M_ret. f_equal. apply set_heap_id.
  - rewrite bind_run.
    pose proof (invoke_fulfilled_ok cb resolved w) as Hok.
    destruct (invoke_fulfilled_quiet cb resolved Hcb w) as [h1 Hh1].
    destruct (invoke_fulfilled cb resolved w) as [r w1]. cbn [fst snd] in *. subst r w1.
    destruct (IH (set_heap (λ _, h1) w)) as [h2 ->]. exists h2. by destruct w.
Qed.

Lemma forEach_rejected_quiet cbs e w :
  Forall quiet_callback cbs →
  forEach cbs (λ cb, invoke_rejected cb e) w = (Ok tt, w).
Proof.
  intros Hq. induction Hq as [|cb cbs Hcb _ IH]; cbn [forEach]; [done|].
  rewrite bind_run, invoke_rejected_quiet by done. exact IH.
Qed.

Lemma settled_kept_alter ss r s f :
  ss !! r = Some s → sub_promise s = Pending → settled_kept ss (alter f r ss).
Proof.
  intros Hs Hp r' p H Hne. destruct (decide (r = r')) as [->|Hr].
  - rewrite Hs in H. cbn in H. congruence.
  - by rewrite list_lookup_alter_ne.
Qed.

Lemma settled_as_kept st pr d ls agg ss ss' :
  settled_kept ss ss' →
  settled_as (st, pr, d, ls, agg, ss) → settled_as (st, pr, d, ls, agg, ss').
Proof.
  intros Hk. unfold settled_as. destruct agg as [[ps [| |e]]|]; cbn; [done| | |done].
  - intros (? & Hall & ?). split; [done|]. split; [|done].
    eapply Forall_impl; [exact Hall|]. intros r Hr. by apply Hk.
  - intros (? & (r & ? & Hr) & ?). split; [done|]. split; [|done].
    exists r. split; [done|]. by apply Hk.
Qed.

Lemma callbacks_quiet_settle ss r f :
  (∀ s, sub_callbacks (f s) = []) →
  callbacks_quiet ss → callbacks_quiet (alter f r ss).
Proof.
  intros Hf Hq. apply Forall_alter; [done|]. intros s _ _. rewrite Hf. constructor.
Qed.

Lemma sub_rel_quiet ss ss' : sub_rel ss ss' → callbacks_quiet ss → callbacks_quiet ss'.
Proof.
  intros [Hold Hnew] Hq. apply Forall_lookup. intros i s' Hs'.
  destruct (ss !! i) as [s|] eqn:Hs; [|by eapply Hnew].
  destruct (Hold i s Hs) as (s'' & Hs'' & _ & extra & Hcb & Hextra).
  rewrite Hs' in Hs''. injection Hs'' as <-. rewrite Hcb. apply Forall_app. split; [|done].
  by eapply (proj1 (Forall_lookup _ _) Hq).
Qed.

Lemma aggregate_progress_none w : aggregate w = None → aggregate_progress w = (Ok tt, w).
Proof. intros H. unfold aggregate_progress. by rewrite H. Qed.

Lemma load_then_run w :
  load_then w =
  (Ok tt, if isDestroyed (loader w) then w else set_loader (with_state PROCESSING) w).
Proof.
  unfold load_then. rewrite bind_run. unfold gets. by destruct (isDestroyed (loader w)).
Qed.


Lemma modify_bind {B} g (k : unit → M B) w : (modify g ≫= k) w = k tt (g w).
Proof. done. Qed.

Lemma gets_bind {A B} (g : World → A) (k : A → M B) w : (gets g ≫= k) w = k (g w) w.
Proof. done. Qed.

Lemma forEach_one {A} (x : A) (body : A → M unit) w :
  forEach [x] body w =
  match body x w with
  | (Ok _, w') => (Ok tt, w')
  | (Throw e, w') => (Throw e, w')
  end.
Proof. cbn [forEach]. rewrite bind_run. by destruct (body x w) as [[[]|] ?]. Qed.

Lemma invoke_fulfilled_load resolved w :
  invoke_fulfilled load_callback resolved w =
  (Ok tt, if isDestroyed (loader w) then w else set_loader (with_state PROCESSING) w).
Proof.
  unfold invoke_fulfilled. cbn [load_callback callback_then run_continuation].
  by rewrite load_then_run.
Qed.

Lemma invoke_rejected_load e w :
  invoke_rejected load_callback e w = (Ok tt, (parse_otherwise e w).2).
Proof. done. Qed.

Lemma assembling_settle w r s f h :
  assembling (view w) (_gltfJsonLoader (loader w)) →
  subs w !! r = Some s → sub_promise s = Pending →
  (∀ s, sub_callbacks (f s) = []) →
  let w2 := set_heap (λ _, h) (set_subs (alter f r) w) in
  (aggregate_progress w2).1 = Ok tt ∧ Inv (aggregate_progress w2).2.
Proof.
  intros (Hq & Hs & Hi) Hr Hp Hf w2.
  assert (Hs2 : settled_as (view w2)).
  { eapply settled_as_kept; [by eapply settled_kept_alter|exact Hs]. }
  destruct (aggregate_progress_assembling w2 Hs2) as (Hok & Hsubs & Hs3 & Hstep & Hnone & Hj).
  split; [done|]. right. split; [|split; [done|]].
  - unfold view. cbn [snd]. rewrite Hsubs. by apply callbacks_quiet_settle.
  - unfold view, in_step. intros a Ha. split; [|by apply Hstep].
    destruct Hj as [Hj|Hj]; [done|]. rewrite Hj.
    destruct (aggregate w) as [a0|] eqn:Ha0.
    + unfold view, in_step in Hi. by destruct (Hi a0 Ha0).
    + rewrite Hnone in Ha; done.
Qed.

Lemma Inv_resolve r fields w : Inv w → Inv (resolve_loader r fields w).2.
Proof.
  intros HI. unfold resolve_loader. rewrite bind_run. unfold gets.
  destruct (subs w !! r) as [s|] eqn:Hs; [|done].
  destruct (sub_promise s) eqn:Hps; [|done..].
  rewrite modify_bind, bind_run.
  set (f := λ s : SubLoader, set_sub_callbacks [] _).
  destruct HI as [Hf|Ha].
  - unfold view, fetching in Hf.
    destruct Hf as (s0 & Hss & Hp0 & Hcb & Hst & Hpr & Hagg).
    rewrite Hss in Hs. destruct r as [|r]; [|done]. injection Hs as ->.
    rewrite Hcb, forEach_one, invoke_fulfilled_load.
    rewrite aggregate_progress_none by (by destruct (isDestroyed _)).
    cbn [snd]. right. unfold assembling, view, settled_as, in_step.
    destruct (isDestroyed _);
      cbn [loader set_loader set_subs with_state _state _promise isDestroyed _loaders
           _gltfJsonLoader aggregate subs snd];
      rewrite Hagg, Hss, Hpr.
    all: split; [repeat constructor|].
    all: split; [left; split; [done|congruence]|by intros a [=]].
  - destruct Ha as (Hq & Ha).
    assert (Hqs : Forall quiet_callback (sub_callbacks s)).
    { by eapply (proj1 (Forall_lookup _ _) Hq). }
    destruct (forEach_fulfilled_quiet (sub_callbacks s) fields
                (set_subs (alter f r) w) Hqs) as [h ->].
    by eapply assembling_settle.
Qed.

Lemma Inv_reject r e w : Inv w → Inv (reject_loader r e w).2.
Proof.
  intros HI. unfold reject_loader. rewrite bind_run. unfold gets.
  destruct (subs w !! r) as [s|] eqn:Hs; [|done].
  destruct (sub_promise s) eqn:Hps; [|done..].
  rewrite modify_bind, bind_run.
  set (f := λ s : SubLoader, set_sub_callbacks [] _).
  set (w1 := set_subs (alter f r) w).
  destruct HI as [Hf|Ha].
  - unfold view, fetching in Hf.
    destruct Hf as (s0 & Hss & Hp0 & Hcb & Hst & Hpr & Hagg).
    rewrite Hss in Hs. destruct r as [|r]; [|done]. injection Hs as ->.
    rewrite Hcb, forEach_one, invoke_rejected_load.
    destruct (isDestroyed (loader w)) eqn:Hd.
    + rewrite (run_handler_destroyed ParseOtherwise e w1 Hd : parse_otherwise e w1 = _).
      cbn [snd]. rewrite aggregate_progress_none by done.
      cbn [snd]. right. unfold assembling, view, settled_as, in_step, w1.
      cbn [loader set_loader set_subs with_state _state _promise isDestroyed _loaders
           _gltfJsonLoader aggregate subs snd].
      rewrite Hagg, Hss, Hpr. split; [repeat constructor|].
      split; [left; split; [done|congruence]|by intros a [=]].
    + destruct (parse_otherwise_view e w1 Hd Hpr) as [Hv Hj].
      rewrite aggregate_progress_none
        by (exact (eq_trans (f_equal (λ v, v.1.2) Hv) Hagg)).
      cbn [snd]. right. unfold assembling. rewrite Hv, Hj.
      unfold settled_as, in_step, w1. cbn [set_subs aggregate subs snd].
      rewrite Hagg, Hss. split; [repeat constructor|].
      split; [right; eauto|by intros a [=]].
  - destruct Ha as (Hq & Ha).
    assert (Hqs : Forall quiet_callback (sub_callbacks s)).
    { by eapply (proj1 (Forall_lookup _ _) Hq). }
    rewrite forEach_rejected_quiet by done. rewrite (set_heap_id w1).
    by eapply assembling_settle.
Qed.


(** *** Assembly *)

Lemma keeps_assembling w w' j j' :
  keeps w w' → aggregate w = None →
  assembling (view w) j → assembling (view w') j'.
Proof.
  intros (Hst & Hpr & Hd & Hj & Hagg & _ & Hrel) Hnone (Hq & Hs & Hi).
  unfold assembling, view, settled_as, in_step in *. cbn [snd] in *.
  rewrite Hagg, Hnone, Hst, Hpr. rewrite Hnone in Hs.
  split; [by eapply sub_rel_quiet|]. split; [done|]. by intros a [=].
Qed.

Lemma skip_bind {B} (k : unit → M B) w : (skip ≫= k) w = k tt w.
Proof. done. Qed.

Lemma Inv_process frameState w : Inv w → Inv (process frameState w).2.
Proof.
  intros HI. unfold process. rewrite gets_bind.
  destruct (decide (_state (loader w) ≠ PROCESSING)) as [Hne|Hst]; [done|].
  apply dec_stable in Hst. rewrite gets_bind.
  destruct (supportsWebP w) as [webp|]; [|by eapply Inv_same_view; [|right|exact HI]].
  rewrite gets_bind.
  destruct (_gltfJsonLoader (loader w)) as [j|] eqn:Hj.
  - assert (Hasm : assembling (view w) (Some j) ∧ aggregate w = None).
    { destruct HI as [Hf|Ha].
      - unfold view, fetching in Hf. destruct Hf as (? & _ & _ & _ & ? & _). congruence.
      - rewrite Hj in Ha. split; [done|]. destruct Ha as (_ & _ & Hi).
        unfold view, in_step in Hi. destruct (aggregate w) as [a|]; [|done].
        by destruct (Hi a eq_refl). }
    destruct Hasm as [Hasm Hnone].
    rewrite bind_run, gets_bind.
    destruct (match subs w !! j with Some s => _ | None => None end) as [gltf|];
      [|exact HI].
    cbv beta. change (js_deref (Some gltf) ≫= ?k) with (k gltf). cbv beta.
    rewrite (bind_run (parse _ _ _)).
    destruct (parse_settles gltf
                {| supported_webp := webp;
                   supported_s3tc := context_s3tc frameState;
                   supported_pvrtc := context_pvrtc frameState;
                   supported_etc1 := context_etc1 frameState |} frameState w)
      as [(e & w' & -> & Hk)|(w1 & Hk & ->)].
    + right. by eapply keeps_assembling.
    + unfold when_all. rewrite modify_bind.
      set (w2 := set_aggregate _ w1).
      pose proof (keeps_assembling w w1 (Some j) None Hk Hnone Hasm) as (Hq1 & _).
      destruct Hasm as (_ & Hs & _). destruct Hk as (Hst1 & Hpr1 & _).
      assert (Hs2 : settled_as (view w2)).
      { unfold view, settled_as in *. rewrite Hnone in Hs. unfold w2.
        cbn [loader set_aggregate _state _promise isDestroyed _loaders aggregate subs
             all_state all_promises].
        rewrite Hst1, Hpr1, Hst. split; [by left|].
        destruct Hs as [[? _]|[? _]]; [done|congruence]. }
      destruct (aggregate_progress_assembling w2 Hs2)
        as (Hok & Hsubs & Hs3 & Hstep & _ & _).
      destruct (aggregate_progress w2) as [r w3]. cbn [fst snd] in *. subst r.
      unfold ResourceCache_unload. rewrite !modify_bind. unfold modify at 1.
      rewrite gets_bind, forEach_log. cbn [snd].
      right. split; [|split; [exact Hs3|]].
      * unfold view in *. cbn [snd subs log_calls set_loader log_call set_cache] in *.
        rewrite Hsubs. exact Hq1.
      * unfold view, in_step. intros a Ha. split; [done|]. by apply Hstep.
  - rewrite skip_bind, gets_bind, forEach_log. by eapply Inv_same_view; [|right|exact HI].
Qed.


(** *** Runs *)

Lemma Inv_loading options webp hasThen : Inv (loading options webp hasThen).
Proof. left. eexists. repeat split. Qed.

Lemma Inv_step w ev : Inv w → Inv (step w ev).
Proof.
  intros HI. destruct ev as [frameState| | |supported|r fields|r e]; cbn [step].
  - by apply Inv_process.
  - by apply Inv_unload.
  - by apply Inv_destroy.
  - by destruct (supportsWebP w).
  - by apply Inv_resolve.
  - by apply Inv_reject.
Qed.

Lemma Inv_run events : ∀ w, Inv w → Inv (run w events).
Proof.
  induction events as [|ev events IH]; intros w HI; [done|].
  apply IH. by apply Inv_step.
Qed.

(** C1, amended. In every run of a loader, destroyed or not, the public
    promise is resolved exactly when the state is READY, and then [parse] ran
    to its end and every loader it gathered for [when.all] has resolved: no
    partly loaded graph is handed over as a success. Once [parse] has made
    the aggregate, the loaders the loader holds are those of the aggregate
    (or none, after [unload]), and if the loader has not been destroyed, the
    promise is resolved and the state READY as soon as all of them have
    resolved, and the state is FAILED and the promise rejected with
    "Failed to load glTF" wrapping the reason of a rejected one as soon as any
    of them has rejected. *)
Theorem load_completes_atomically options webp hasThen events :
  let w := run (loading options webp hasThen) events in
  ((_promise (loader w) = Resolved ∨ _state (loader w) = READY) →
     _promise (loader w) = Resolved ∧ _state (loader w) = READY
     ∧ ∃ a, aggregate w = Some a ∧ Forall (resolved_in w) (all_promises a))
  ∧ (∀ a, aggregate w = Some a →
       (_loaders (loader w) = all_promises a ∨ _loaders (loader w) = [])
       ∧ (isDestroyed (loader w) = false →
            (Forall (resolved_in w) (all_promises a) →
               _promise (loader w) = Resolved ∧ _state (loader w) = READY)
            ∧ (∀ r, r ∈ all_promises a → rejected_in w r →
                 _state (loader w) = FAILED
                 ∧ ∃ r' e, r' ∈ all_promises a
                     ∧ promise_of w r' = Some (Rejected e)
                     ∧ _promise (loader w) =
                         Rejected (getError "Failed to load glTF" e)))).
Proof.
  intros w. pose proof (Inv_run events _ (Inv_loading options webp hasThen)) as HI.
  fold w in HI. clearbody w. unfold Inv, assembling, fetching, view, settled_as, in_step in HI.
  unfold resolved_in, rejected_in, promise_of. cbn [snd] in HI.
  destruct HI as [(s0 & _ & _ & _ & Hst & Hpr & Hagg)|(_ & Hs & Hi)].
  - rewrite Hst, Hpr, Hagg. split; [by intros [|]|by intros a].
  - destruct (aggregate w) as [[ps sa]|]; cbn [all_state all_promises] in *.
    + destruct (Hi _ eq_refl) as [_ Hstep]. destruct Hs as (Hls & Hs). split.
      * destruct sa as [| |e]; cbn [all_state all_promises] in *.
        -- destruct Hs as [-> ->]. by intros [|].
        -- destruct Hs as (Hall & [[-> ->]|(_ & -> & ->)]); [|by intros [|]].
           intros _. split; [done|]. split; [done|]. eauto.
        -- destruct Hs as (_ & [[-> ->]|(_ & -> & ->)]); by intros [|].
      * intros a [= <-]. cbn [all_state all_promises]. split; [done|]. intros Hd. split.
        -- intros Hall. apply all_settlement_resolved in Hall.
           destruct sa as [| |e]; cbn [all_state all_promises] in *.
           ++ rewrite Hstep in Hall by done. done.
           ++ destruct Hs as (_ & [?|(? & _)]); [done|congruence].
           ++ destruct Hs as ((r & Hr & Hrej) & _).
              apply all_settlement_resolved in Hall.
              rewrite Forall_forall in Hall. rewrite (Hall r Hr) in Hrej. done.
        -- intros r Hr [e Hrej].
           destruct sa as [| |e']; cbn [all_state all_promises] in *.
           ++ destruct (all_settlement_some_rejected _ _ _ _ Hr Hrej) as [e' He'].
              rewrite Hstep in He' by done. done.
           ++ destruct Hs as (Hall & _). rewrite Forall_forall in Hall.
              rewrite (Hall r Hr) in Hrej. done.
           ++ destruct Hs as ((r' & Hr' & Hrej') & [[-> ->]|(? & _)]); [|congruence].
              split; [done|]. by exists r', e'.
    + split.
      * destruct Hs as [[-> Hne]|[-> (e & ->)]]; by intros [|].
      * by intros a.
Qed.

End Completion.

(** The sample document: with every loader resolved the load is READY; with
    loader 3 rejected it is FAILED. *)
Lemma load_completes_atomically_witness :
  (let w := run (collaborators := sample_collaborators)
              (loading (collaborators := sample_collaborators)
                 sample_options (Some true) false) sample_completion in
   aggregate w = Some {| all_promises := [1; 2; 3; 2; 2; 4]; all_state := Resolved |}
   ∧ isDestroyed (loader w) = false
   ∧ Forall (resolved_in w) [1; 2; 3; 2; 2; 4]
   ∧ _promise (loader w) = Resolved
   ∧ _state (loader w) = READY)
  ∧ (let w := run (collaborators := sample_collaborators)
                (loading (collaborators := sample_collaborators)
                   sample_options (Some true) false) sample_failure in
     aggregate w
       = Some {| all_promises := [1; 2; 3; 2; 2; 4];
                 all_state := Rejected (ErrorMessage "decode failed") |}
     ∧ isDestroyed (loader w) = false
     ∧ rejected_in w 3
     ∧ _state (loader w) = FAILED).
Proof.
  cbv zeta. split.
  - assert (Ha : aggregate
              (run (collaborators := sample_collaborators)
                 (loading (collaborators := sample_collaborators)
                    sample_options (Some true) false) sample_completion)
            = Some {| all_promises := [1; 2; 3; 2; 2; 4]; all_state := Resolved |})
      by (vm_compute; reflexivity).
    assert (Hd : isDestroyed (loader
              (run (collaborators := sample_collaborators)
                 (loading (collaborators := sample_collaborators)
                    sample_options (Some true) false) sample_completion)) = false)
      by (vm_compute; reflexivity).
    assert (Hall : Forall (resolved_in
              (run (collaborators := sample_collaborators)
                 (loading (collaborators := sample_collaborators)
                    sample_options (Some true) false) sample_completion))
              [1; 2; 3; 2; 2; 4])
      by (repeat constructor; vm_compute; reflexivity).
    destruct (load_completes_atomically (collaborators := sample_collaborators)
                sample_options (Some true) false sample_completion) as [_ H].
    destruct (H _ Ha) as [_ H1]. destruct (H1 Hd) as [H2 _].
    destruct (H2 Hall) as [Hp Hs].
    repeat split; assumption.
  - assert (Ha : aggregate
              (run (collaborators := sample_collaborators)
                 (loading (collaborators := sample_collaborators)
                    sample_options (Some true) false) sample_failure)
            = Some {| all_promises := [1; 2; 3; 2; 2; 4];
                      all_state := Rejected (ErrorMessage "decode failed") |})
      by (vm_compute; reflexivity).
    assert (Hd : isDestroyed (loader
              (run (collaborators := sample_collaborators)
                 (loading (collaborators := sample_collaborators)
                    sample_options (Some true) false) sample_failure)) = false)
      by (vm_compute; reflexivity).
    assert (Hrej : rejected_in
              (run (collaborators := sample_collaborators)
                 (loading (collaborators := sample_collaborators)
                    sample_options (Some true) false) sample_failure) 3)
      by (exists (ErrorMessage "decode failed"); vm_compute; reflexivity).
    destruct (load_completes_atomically (collaborators := sample_collaborators)
                sample_options (Some true) false sample_failure) as [_ H].
    destruct (H _ Ha) as [_ H1]. destruct (H1 Hd) as [_ H2].
    destruct (H2 3) as [Hf _]; [by do 2 right; left|exact Hrej|].
    repeat split; assumption.
Defined.

(** C1 as stated fails on a destroyed loader: the sample loader is destroyed
    after loader 1 resolved; loaders 2, 3 and 4 then resolve, the aggregate
    resolves, and the public promise stays pending in state PROCESSING. *)
Lemma load_abandoned_once_destroyed :
  (let w := run (collaborators := sample_collaborators)
              (loading (collaborators := sample_collaborators)
                 sample_options (Some true) false) sample_abandonment in
   aggregate w = Some {| all_promises := [1; 2; 3; 2; 2; 4]; all_state := Resolved |}
   ∧ Forall (resolved_in w) [1; 2; 3; 2; 2; 4]
   ∧ isDestroyed (loader w) = true
   ∧ _promise (loader w) = Pending
   ∧ _state (loader w) = PROCESSING)
  ∧ ¬ (∀ events,
         let w := run (collaborators := sample_collaborators)
                    (loading (collaborators := sample_collaborators)
                       sample_options (Some true) false) events in
         ∀ a, aggregate w = Some a →
           Forall (resolved_in w) (all_promises a) →
           _promise (loader w) = Resolved ∧ _state (loader w) = READY).
Proof.
  cbv zeta.
  assert (Ha : aggregate
            (run (collaborators := sample_collaborators)
               (loading (collaborators := sample_collaborators)
                  sample_options (Some true) false) sample_abandonment)
          = Some {| all_promises := [1; 2; 3; 2; 2; 4]; all_state := Resolved |})
    by (vm_compute; reflexivity).
  assert (Hall : Forall (resolved_in
            (run (collaborators := sample_collaborators)
               (loading (collaborators := sample_collaborators)
                  sample_options (Some true) false) sample_abandonment))
            [1; 2; 3; 2; 2; 4])
    by (repeat constructor; vm_compute; reflexivity).
  assert (Hp : _promise (loader
            (run (collaborators := sample_collaborators)
               (loading (collaborators := sample_collaborators)
                  sample_options (Some true) false) sample_abandonment)) = Pending)
    by (vm_compute; reflexivity).
  split.
  - split; [exact Ha|]. split; [exact Hall|]. split; [vm_compute; reflexivity|].
    split; [exact Hp|vm_compute; reflexivity].
  - intros Hclaim. destruct (Hclaim sample_abandonment _ Ha Hall) as [Hres _].
    rewrite Hp in Hres. discriminate Hres.
Qed.

(** * Further properties of the loader *)

Section AccessorTypedArray.

Context {collaborators : Collaborators}.

Lemma foldl_insert_length {A B} (index : B → nat) (value : B → A) (xs : list B) :
  ∀ l : list A, length (foldl (λ acc x, <[index x := value x]> acc) l xs) = length l.
Proof.
  induction xs as [|x xs IH]; intros l; simpl; [done|].
  by rewrite IH, length_insert.
Qed.

Lemma foldl_insert_other {A B} (index : B → nat) (value : B → A) (xs : list B) k :
  (∀ x, x ∈ xs → index x ≠ k) →
  ∀ l : list A, foldl (λ acc x, <[index x := value x]> acc) l xs !! k = l !! k.
Proof.
  induction xs as [|x xs IH]; intros Hk l; simpl; [done|].
  rewrite IH by (intros y Hy; apply Hk; by right).
  apply list_lookup_insert_ne, Hk. by left.
Qed.

Lemma foldl_rows_length {A} (rows : list nat) (body : list A → nat → list A) :
  (∀ l i, length (body l i) = length l) →
  ∀ l, length (foldl body l rows) = length l.
Proof.
  intros Hbody. induction rows as [|i rows IH]; intros l; simpl; [done|].
  by rewrite IH, Hbody.
Qed.

Lemma foldl_rows_other {A} (rows : list nat) (body : list A → nat → list A) k :
  (∀ l i, body l i !! k = l !! k) →
  ∀ l, foldl body l rows !! k = l !! k.
Proof.
  intros Hbody. induction rows as [|i rows IH]; intros l; simpl; [done|].
  by rewrite IH, Hbody.
Qed.

(** X1. [getAccessorTypedArray] first asks for a view of
    [componentStride * count * componentCount] elements of the buffer, and
    the typed array constructor throws a RangeError on a buffer too short for
    it: a call that returns had a buffer that holds the whole view. In the
    strided case it then returns an array of [count * componentCount]
    elements in which element [k] is the 0 the array was created with
    whenever [componentCount ≤ k mod count]: the copy stores row [i] from
    index [i * count] on, not from [i * componentCount]. *)
Theorem getAccessorTypedArray_strided gltf accessor bufferViewTypedArray w
    accessorTypedArray w' k :
  let count := accessor_count accessor in
  let componentCount := numberOfComponentsForType (accessor_type accessor) in
  let byteStride := getAccessorByteStride gltf accessor in
  let componentByteLength := getSizeInBytes (accessor_componentType accessor) in
  getAccessorTypedArray gltf accessor bufferViewTypedArray w = (Ok accessorTypedArray, w') →
  byteStride ≠ (componentByteLength * Z.of_nat componentCount)%Z →
  k < count * componentCount →
  componentCount ≤ k mod count →
  (typedArray_byteOffset bufferViewTypedArray + accessor_byteOffset accessor
     + Z.quot (byteStride * Z.of_nat (count * componentCount)) componentByteLength
       * componentByteLength
   ≤ Z.of_nat (length (typedArray_buffer bufferViewTypedArray)))%Z
  ∧ length accessorTypedArray = count * componentCount
  ∧ accessorTypedArray !! k = Some 0%float
  ∧ w' = w.
Proof.
  intros count componentCount byteStride componentByteLength Hrun Hstride Hk Hmod.
  unfold getAccessorTypedArray, createArrayBufferView in Hrun. cbv zeta in Hrun.
  fold count componentCount byteStride componentByteLength in Hrun.
  rewrite bind_run in Hrun.
  destruct (decide _) as [(_ & _ & _ & Hfits)|_] in Hrun; [|discriminate Hrun].
  unfold mret at 1, M_ret at 1 in Hrun.
  rewrite decide_False in Hrun by exact Hstride.
  injection Hrun as <- <-. split; [exact Hfits|]. split; [|split; [|reflexivity]].
  - rewrite foldl_rows_length.
    + unfold createTypedArray. apply length_replicate.
    + intros l i. apply foldl_insert_length.
  - rewrite foldl_rows_other.
    + unfold createTypedArray. by apply lookup_replicate_2.
    + intros l i. apply foldl_insert_other. intros j Hj Heq.
      apply elem_of_seq in Hj as [_ Hj]. simpl in Hj.
      assert (Hc : count ≠ 0) by (intros H0; rewrite H0 in Hk; lia).
      assert (Hlt : k mod count < count) by (by apply Nat.mod_upper_bound).
      assert (Hjc : j < count) by lia.
      rewrite <- Heq, Nat.add_comm, Nat.Div0.mod_add, Nat.mod_small in Hmod by exact Hjc.
      lia.
Qed.

End AccessorTypedArray.

(** Three scalars 32 bytes apart in a buffer of 96 bytes: the second and
    third slot are never written. *)
Lemma getAccessorTypedArray_strided_witness :
  ∃ a,
    getAccessorTypedArray (collaborators := interleaved_collaborators)
      (sample_gltf None None) (sample_accessor (Some 0) 0 SCALAR)
      sample_typedArray sample_world = (Ok a, sample_world)
    ∧ a = [1%float; 0%float; 0%float]
    ∧ length a = 3 ∧ a !! 1 = Some 0%float.
Proof.
  assert (Hrun :
    getAccessorTypedArray (collaborators := interleaved_collaborators)
      (sample_gltf None None) (sample_accessor (Some 0) 0 SCALAR)
      sample_typedArray sample_world
    = (Ok [1%float; 0%float; 0%float], sample_world)) by (vm_compute; reflexivity).
  exists [1%float; 0%float; 0%float]. split; [exact Hrun|]. split; [reflexivity|].
  destruct (getAccessorTypedArray_strided (collaborators := interleaved_collaborators)
              _ _ _ _ _ _ 1 Hrun) as (_ & Hlen & Hk & _).
  - vm_compute. discriminate.
  - vm_compute. lia.
  - vm_compute. lia.
  - split; [exact Hlen|exact Hk].
Defined.

Section Scenes.

Context {collaborators : Collaborators}.

Lemma node_objects_index_nothing (nodes : list Node) (gltfNodes : list GltfNode) :
  (λ sceneNodeId,
     match sceneNodeId with
     | NodeIndex id => node_ref nodes id
     | NodeObject _ => None
     end) <$> (NodeObject <$> gltfNodes)
  = replicate (length gltfNodes) None.
Proof. induction gltfNodes as [|g l IH]; simpl; [done|by f_equal]. Qed.

(** X2. Without a default scene ([gltf.scene] or [gltf.scenes] undefined)
    [loadScene] falls back on [gltf.nodes], whose elements are node objects,
    not indices: the scene gets one [undefined] entry per node of the
    document, and no node at all. *)
Theorem loadScene_without_default_scene gltf nodes w :
  gltf_scenes gltf = None ∨ gltf_scene gltf = None →
  loadScene gltf nodes w
  = (Ok {| scene_nodes := replicate (length (default [] (gltf_nodes gltf))) None |}, w).
Proof.
  intros H. unfold loadScene, getSceneNodeIds.
  assert (Hids : match gltf_scenes gltf, gltf_scene gltf with
                 | Some scenes, Some scene =>
                     scene ← js_deref (scenes !! scene);
                     mret (fmap (M := list) NodeIndex <$> gscene_nodes scene)
                 | _, _ => mret None
                 end = (mret None : M (option (list SceneNodeId)))).
  { destruct H as [-> | ->]; [done|]. by destruct (gltf_scenes gltf). }
  rewrite Hids. destruct (gltf_nodes gltf) as [gltfNodes|];
    unfold mbind, M_bind, mret, M_ret; cbn; [|done].
  by rewrite node_objects_index_nothing.
Qed.

End Scenes.

Lemma loadScene_without_default_scene_witness :
  loadScene sample_gltf_sceneless [new_Node; new_Node] sample_world
  = (Ok {| scene_nodes := [None; None] |}, sample_world).
Proof.
  apply (loadScene_without_default_scene sample_gltf_sceneless). by right.
Defined.

Section NodeTable.

Context {collaborators : Collaborators}.

Lemma node_ref_bound (nodes : list Node) (id : nat) :
  node_ref nodes id = if decide (id < length nodes) then Some id else None.
Proof.
  unfold node_ref. destruct (decide (id < length nodes)) as [Hlt|Hge].
  - apply lookup_lt_is_Some in Hlt as [n ->]. done.
  - rewrite lookup_ge_None_2 by lia. done.
Qed.

Lemma loadNode_fresh gltf gltfNode supportedImageFormats frameState w node w' :
  loadNode gltf gltfNode supportedImageFormats frameState w = (Ok node, w') →
  node_children node = [] ∧ node_instances node = None.
Proof.
  intros H. unfold loadNode, Node_extensions in H. simpl in H. inv_M; by split.
Qed.

(** X3. [loadNodes] returns one node per node of the document, in order. The
    children of a node are the references [nodes[id]] for the declared child
    ids, [undefined] for an id out of range; and no node has instances, also
    when the document declares [EXT_mesh_gpu_instancing] for it: the
    extension is looked up on the output node. *)
Theorem loadNodes_shape gltf supportedImageFormats frameState w nodes w' :
  loadNodes gltf supportedImageFormats frameState w = (Ok nodes, w') →
  ∃ gltfNodes,
    gltf_nodes gltf = Some gltfNodes
    ∧ Forall2 (λ gltfNode node,
        node_children node
          = (λ id, if decide (id < length gltfNodes) then Some id else None)
              <$> default [] (gnode_children gltfNode)
        ∧ node_instances node = None) gltfNodes nodes.
Proof.
  intros H. unfold loadNodes in H. inv_M.
  match goal with
  | H : js_deref (gltf_nodes gltf) _ = _ |- _ =>
      destruct (gltf_nodes gltf) as [gltfNodes|]; [|discriminate H];
      apply ret_ok in H as [<- <-]
  end.
  exists gltfNodes. split; [done|].
  match goal with
  | H : forEachCollect _ (λ gltfNode, loadNode _ _ _ _) _ = (Ok ?l, _) |- _ =>
      rename l into loaded;
      apply (forEachCollect_Forall2
               (λ _ node, node_children node = [] ∧ node_instances node = None)) in H;
        [rename H into Hloaded|by intros; eapply loadNode_fresh]
  end.
  match goal with
  | H : forEachCollect (zip _ _) _ _ = _ |- _ =>
      apply (forEachCollect_Forall2
               (λ '(node, _) node',
                  node_children node' = node_children node
                  ∧ node_instances node' = node_instances node)) in H;
        [rename H into Hskinned|]
  end.
  2: { intros [node gltfNode] w1 node' w2 Hstep.
       destruct (gnode_skin gltfNode); inv_M; by split. }
  pose proof (Forall2_length _ _ _ Hloaded) as Hlen.
  pose proof (Forall2_length _ _ _ Hskinned) as Hlen'.
  rewrite length_zip_with, length_zip_with in Hlen'.
  apply Forall2_same_length_lookup. split; [lia|].
  intros i gltfNode node Hg Hn.
  destruct (Forall2_lookup_r _ _ _ _ _ Hskinned Hn) as ([node2 g2] & Hz & Hc & Hi).
  apply lookup_zip_with_Some in Hz as (node2' & g2' & [= <- <-] & Hz & Hg2).
  apply lookup_zip_with_Some in Hz as (node1 & g1 & -> & Hn1 & Hg1).
  rewrite Hg in Hg1, Hg2. injection Hg1 as <-. injection Hg2 as <-.
  destruct (Forall2_lookup_lr _ _ _ _ _ _ Hloaded Hg Hn1) as [Hc1 Hi1].
  rewrite Hc, Hi. destruct (gnode_children gltfNode) as [ids|]; cbn.
  - rewrite Hc1. split; [|done]. cbn. apply list_fmap_ext. intros _ id _.
    by rewrite node_ref_bound, <- Hlen.
  - by split.
Qed.

End NodeTable.

(** The first node of this document declares instancing, the second node
    as a child, and a child 7 that does not exist. *)
Lemma loadNodes_shape_witness :
  ∃ nodes w',
    loadNodes (collaborators := sample_collaborators) sample_gltf_instanced
      sample_supportedImageFormats sample_frameState sample_world = (Ok nodes, w')
    ∧ (node_children <$> nodes) = [[Some 1; None]; []]
    ∧ ∃ gltfNodes,
        gltf_nodes sample_gltf_instanced = Some gltfNodes
        ∧ Forall2 (λ gltfNode node,
            node_children node
              = (λ id, if decide (id < length gltfNodes) then Some id else None)
                  <$> default [] (gnode_children gltfNode)
            ∧ node_instances node = None) gltfNodes nodes.
Proof.
  eexists _, _. split; [vm_compute; reflexivity|]. split; [reflexivity|].
  eapply (loadNodes_shape (collaborators := sample_collaborators)
            sample_gltf_instanced sample_supportedImageFormats sample_frameState
            sample_world).
  vm_compute; reflexivity.
Defined.

Section FeatureIdTextures.

Context {collaborators : Collaborators}.

(** X4. When the image of a feature-id texture is in no supported format,
    [loadTexture] returns [undefined] and [loadFeatureIdTexture] throws on
    [featureIdTexture.texture.sampler]: nothing was loaded or allocated. *)
Theorem loadFeatureIdTexture_unsupported gltf gltfFeatureIdTexture featureIds textureInfo
    supportedImageFormats w :
  featureId_featureIds gltfFeatureIdTexture = Some featureIds →
  featureIds_texture featureIds = Some textureInfo →
  getImageIdFromTexture gltf (textureInfo_index textureInfo) supportedImageFormats = None →
  loadFeatureIdTexture gltf gltfFeatureIdTexture supportedImageFormats w
  = (Throw TypeError, w).
Proof.
  intros Hids Hinfo Himage. unfold loadFeatureIdTexture, loadTexture.
  rewrite Hids. cbn [js_deref]. rewrite bind_run. unfold mret at 1, M_ret at 1.
  rewrite Hinfo. cbn [js_deref]. rewrite bind_run. unfold mret at 1, M_ret at 1.
  rewrite bind_run, Himage. done.
Qed.

Lemma promise_then_texture_kept r texture w w' res :
  promise_then r (TextureThen texture) None w = (res, w') →
  is_Some (heap_textures (heap w) !! texture) →
  is_Some (heap_textures (heap w') !! texture).
Proof.
  unfold promise_then. rewrite bind_run. unfold gets.
  destruct (subs w !! r) as [s|]; [|by intros [= _ <-]].
  destruct (sub_promise s).
  - by intros [= _ <-].
  - unfold invoke_fulfilled. cbn [callback_then callback_otherwise run_continuation].
    unfold loadTexture_then. rewrite bind_run. unfold gets.
    destruct (isDestroyed (loader w)); [by intros [= _ <-]|].
    intros [= _ <-] [t Ht]. cbn. rewrite list_lookup_alter_eq, Ht. by eexists.
  - by intros [= _ <-].
Qed.

Lemma loadTexture_allocated gltf textureInfo supportedImageFormats w texture w' :
  loadTexture gltf textureInfo supportedImageFormats w = (Ok (Some texture), w') →
  is_Some (heap_textures (heap w') !! texture).
Proof.
  unfold loadTexture. destruct (getImageIdFromTexture _ _ _); [|discriminate].
  intros H. inv_M.
  match goal with
  | H : Some _ = Some texture |- _ => injection H as ->
  end.
  match goal with
  | H : alloc_texture _ _ = _ |- _ =>
      unfold alloc_texture in H; cbv beta in H; injection H as Ht <-
  end.
  match goal with
  | H : promise_then _ _ _ _ = _ |- _ => eapply promise_then_texture_kept; [exact H|]
  end.
  cbn. rewrite <- Ht, lookup_app_r by done. rewrite Nat.sub_diag. by eexists.
Qed.

(** X5. A feature-id texture that loads is sampled with [Sampler.NEAREST],
    whatever sampler the document gives its texture. *)
Theorem loadFeatureIdTexture_nearest gltf gltfFeatureIdTexture supportedImageFormats
    w featureIdTexture w' :
  loadFeatureIdTexture gltf gltfFeatureIdTexture supportedImageFormats w
    = (Ok featureIdTexture, w') →
  ∃ texture t,
    featureIdTexture_texture featureIdTexture = Some texture
    ∧ heap_textures (heap w') !! texture = Some t
    ∧ texture_sampler t = Some Sampler_NEAREST
    ∧ featureIdTexture_featureTableId featureIdTexture
        = featureId_featureTable gltfFeatureIdTexture.
Proof.
  intros H. unfold loadFeatureIdTexture in H. inv_M.
  match goal with
  | H : js_deref ?o _ = (Ok _, _), H' : loadTexture _ _ _ _ = (Ok ?o, _) |- _ =>
      destruct o as [texture|]; [|discriminate H];
      apply ret_ok in H as [<- <-];
      apply loadTexture_allocated in H' as [loaded Ht]
  end.
  match goal with
  | H : update_texture _ _ _ = _ |- _ => unfold update_texture, modify in H;
      cbv beta in H; injection H as <-
  end.
  subst w'. exists texture, (set_texture_sampler (Some Sampler_NEAREST) loaded).
  split; [done|]. split; [|by split].
  cbn. by rewrite list_lookup_alter_eq, Ht.
Qed.


End FeatureIdTextures.

Lemma loadFeatureIdTexture_unsupported_witness :
  loadFeatureIdTexture (collaborators := sample_collaborators) (sample_gltf None None)
    (sample_featureIdTexture None) sample_supportedImageFormats sample_world
  = (Throw TypeError, sample_world).
Proof.
  eapply (loadFeatureIdTexture_unsupported (collaborators := sample_collaborators));
    reflexivity.
Defined.

Lemma loadFeatureIdTexture_nearest_witness :
  ∃ featureIdTexture w',
    loadFeatureIdTexture (collaborators := sample_collaborators) (sample_gltf None None)
      (sample_featureIdTexture (Some 5)) sample_supportedImageFormats sample_world
      = (Ok featureIdTexture, w')
    ∧ ∃ texture t,
        featureIdTexture_texture featureIdTexture = Some texture
        ∧ heap_textures (heap w') !! texture = Some t
        ∧ texture_sampler t
            = Some (Sampler_NEAREST (Collaborators := sample_collaborators))
        ∧ featureIdTexture_featureTableId featureIdTexture = Some "buildings".
Proof.
  eexists _, _. split; [vm_compute; reflexivity|].
  eapply (loadFeatureIdTexture_nearest (collaborators := sample_collaborators)
            (sample_gltf None None) (sample_featureIdTexture (Some 5))
            sample_supportedImageFormats sample_world).
  vm_compute; reflexivity.
Defined.

Section Process.

Context {collaborators : Collaborators}.

Lemma invoke_rejected_ok cb e w : (invoke_rejected cb e w).1 = Ok tt.
Proof. unfold invoke_rejected. by destruct (callback_otherwise cb). Qed.

Lemma aggregate_progress_ok w : (aggregate_progress w).1 = Ok tt.
Proof.
  unfold aggregate_progress. destruct (aggregate w) as [[ps [| |e]]|]; try done.
  cbn [all_state all_promises].
  destruct (all_settlement (subs w) ps);
    [done|apply invoke_fulfilled_ok|apply invoke_rejected_ok].
Qed.

Lemma log_calls_nil w : log_calls [] w = w.
Proof. destruct w. unfold log_calls. cbn. by rewrite app_nil_r. Qed.

(** What [process] does once past its two guards. *)
Lemma process_run frameState w webp :
  _state (loader w) = PROCESSING → supportsWebP w = Some webp →
  match _gltfJsonLoader (loader w) with
  | None =>
      process frameState w
      = (Ok tt,
         log_calls ((λ r, LoaderProcess r frameState) <$> _loaders (loader w)) w)
  | Some j =>
      (∃ e w', process frameState w = (Throw e, w') ∧ keeps w w')
      ∨ (∃ w1 w3,
           keeps w w1
           ∧ aggregate_progress
               (set_aggregate
                  (Some {| all_promises := _loaders (loader w1); all_state := Pending |})
                  w1)
             = (Ok tt, w3)
           ∧ process frameState w
             = (Ok tt,
                log_calls ((λ r, LoaderProcess r frameState) <$> _loaders (loader w3))
                  (set_loader (with_gltfJsonLoader None)
                     (log_call (CacheUnload j) (set_cache (release j) w3)))))
  end.
Proof.
  intros Hst Hwebp. unfold process. rewrite gets_bind, Hst.
  rewrite decide_False by (intros H; by apply H).
  rewrite gets_bind, Hwebp, gets_bind.
  destruct (_gltfJsonLoader (loader w)) as [j|].
  - rewrite bind_run, gets_bind.
    destruct (match subs w !! j with Some s => _ | None => None end) as [gltf|].
    2: { left. eexists _, w. split; [reflexivity|apply keeps_refl]. }
    cbv beta. change (js_deref (Some gltf) ≫= ?k) with (k gltf). cbv beta.
    rewrite (bind_run (parse _ _ _)).
    destruct (parse_settles gltf
                {| supported_webp := webp;
                   supported_s3tc := context_s3tc frameState;
                   supported_pvrtc := context_pvrtc frameState;
                   supported_etc1 := context_etc1 frameState |} frameState w)
      as [(e & w' & -> & Hk)|(w1 & Hk & ->)].
    + left. by eexists _, _.
    + right. unfold when_all. rewrite modify_bind.
      pose proof (aggregate_progress_ok
        (set_aggregate
           (Some {| all_promises := _loaders (loader w1); all_state := Pending |}) w1))
        as Hok.
      destruct (aggregate_progress _) as [r w3] eqn:Hagg. cbn [fst] in Hok. subst r.
      exists w1, w3. split; [done|]. split; [exact Hagg|].
      unfold ResourceCache_unload. rewrite !modify_bind. unfold modify at 1.
      by rewrite gets_bind, forEach_log.
  - by rewrite skip_bind, gets_bind, forEach_log.
Qed.


(** X6. Past its two guards, the last thing a [process] call that returns does is
    to call [process(frameState)] on every loader the loader holds by then, in
    the order of [_loaders]: those spawned by the parse of this very call
    included. *)
Theorem process_forwards_to_loaders frameState w webp w' :
  _state (loader w) = PROCESSING → supportsWebP w = Some webp →
  process frameState w = (Ok tt, w') →
  ∃ before,
    calls w' = before ++ ((λ r, LoaderProcess r frameState) <$> _loaders (loader w')).
Proof.
  intros Hst Hwebp Hrun. pose proof (process_run frameState w webp Hst Hwebp) as H.
  destruct (_gltfJsonLoader (loader w)) as [j|].
  - destruct H as [(e & w1 & H & _)|(w1 & w3 & _ & _ & H)];
      rewrite H in Hrun; [discriminate Hrun|].
    injection Hrun as <-. by eexists.
  - rewrite H in Hrun. injection Hrun as <-. by eexists.
Qed.

(** X7. The document is parsed at most once: a [process] call that returns, past
    the two guards, leaves the loader without its document loader, and every
    later [process] call then changes nothing but the calls it makes: no
    loader is spawned, no object of the scene graph allocated. *)
Theorem process_parses_once frameState w webp w' :
  _state (loader w) = PROCESSING → supportsWebP w = Some webp →
  process frameState w = (Ok tt, w') →
  _gltfJsonLoader (loader w') = None
  ∧ ∀ frameState', ∃ made, process frameState' w' = (Ok tt, log_calls made w').
Proof.
  intros Hst Hwebp Hrun.
  assert (Hj : _gltfJsonLoader (loader w') = None).
  { pose proof (process_run frameState w webp Hst Hwebp) as H.
    destruct (_gltfJsonLoader (loader w)) as [j|] eqn:Hj.
    - destruct H as [(e & w1 & H & _)|(w1 & w3 & _ & _ & H)];
        rewrite H in Hrun; [discriminate Hrun|].
      by injection Hrun as <-.
    - rewrite H in Hrun. injection Hrun as <-. exact Hj. }
  split; [exact Hj|]. intros frameState'.
  destruct (decide (_state (loader w') = PROCESSING)) as [Hst'|Hst'].
  - destruct (supportsWebP w') as [webp'|] eqn:Hwebp'.
    + pose proof (process_run frameState' w' webp' Hst' Hwebp') as H.
      rewrite Hj in H. by eexists.
    + exists [WebPInitialize]. unfold process.
      by rewrite gets_bind, Hst', decide_False, gets_bind, Hwebp' by (intros H; by apply H).
  - exists []. unfold process. by rewrite gets_bind, decide_True, log_calls_nil.
Qed.

(** X8. A [process] call that throws was parsing: the loader is left in state
    PROCESSING with its document loader, its public promise and the
    settlement of every sub-loader as they were, and no [when.all] was
    registered. *)
Theorem process_throw_leaves_loader_processing frameState w e w' :
  process frameState w = (Throw e, w') →
  _state (loader w') = PROCESSING
  ∧ is_Some (_gltfJsonLoader (loader w'))
  ∧ _gltfJsonLoader (loader w') = _gltfJsonLoader (loader w)
  ∧ _promise (loader w') = _promise (loader w)
  ∧ aggregate w' = aggregate w
  ∧ ∀ r p, promise_of w r = Some p → promise_of w' r = Some p.
Proof.
  intros Hrun.
  assert (Hst : _state (loader w) = PROCESSING).
  { destruct (decide (_state (loader w) = PROCESSING)) as [|Hne]; [done|].
    unfold process in Hrun. by rewrite gets_bind, decide_True in Hrun. }
  destruct (supportsWebP w) as [webp|] eqn:Hwebp.
  2: { unfold process in Hrun.
       by rewrite gets_bind, Hst, decide_False, gets_bind, Hwebp in Hrun
         by (intros H; by apply H). }
  pose proof (process_run frameState w webp Hst Hwebp) as H.
  destruct (_gltfJsonLoader (loader w)) as [j|] eqn:Hj;
    [|rewrite H in Hrun; discriminate Hrun].
  destruct H as [(e' & w1 & H & Hk)|(w1 & w3 & _ & _ & H)];
    rewrite H in Hrun; [|discriminate Hrun].
  injection Hrun as _ <-.
  destruct Hk as (Hst' & Hpr & _ & Hj' & Hagg & _ & Hrel & _).
  rewrite Hst', Hj', Hj, Hst. repeat split; try done.
  intros r p. unfold promise_of.
  destruct (subs w !! r) as [s|] eqn:Hs; [|done].
  destruct (Hrel r s Hs) as (s' & -> & Hp & _). cbn. by rewrite Hp.
Qed.

End Process.

(** The sample loader once its document has resolved. *)
Lemma process_forwards_to_loaders_witness :
  let w := run (collaborators := sample_collaborators) sample_world
             [LoaderResolves 0 (sample_document (sample_gltf None None))] in
  ∃ w',
    process (collaborators := sample_collaborators) sample_frameState w = (Ok tt, w')
    ∧ _loaders (loader w') = [1; 2; 3; 2; 2; 4]
    ∧ ∃ before,
        calls w' = before
          ++ ((λ r, LoaderProcess r sample_frameState) <$> _loaders (loader w')).
Proof.
  cbv zeta. eexists. split; [vm_compute; reflexivity|]. split; [vm_compute; reflexivity|].
  eapply (process_forwards_to_loaders (collaborators := sample_collaborators)
            sample_frameState
            (run (collaborators := sample_collaborators) sample_world
               [LoaderResolves 0 (sample_document (sample_gltf None None))]) true);
    vm_compute; reflexivity.
Defined.

Lemma process_parses_once_witness :
  let w := run (collaborators := sample_collaborators) sample_world
             [LoaderResolves 0 (sample_document (sample_gltf None None))] in
  ∃ w',
    process (collaborators := sample_collaborators) sample_frameState w = (Ok tt, w')
    ∧ _gltfJsonLoader (loader w') = None
    ∧ ∀ frameState', ∃ made,
        process (collaborators := sample_collaborators) frameState' w'
        = (Ok tt, log_calls made w').
Proof.
  cbv zeta. eexists. split; [vm_compute; reflexivity|].
  eapply (process_parses_once (collaborators := sample_collaborators)
            sample_frameState
            (run (collaborators := sample_collaborators) sample_world
               [LoaderResolves 0 (sample_document (sample_gltf None None))]) true);
    vm_compute; reflexivity.
Defined.

(** The document loader resolves without a document: [parse] throws on
    [gltf.nodes]. *)
Lemma process_throw_leaves_loader_processing_witness :
  let w := run (collaborators := sample_collaborators) sample_world
             [LoaderResolves 0 no_fields] in
  ∃ w',
    process (collaborators := sample_collaborators) sample_frameState w
      = (Throw TypeError, w')
    ∧ _state (loader w') = PROCESSING
    ∧ is_Some (_gltfJsonLoader (loader w'))
    ∧ _gltfJsonLoader (loader w') = _gltfJsonLoader (loader w)
    ∧ _promise (loader w') = _promise (loader w)
    ∧ aggregate w' = aggregate w
    ∧ ∀ r p, promise_of w r = Some p → promise_of w' r = Some p.
Proof.
  cbv zeta. eexists. split; [vm_compute; reflexivity|].
  eapply (process_throw_leaves_loader_processing (collaborators := sample_collaborators)
            sample_frameState
            (run (collaborators := sample_collaborators) sample_world
               [LoaderResolves 0 no_fields]) TypeError).
  vm_compute; reflexivity.
Defined.

Section DestroyedRuns.

Context {collaborators : Collaborators}.

Lemma inert_refl w : isDestroyed (loader w) = true → inert w w.
Proof. by intros H. Qed.

Lemma inert_trans w1 w2 w3 : inert w1 w2 → inert w2 w3 → inert w1 w3.
Proof. intros (? & ? & ?) (? & ? & ?). unfold inert. repeat split; congruence. Qed.

Lemma invoke_fulfilled_destroyed cb resolved w :
  isDestroyed (loader w) = true → invoke_fulfilled cb resolved w = (Ok tt, w).
Proof.
  intros Hd. unfold invoke_fulfilled. by rewrite run_continuation_destroyed.
Qed.

Lemma invoke_rejected_destroyed cb e w :
  isDestroyed (loader w) = true → invoke_rejected cb e w = (Ok tt, w).
Proof.
  intros Hd. unfold invoke_rejected. destruct (callback_otherwise cb) as [h|]; [|done].
  unfold swallow. by rewrite run_handler_destroyed.
Qed.

Lemma forEach_unchanged {A} (l : list A) (body : A → M unit) w :
  (∀ x, body x w = (Ok tt, w)) → forEach l body w = (Ok tt, w).
Proof.
  intros Hbody. induction l as [|x l IH]; cbn [forEach]; [done|].
  by rewrite bind_run, Hbody.
Qed.

Lemma aggregate_progress_destroyed w :
  isDestroyed (loader w) = true → inert w (aggregate_progress w).2.
Proof.
  intros Hd. unfold aggregate_progress.
  destruct (aggregate w) as [[ps [| |e0]]|]; try by apply inert_refl.
  cbn [all_state all_promises].
  destruct (all_settlement (subs w) ps) as [| |e]; [by apply inert_refl| |].
  - by rewrite invoke_fulfilled_destroyed.
  - by rewrite invoke_rejected_destroyed.
Qed.

Lemma keeps_inert w w' : isDestroyed (loader w) = true → keeps w w' → inert w w'.
Proof. intros Hd (? & ? & Hd' & _). unfold inert. rewrite Hd'. by repeat split. Qed.

Lemma process_destroyed frameState w :
  isDestroyed (loader w) = true → inert w (process frameState w).2.
Proof.
  intros Hd.
  destruct (decide (_state (loader w) = PROCESSING)) as [Hst|Hst].
  2: { unfold process. rewrite gets_bind, decide_True by done. by apply inert_refl. }
  destruct (supportsWebP w) as [webp|] eqn:Hwebp.
  2: { unfold process.
       by rewrite gets_bind, Hst, decide_False, gets_bind, Hwebp by (intros H; by apply H). }
  pose proof (process_run frameState w webp Hst Hwebp) as H.
  destruct (_gltfJsonLoader (loader w)) as [j|]; [|by rewrite H].
  destruct H as [(e & w1 & -> & Hk)|(w1 & w3 & Hk & Hagg & ->)].
  - by apply keeps_inert.
  - apply keeps_inert in Hk; [|done].
    eapply inert_trans; [exact Hk|].
    destruct Hk as (Hd1 & _).
    pose proof (aggregate_progress_destroyed
      (set_aggregate
         (Some {| all_promises := _loaders (loader w1); all_state := Pending |}) w1) Hd1)
      as Hin.
    rewrite Hagg in Hin. exact Hin.
Qed.

Lemma resolve_loader_destroyed r fields w :
  isDestroyed (loader w) = true → inert w (resolve_loader r fields w).2.
Proof.
  intros Hd. unfold resolve_loader. rewrite gets_bind.
  destruct (subs w !! r) as [s|]; [|by apply inert_refl].
  destruct (sub_promise s); [|by apply inert_refl..].
  rewrite modify_bind, bind_run.
  rewrite forEach_unchanged by (intros cb; by apply invoke_fulfilled_destroyed).
  by apply (aggregate_progress_destroyed (set_subs _ w)).
Qed.

Lemma reject_loader_destroyed r e w :
  isDestroyed (loader w) = true → inert w (reject_loader r e w).2.
Proof.
  intros Hd. unfold reject_loader. rewrite gets_bind.
  destruct (subs w !! r) as [s|]; [|by apply inert_refl].
  destruct (sub_promise s); [|by apply inert_refl..].
  rewrite modify_bind, bind_run.
  rewrite forEach_unchanged by (intros cb; by apply invoke_rejected_destroyed).
  by apply (aggregate_progress_destroyed (set_subs _ w)).
Qed.

Lemma step_destroyed w ev : isDestroyed (loader w) = true → inert w (step w ev).
Proof.
  intros Hd. destruct ev as [frameState| | |supported|r fields|r e]; cbn [step].
  - by apply process_destroyed.
  - rewrite unload_run. destruct (unloaded_loader w) as (_ & _ & ? & ? & ?).
    unfold inert. cbn [snd]. repeat split; congruence.
  - unfold destroy. rewrite bind_run, unload_run.
    destruct (unloaded_loader w) as (_ & _ & ? & ? & ?). by repeat split.
  - by destruct (supportsWebP w).
  - by apply resolve_loader_destroyed.
  - by apply reject_loader_destroyed.
Qed.

(** X9. A destroyed loader stays as it is through the events of a run, in
    any number and order: [process], [unload] and [destroy] calls, the end of
    the WebP check, and the resolving or rejecting of any of its loaders. It
    stays destroyed, in the same state, with its public promise as it was.
    (A run has no second [load()]: [load] has no guard, and would set the
    state to LOADING.) *)
Theorem destroyed_loader_stays_inert w events :
  isDestroyed (loader w) = true →
  let w' := run w events in
  isDestroyed (loader w') = true
  ∧ _state (loader w') = _state (loader w)
  ∧ _promise (loader w') = _promise (loader w).
Proof.
  intros Hd. cbv zeta. change (inert w (run w events)).
  revert w Hd. induction events as [|ev events IH]; intros w Hd; [by apply inert_refl|].
  cbn [run foldl]. pose proof (step_destroyed w ev Hd) as Hstep.
  eapply inert_trans; [exact Hstep|]. apply IH. by destruct Hstep.
Qed.

End DestroyedRuns.

(** The assembled sample loader, destroyed; then its loaders settle and
    [process] and [unload] are called. *)
Lemma destroyed_loader_stays_inert_witness :
  let w' := run (collaborators := sample_collaborators) sample_destroyed
              [LoaderResolves 1 no_fields; CallProcess sample_frameState;
               LoaderRejects 3 (ErrorMessage "decode failed"); CallUnload;
               LoaderResolves 2 no_fields; LoaderResolves 4 no_fields] in
  isDestroyed (loader sample_destroyed) = true
  ∧ isDestroyed (loader w') = true
  ∧ _state (loader w') = _state (loader sample_destroyed)
  ∧ _promise (loader w') = _promise (loader sample_destroyed).
Proof.
  cbv zeta.
  assert (Hd : isDestroyed (loader sample_destroyed) = true) by (vm_compute; reflexivity).
  split; [exact Hd|].
  exact (destroyed_loader_stays_inert (collaborators := sample_collaborators)
           sample_destroyed _ Hd).
Defined.

Section SettledRuns.

Context {collaborators : Collaborators}.

Lemma aggregate_progress_settled w a :
  aggregate w = Some a → all_state a ≠ Pending → aggregate_progress w = (Ok tt, w).
Proof.
  intros Ha Hs. unfold aggregate_progress. rewrite Ha. by destruct (all_state a).
Qed.

Lemma settled_world w :
  Inv w → _promise (loader w) ≠ Pending →
  _state (loader w) ≠ PROCESSING
  ∧ callbacks_quiet (subs w)
  ∧ (∀ w', aggregate w' = aggregate w → aggregate_progress w' = (Ok tt, w')).
Proof.
  intros [Hf|(Hq & Hs & _)] Hp.
  - unfold view, fetching in Hf. by destruct Hf as (? & _ & _ & _ & _ & ? & _).
  - unfold view, settled_as in Hs. cbn [snd] in Hq.
    destruct (aggregate w) as [[ps sa]|] eqn:Ha.
    + destruct Hs as (_ & Hs). destruct sa as [| |e]; cbn [all_state] in Hs.
      * by destruct Hs.
      * destruct Hs as (_ & [[_ Hst]|(_ & ? & _)]); [|done].
        split; [by rewrite Hst|]. split; [done|].
        intros w' Hw'. by eapply aggregate_progress_settled.
      * destruct Hs as (_ & [[_ Hst]|(_ & ? & _)]); [|done].
        split; [by rewrite Hst|]. split; [done|].
        intros w' Hw'. by eapply aggregate_progress_settled.
    + destruct Hs as [[? _]|[Hst _]]; [done|].
      split; [by rewrite Hst|]. split; [done|].
      intros w' Hw'. by apply aggregate_progress_none.
Qed.

Lemma settled_step w ev :
  Inv w → _promise (loader w) ≠ Pending →
  _promise (loader (step w ev)) = _promise (loader w)
  ∧ _state (loader (step w ev)) = _state (loader w).
Proof.
  intros HI Hp. destruct (settled_world w HI Hp) as (Hst & Hq & Hidle).
  destruct ev as [frameState| | |supported|r fields|r e]; cbn [step].
  - unfold process. by rewrite gets_bind, decide_True.
  - rewrite unload_run. by destruct (unloaded_loader w) as (_ & _ & ? & ? & _).
  - unfold destroy. rewrite bind_run, unload_run.
    by destruct (unloaded_loader w) as (_ & _ & ? & ? & _).
  - by destruct (supportsWebP w).
  - unfold resolve_loader. rewrite gets_bind.
    destruct (subs w !! r) as [s|] eqn:Hs; [|done].
    destruct (sub_promise s); [|done..].
    rewrite modify_bind, bind_run.
    assert (Hqs : Forall quiet_callback (sub_callbacks s)).
    { by eapply (proj1 (Forall_lookup _ _) Hq). }
    destruct (forEach_fulfilled_quiet (sub_callbacks s) fields (set_subs
      (alter (λ s, set_sub_callbacks []
                (set_sub_fields fields (set_sub_promise Resolved s))) r) w) Hqs)
      as [h ->].
    by rewrite Hidle.
  - unfold reject_loader. rewrite gets_bind.
    destruct (subs w !! r) as [s|] eqn:Hs; [|done].
    destruct (sub_promise s); [|done..].
    rewrite modify_bind, bind_run.
    assert (Hqs : Forall quiet_callback (sub_callbacks s)).
    { by eapply (proj1 (Forall_lookup _ _) Hq). }
    rewrite forEach_rejected_quiet by done.
    by rewrite Hidle.
Qed.

Lemma settled_run events : ∀ w,
  Inv w → _promise (loader w) ≠ Pending →
  _promise (loader (run w events)) = _promise (loader w)
  ∧ _state (loader (run w events)) = _state (loader w).
Proof.
  induction events as [|ev events IH]; intros w HI Hp; [done|].
  change (run w (ev :: events)) with (run (step w ev) events).
  destruct (settled_step w ev HI Hp) as [Hp' Hst'].
  destruct (IH (step w ev)) as [-> ->]; [by apply Inv_step|by rewrite Hp'|done].
Qed.

(** X10. Within one load, the loader settles once: when its public promise
    has resolved or rejected at some point of a run, the promise and the
    state are the same at every later point of the run, whichever [process],
    [unload] and [destroy] calls are made and whichever loaders settle in
    between. (A run is what follows one [load()]; a second [load()] would set
    the state to LOADING.) *)
Theorem settled_load_stays_settled options webp hasThen events later :
  let w := run (loading options webp hasThen) events in
  let w' := run w later in
  _promise (loader w) ≠ Pending →
  _promise (loader w') = _promise (loader w) ∧ _state (loader w') = _state (loader w).
Proof.
  intros w w' Hp. apply settled_run; [|done].
  apply Inv_run, Inv_loading.
Qed.

End SettledRuns.

(** The sample load completes; then it is unloaded, a loader is reported
    rejected, and [process] is called again. *)
Lemma settled_load_stays_settled_witness :
  let w := run (collaborators := sample_collaborators)
             (loading (collaborators := sample_collaborators)
                sample_options (Some true) false) sample_completion in
  let w' := run (collaborators := sample_collaborators) w
              [CallUnload; LoaderRejects 4 (ErrorMessage "late");
               CallProcess sample_frameState] in
  _promise (loader w) = Resolved
  ∧ _promise (loader w') = _promise (loader w)
  ∧ _state (loader w') = _state (loader w).
Proof.
  cbv zeta.
  assert (Hp : _promise (loader
            (run (collaborators := sample_collaborators)
               (loading (collaborators := sample_collaborators)
                  sample_options (Some true) false) sample_completion)) = Resolved)
    by (vm_compute; reflexivity).
  split; [exact Hp|].
  apply (settled_load_stays_settled (collaborators := sample_collaborators)
           sample_options (Some true) false sample_completion).
  rewrite Hp. discriminate.
Defined.

Section Components.

Context {collaborators : Collaborators}.

Lemma publishing_refl w : publishing w w.
Proof. by split. Qed.

Lemma publishing_trans w1 w2 w3 : publishing w1 w2 → publishing w2 w3 → publishing w1 w3.
Proof. intros [? ?] [? ?]. split; auto. Qed.

Lemma publishing_same w w' :
  aggregate w' = aggregate w →
  _components (loader w') = _components (loader w) →
  heap_components (heap w') = heap_components (heap w) →
  publishing w w'.
Proof.
  intros Ha Hc Hh. split; [|congruence].
  intros (c & comps & ? & ? & ? & ?). exists c, comps. by rewrite Hc, Hh.
Qed.

Lemma Publishes_ret {A} (a : A) : Publishes (mret a).
Proof. intros w. apply publishing_refl. Qed.
Lemma Publishes_skip : Publishes skip.
Proof. intros w. apply publishing_refl. Qed.
Lemma Publishes_throw {A} e : Publishes (throw e : M A).
Proof. intros w. apply publishing_refl. Qed.
Lemma Publishes_gets {A} (f : World → A) : Publishes (gets f).
Proof. intros w. apply publishing_refl. Qed.
Lemma Publishes_js_deref {A} (o : option A) : Publishes (js_deref o).
Proof. destruct o; intros w; apply publishing_refl. Qed.

Lemma Publishes_bind {A B} (m : M A) (f : A → M B) :
  Publishes m → (∀ a, Publishes (f a)) → Publishes (m ≫= f).
Proof.
  intros Hm Hf w. rewrite bind_run. specialize (Hm w).
  destruct (m w) as [[a|e] w1]; cbn [snd] in *; [|done].
  eapply publishing_trans; [exact Hm|apply Hf].
Qed.

Lemma Publishes_modify (g : World → World) :
  (∀ w, aggregate (g w) = aggregate w
        ∧ _components (loader (g w)) = _components (loader w)
        ∧ heap_components (heap (g w)) = heap_components (heap w)) →
  Publishes (modify g).
Proof. intros Hg w. destruct (Hg w) as (? & ? & ?). by apply publishing_same. Qed.

Lemma Publishes_update_components r v :
  Publishes (update_components r (set_components_featureMetadata v)).
Proof.
  intros w. split; [|done]. intros (c & comps & Hc & Hh & Hs & Hn).
  destruct (decide (r = c)) as [->|Hne].
  - exists c, (set_components_featureMetadata v comps).
    unfold update_components, modify. cbn. by rewrite list_lookup_alter_eq, Hh.
  - exists c, comps.
    unfold update_components, modify. cbn. by rewrite list_lookup_alter_ne.
Qed.

Lemma Publishes_swallow m : Publishes m → Publishes (swallow m).
Proof. intros Hm w. apply Hm. Qed.

Lemma Publishes_forEach {A} (l : list A) (body : A → M unit) :
  (∀ x, Publishes (body x)) → Publishes (forEach l body).
Proof.
  intros Hbody. induction l as [|x l IH]; cbn [forEach]; [apply Publishes_ret|].
  apply Publishes_bind; [apply Hbody|by intros _].
Qed.

Lemma Publishes_promise_resolve : Publishes promise_resolve.
Proof.
  intros w. unfold promise_resolve. cbv zeta.
  destruct (_promise _); by apply publishing_same.
Qed.

Lemma Publishes_promise_reject e : Publishes (promise_reject e).
Proof.
  intros w. unfold promise_reject. cbv zeta.
  destruct (_promise _); by apply publishing_same.
Qed.

Lemma publishing_unloaded w : publishing w (unloaded w).
Proof.
  destruct (unloaded_rest w) as [Ha _].
  apply publishing_same; [done|..];
    destruct w as [[gr br ta kr asy inc j st p ls co d] h s c a wp mt cs]; by destruct j.
Qed.

Lemma Publishes_unload : Publishes unload.
Proof. intros w. rewrite unload_run. apply publishing_unloaded. Qed.

Ltac publishes :=
  repeat first
    [ apply Publishes_ret | apply Publishes_skip | apply Publishes_throw
    | apply Publishes_gets | apply Publishes_js_deref
    | apply Publishes_update_components
    | apply Publishes_promise_resolve | apply Publishes_promise_reject
    | apply Publishes_unload
    | apply Publishes_modify; intros ?; split; [|split]; reflexivity
    | apply Publishes_bind; [|intros ?]
    | match goal with
      | |- Publishes (if ?b then _ else _) => destruct b
      | |- Publishes (match ?x with _ => _ end) => destruct x
      end ].

Lemma Publishes_handleError e : Publishes (handleError e).
Proof. unfold handleError. cbv zeta. publishes. Qed.

Lemma Publishes_run_continuation k resolved : Publishes (run_continuation k resolved).
Proof.
  destruct k; cbn [run_continuation];
    unfold load_then, loadSkin_then, loadVertexAttribute_then,
      loadInstancedAttribute_buffer_then, loadInstancedAttribute_typedArray_then,
      loadIndices_then, loadTexture_then, parse_featureMetadata_then, parse_then,
      getAccessorTypedArray, createArrayBufferView;
    cbv zeta; publishes.
Qed.

Lemma Publishes_run_handler h e : Publishes (run_handler h e).
Proof.
  destruct h; cbn [run_handler]; unfold load_otherwise, parse_otherwise;
    apply Publishes_bind; [apply Publishes_gets| |apply Publishes_gets|];
    intros []; try apply Publishes_skip; apply Publishes_handleError.
Qed.

Lemma Publishes_invoke_fulfilled cb resolved : Publishes (invoke_fulfilled cb resolved).
Proof.
  intros w. unfold invoke_fulfilled.
  pose proof (Publishes_run_continuation (callback_then cb) resolved w) as H.
  destruct (run_continuation _ _ _) as [[|e] w1]; cbn [snd] in *; [done|].
  destruct (callback_otherwise cb) as [h|]; [|done].
  eapply publishing_trans; [exact H|]. apply (Publishes_swallow _ (Publishes_run_handler h e)).
Qed.

Lemma Publishes_invoke_rejected cb e : Publishes (invoke_rejected cb e).
Proof.
  unfold invoke_rejected. destruct (callback_otherwise cb) as [h|]; [|apply Publishes_skip].
  apply Publishes_swallow, Publishes_run_handler.
Qed.

Lemma Publishes_aggregate_progress : Publishes aggregate_progress.
Proof.
  intros w. unfold aggregate_progress.
  destruct (aggregate w) as [[ps [| |e0]]|] eqn:Ha; try apply publishing_refl.
  cbn [all_state all_promises].
  destruct (all_settlement (subs w) ps) as [| |e]; [apply publishing_refl| |].
  - eapply publishing_trans; [|apply Publishes_invoke_fulfilled].
    split; [|by rewrite Ha]. intros (c & comps & ?). by exists c, comps.
  - eapply publishing_trans; [|apply Publishes_invoke_rejected].
    split; [|by rewrite Ha]. intros (c & comps & ?). by exists c, comps.
Qed.

Lemma Publishes_promise_then r k h : Publishes (promise_then r k h).
Proof.
  unfold promise_then. cbv zeta. apply Publishes_bind; [apply Publishes_gets|].
  intros [s|]; [|apply Publishes_throw].
  destruct (sub_promise s).
  - apply Publishes_modify. by intros w.
  - apply Publishes_invoke_fulfilled.
  - apply Publishes_invoke_rejected.
Qed.

Lemma Publishes_resolve_loader r fields : Publishes (resolve_loader r fields).
Proof.
  unfold resolve_loader. apply Publishes_bind; [apply Publishes_gets|].
  intros [s|]; [|apply Publishes_skip].
  destruct (sub_promise s); try apply Publishes_skip.
  apply Publishes_bind; [apply Publishes_modify; by intros w|intros _].
  apply Publishes_bind; [|intros _; apply Publishes_aggregate_progress].
  apply Publishes_forEach. intros cb. apply Publishes_invoke_fulfilled.
Qed.

Lemma Publishes_reject_loader r e : Publishes (reject_loader r e).
Proof.
  unfold reject_loader. apply Publishes_bind; [apply Publishes_gets|].
  intros [s|]; [|apply Publishes_skip].
  destruct (sub_promise s); try apply Publishes_skip.
  apply Publishes_bind; [apply Publishes_modify; by intros w|intros _].
  apply Publishes_bind; [|intros _; apply Publishes_aggregate_progress].
  apply Publishes_forEach. intros cb. apply Publishes_invoke_rejected.
Qed.


Lemma Publishes_loadFeatureMetadata gltf extension supportedImageFormats :
  Publishes (loadFeatureMetadata gltf extension supportedImageFormats).
Proof.
  unfold loadFeatureMetadata, push_loader.
  apply Publishes_bind; [apply Publishes_gets|intros l].
  apply Publishes_bind; [|intros ?; publishes].
  intros w. by apply publishing_same.
Qed.

Lemma Publishes_loader_then r k : Publishes (loader_then r k).
Proof.
  unfold loader_then. apply Publishes_bind; [apply Publishes_gets|].
  intros []; [apply Publishes_promise_then|apply Publishes_throw].
Qed.

(** [parse], when it returns, has published the components. *)
Lemma parse_publishes gltf supportedImageFormats frameState w w' :
  parse gltf supportedImageFormats frameState w = (Ok tt, w') → published w'.
Proof.
  intros H. unfold parse in H.
  apply bind_ok in H as (nodes & w1 & _ & H).
  apply bind_ok in H as (scene & w2 & _ & H).
  apply bind_ok in H as (c & w3 & Hc & H).
  apply bind_ok in H as ([] & w4 & H4 & H).
  apply bind_ok in H as ([] & w5 & H5 & H).
  apply bind_ok in H as ([] & w6 & H6 & H).
  assert (Hpub : published w6).
  { unfold alloc_components in Hc. injection Hc as <- <-.
    unfold update_components, modify in H4, H5, H6.
    injection H4 as <-. injection H5 as <-. injection H6 as <-.
    eexists _, _. split; [reflexivity|]. cbn.
    rewrite !list_lookup_alter_eq, lookup_app_r by done.
    rewrite Nat.sub_diag. cbn. split; [reflexivity|]. by split. }
  apply bind_ok in H as ([] & w7 & H7 & H).
  assert (Hpub7 : published w7).
  { match type of H7 with
    | ?m w6 = _ =>
        assert (HP : Publishes m)
          by (destruct (match gltf_extensions gltf with Some e => _ | None => None end);
              [apply Publishes_bind;
                 [apply Publishes_loadFeatureMetadata
                 |intros ?; apply Publishes_loader_then]
              |apply Publishes_skip]);
        pose proof (proj1 (HP w6) Hpub) as Hp
    end.
    by rewrite H7 in Hp. }
  rewrite gets_bind in H. unfold when_all in H. rewrite modify_bind in H.
  pose proof (proj1 (Publishes_aggregate_progress
    (set_aggregate
       (Some {| all_promises := _loaders (loader w7); all_state := Pending |}) w7)))
    as Hp.
  rewrite H in Hp. apply Hp.
  destruct Hpub7 as (c' & comps & ?). by exists c', comps.
Qed.

Lemma process_publishes frameState w webp j w' :
  _state (loader w) = PROCESSING → supportsWebP w = Some webp →
  _gltfJsonLoader (loader w) = Some j →
  process frameState w = (Ok tt, w') → published w'.
Proof.
  intros Hst Hwebp Hj. unfold process. rewrite gets_bind, Hst.
  rewrite decide_False by (intros H; by apply H).
  rewrite gets_bind, Hwebp, gets_bind, Hj.
  rewrite bind_run, gets_bind.
  destruct (match subs w !! j with Some s => _ | None => None end) as [gltf|];
    [|discriminate].
  cbv beta. change (js_deref (Some gltf) ≫= ?k) with (k gltf). cbv beta.
  rewrite (bind_run (parse _ _ _)).
  destruct (parse _ _ _ w) as [[[]|e] wp] eqn:Hparse; [|discriminate].
  apply parse_publishes in Hparse.
  unfold ResourceCache_unload. rewrite !modify_bind. unfold modify at 1.
  rewrite gets_bind, forEach_log. intros [= <-].
  destruct Hparse as (c & comps & ?). by exists c, comps.
Qed.

Lemma published_once_gathered_step w ev :
  Inv w → published_once_gathered w → published_once_gathered (step w ev).
Proof.
  intros HI HP.
  assert (Hmove : ∀ w', publishing w w' → published_once_gathered w').
  { intros w' [Hp Ha]. destruct HP as [HP|HP]; [left|right]; auto. }
  destruct ev as [frameState| | |supported|r fields|r e]; cbn [step].
  - destruct (decide (_state (loader w) = PROCESSING)) as [Hst|Hst].
    2: { unfold process. by rewrite gets_bind, decide_True. }
    destruct (supportsWebP w) as [webp|] eqn:Hwebp.
    2: { unfold process.
         rewrite gets_bind, Hst, decide_False, gets_bind, Hwebp by (intros H; by apply H).
         apply Hmove. by apply publishing_same. }
    pose proof (process_run frameState w webp Hst Hwebp) as H.
    destruct (_gltfJsonLoader (loader w)) as [j|] eqn:Hj.
    + assert (Hnone : aggregate w = None).
      { destruct HI as [Hf|(_ & _ & Hi)].
        - unfold view, fetching in Hf. by destruct Hf as (? & _ & _ & _ & _ & _ & ?).
        - unfold view, in_step in Hi. destruct (aggregate w) as [a|]; [|done].
          destruct (Hi a eq_refl) as [Hj' _]. congruence. }
      destruct (process frameState w) as [[[]|e] w'] eqn:Hrun.
      * right. by eapply process_publishes.
      * left. cbn [snd]. destruct H as [(e' & w1 & H & Hk)|(w1 & w3 & _ & _ & H)]; [|discriminate H].
        injection H as _ <-. destruct Hk as (_ & _ & _ & _ & -> & _). done.
    + rewrite H. apply Hmove. by apply publishing_same.
  - apply Hmove, Publishes_unload.
  - apply Hmove. unfold destroy. apply Publishes_bind; [apply Publishes_unload|].
    intros _. apply Publishes_modify. by intros w0.
  - apply Hmove. destruct (supportsWebP w); [apply publishing_refl|].
    by apply publishing_same.
  - apply Hmove, Publishes_resolve_loader.
  - apply Hmove, Publishes_reject_loader.
Qed.

Lemma published_once_gathered_run events : ∀ w,
  Inv w → published_once_gathered w → published_once_gathered (run w events).
Proof.
  induction events as [|ev events IH]; intros w HI HP; [done|].
  change (run w (ev :: events)) with (run (step w ev) events).
  apply IH; [by apply Inv_step|by apply published_once_gathered_step].
Qed.

(** X11. When the public promise of a load has resolved, the loader has its
    components, with their scene and their list of nodes; and they stay, also
    after [unload]. The same holds as soon as [parse] has gathered the
    loaders, before any of them has resolved. *)
Theorem resolved_load_has_components options webp hasThen events :
  let w := run (loading options webp hasThen) events in
  _promise (loader w) = Resolved ∨ _state (loader w) = READY ∨ is_Some (aggregate w) →
  ∃ c components,
    _components (loader w) = Some c
    ∧ heap_components (heap w) !! c = Some components
    ∧ is_Some (components_scene components)
    ∧ is_Some (components_nodes components).
Proof.
  intros w H.
  pose proof (Inv_run events _ (Inv_loading options webp hasThen)) as HI.
  pose proof (published_once_gathered_run events _
                (Inv_loading options webp hasThen) (or_introl eq_refl)) as HP.
  fold w in HI, HP. destruct HP as [Hnone|HP]; [|exact HP]. exfalso.
  destruct HI as [Hf|(_ & Hs & _)].
  - unfold view, fetching in Hf. destruct Hf as (? & _ & _ & _ & Hst & Hpr & _).
    rewrite Hst, Hpr, Hnone in H. destruct H as [H|[H|[? H]]]; discriminate H.
  - unfold view, settled_as in Hs. rewrite Hnone in Hs, H.
    destruct H as [H|[H|[? H]]]; [| |discriminate H].
    + destruct Hs as [[Hp _]|[_ [e Hp]]]; congruence.
    + destruct Hs as [[_ Hst]|[Hst _]]; congruence.
Qed.

End Components.

Lemma resolved_load_has_components_witness :
  let w := run (collaborators := sample_collaborators)
             (loading (collaborators := sample_collaborators)
                sample_options (Some true) false)
             (sample_completion ++ [CallUnload]) in
  _promise (loader w) = Resolved
  ∧ ∃ c components,
      _components (loader w) = Some c
      ∧ heap_components (heap w) !! c = Some components
      ∧ is_Some (components_scene components)
      ∧ is_Some (components_nodes components).
Proof.
  cbv zeta.
  assert (Hp : _promise (loader
            (run (collaborators := sample_collaborators)
               (loading (collaborators := sample_collaborators)
                  sample_options (Some true) false)
               (sample_completion ++ [CallUnload]))) = Resolved)
    by (vm_compute; reflexivity).
  split; [exact Hp|].
  apply (resolved_load_has_components (collaborators := sample_collaborators)
           sample_options (Some true) false (sample_completion ++ [CallUnload])).
  by left.
Defined.

Section Stranded.

Context {collaborators : Collaborators}.

Lemma stranded_quiet w :
  Inv w → stranded w → callbacks_quiet (subs w) ∧ _promise (loader w) = Pending.
Proof.
  intros [Hf|(Hq & Hs & _)] (Hst & _ & Ha).
  - unfold view, fetching in Hf. destruct Hf as (? & _ & _ & _ & ? & _). congruence.
  - split; [exact Hq|]. unfold view, settled_as in Hs. rewrite Ha in Hs.
    destruct Hs as [[? _]|[? _]]; congruence.
Qed.

Lemma stranded_step w ev : Inv w → stranded w → stranded (step w ev).
Proof.
  intros HI Hs. destruct (stranded_quiet w HI Hs) as [Hq _].
  pose proof Hs as (Hst & Hj & Ha).
  destruct ev as [frameState| | |supported|r fields|r e]; cbn [step].
  - destruct (supportsWebP w) as [webp|] eqn:Hwebp.
    + pose proof (process_run frameState w webp Hst Hwebp) as H.
      rewrite Hj in H. by rewrite H.
    + unfold process.
      by rewrite gets_bind, Hst, decide_False, gets_bind, Hwebp by (intros H; by apply H).
  - rewrite unload_run. destruct (unloaded_loader w) as (Hj' & _ & Hst' & _).
    destruct (unloaded_rest w) as [Ha' _]. unfold stranded. cbn [snd].
    by rewrite Hj', Hst', Ha'.
  - unfold destroy. rewrite bind_run, unload_run.
    destruct (unloaded_loader w) as (Hj' & _ & Hst' & _).
    destruct (unloaded_rest w) as [Ha' _]. unfold stranded, modify.
    cbn [snd loader set_loader with_destroyed _state _gltfJsonLoader aggregate].
    by rewrite Hj', Hst', Ha'.
  - by destruct (supportsWebP w).
  - unfold resolve_loader. rewrite gets_bind.
    destruct (subs w !! r) as [s|] eqn:Hsub; [|done].
    destruct (sub_promise s); [|done..].
    rewrite modify_bind, bind_run.
    assert (Hqs : Forall quiet_callback (sub_callbacks s)).
    { by eapply (proj1 (Forall_lookup _ _) Hq). }
    destruct (forEach_fulfilled_quiet (sub_callbacks s) fields (set_subs
      (alter (λ s, set_sub_callbacks []
                (set_sub_fields fields (set_sub_promise Resolved s))) r) w) Hqs)
      as [h ->].
    by rewrite aggregate_progress_none.
  - unfold reject_loader. rewrite gets_bind.
    destruct (subs w !! r) as [s|] eqn:Hsub; [|done].
    destruct (sub_promise s); [|done..].
    rewrite modify_bind, bind_run.
    assert (Hqs : Forall quiet_callback (sub_callbacks s)).
    { by eapply (proj1 (Forall_lookup _ _) Hq). }
    rewrite forEach_rejected_quiet by done.
    by rewrite aggregate_progress_none.
Qed.

Lemma stranded_run events : ∀ w, Inv w → stranded w → stranded (run w events).
Proof.
  induction events as [|ev events IH]; intros w HI Hs; [done|].
  change (run w (ev :: events)) with (run (step w ev) events).
  apply IH; [by apply Inv_step|by apply stranded_step].
Qed.

(** X12. [unload()] (or anything else that lets the document loader go) on a
    loader in state PROCESSING whose document has not been parsed strands
    that load: through the rest of the run, whichever [process], [unload] and
    [destroy] calls are made and whichever loaders settle, no [process] call
    parses, the state stays PROCESSING and the public promise stays pending.
    (Only an event outside the run, a second [load()], fetches the document
    again.) *)
Theorem unparsed_load_without_document_is_stranded options webp hasThen events later :
  let w := run (loading options webp hasThen) events in
  let w' := run w later in
  _state (loader w) = PROCESSING →
  _gltfJsonLoader (loader w) = None →
  aggregate w = None →
  _state (loader w') = PROCESSING
  ∧ _promise (loader w') = Pending
  ∧ _gltfJsonLoader (loader w') = None
  ∧ aggregate w' = None.
Proof.
  intros w w' Hst Hj Ha.
  pose proof (Inv_run events _ (Inv_loading options webp hasThen)) as HI. fold w in HI.
  assert (Hs : stranded w) by done.
  pose proof (stranded_run later w HI Hs) as Hs'. fold w' in Hs'.
  pose proof (Inv_run later w HI) as HI'. fold w' in HI'.
  destruct (stranded_quiet w' HI' Hs') as [_ Hp]. by destruct Hs' as (? & ? & ?).
Qed.

End Stranded.

(** The document of the sample loader resolves, [unload] is called before
    the first [process]; then [process] is called and nothing is parsed. *)
Lemma unparsed_load_without_document_is_stranded_witness :
  let w := run (collaborators := sample_collaborators)
             (loading (collaborators := sample_collaborators)
                sample_options (Some true) false)
             [LoaderResolves 0 (sample_document (sample_gltf None None)); CallUnload] in
  let w' := run (collaborators := sample_collaborators) w
              [CallProcess sample_frameState; CallProcess sample_frameState] in
  _state (loader w') = PROCESSING
  ∧ _promise (loader w') = Pending
  ∧ _gltfJsonLoader (loader w') = None
  ∧ aggregate w' = None.
Proof.
  apply (unparsed_load_without_document_is_stranded
           (collaborators := sample_collaborators) sample_options (Some true) false
           [LoaderResolves 0 (sample_document (sample_gltf None None)); CallUnload]);
    vm_compute; reflexivity.
Defined.

Section PlainAttributes.

Context {collaborators : Collaborators}.

(** X13. An attribute that the Draco extension does not list (or a
    primitive without the extension) only gets its buffer when its vertex
    buffer loader resolves on a loader that has not been destroyed: byte
    offset, stride, type, component datatype and quantization stay those of
    the accessor, also when the resolved loader carries a quantization. *)
Theorem plain_attribute_gets_only_its_buffer attribute draco semantic vertexBufferLoader
    a w :
  isDestroyed (loader w) = false →
  draco_attribute draco semantic = None →
  heap_attributes (heap w) !! attribute = Some a →
  ∃ w',
    run_continuation (VertexAttributeThen attribute draco semantic) vertexBufferLoader w
      = (Ok tt, w')
    ∧ heap_attributes (heap w') !! attribute
        = Some (set_attribute_buffer (loader_vertexBuffer vertexBufferLoader) a)
    ∧ (∀ other, other ≠ attribute →
         heap_attributes (heap w') !! other = heap_attributes (heap w) !! other)
    ∧ loader w' = loader w ∧ subs w' = subs w ∧ calls w' = calls w.
Proof.
  intros Hd Hdraco Ha. cbn [run_continuation]. unfold loadVertexAttribute_then.
  rewrite gets_bind, Hd, Hdraco. unfold update_attribute. rewrite modify_bind.
  eexists. split; [reflexivity|]. cbn. split; [by rewrite list_lookup_alter_eq, Ha|].
  split; [|done]. intros other Hne. by rewrite list_lookup_alter_ne.
Qed.

End PlainAttributes.

(** The POSITION attribute of the sample primitive is not in the Draco
    extension's attribute map. *)
Lemma plain_attribute_gets_only_its_buffer_witness :
  ∃ a w',
    heap_attributes (heap sample_assembled) !! 0 = Some a
    ∧ attribute_semantic a = Some "POSITION"
    ∧ run_continuation (collaborators := sample_collaborators)
        (VertexAttributeThen 0 (Some sample_draco) "POSITION")
        (sample_vertexBuffer 7 (Some sample_octEncoded)) sample_assembled
      = (Ok tt, w')
    ∧ heap_attributes (heap w') !! 0
        = Some (set_attribute_buffer (Some 7) a)
    ∧ (∀ other, other ≠ 0 →
         heap_attributes (heap w') !! other
         = heap_attributes (heap sample_assembled) !! other)
    ∧ loader w' = loader sample_assembled ∧ subs w' = subs sample_assembled
    ∧ calls w' = calls sample_assembled.
Proof.
  assert (Hd : isDestroyed (loader sample_assembled) = false)
    by (vm_compute; reflexivity).
  assert (Hdraco : draco_attribute (Some sample_draco) "POSITION" = None)
    by (vm_compute; reflexivity).
  eexists.
  assert (Ha : heap_attributes (heap sample_assembled) !! 0 = Some _)
    by (vm_compute; reflexivity).
  destruct (plain_attribute_gets_only_its_buffer (collaborators := sample_collaborators)
              0 (Some sample_draco) "POSITION"
              (sample_vertexBuffer 7 (Some sample_octEncoded)) _ sample_assembled
              Hd Hdraco Ha) as (w' & H).
  exists w'. split; [exact Ha|]. split; [reflexivity|]. exact H.
Defined.

Section Documents.

Context {collaborators : Collaborators}.

(** X14. A document without a [nodes] array cannot be loaded: [parse]
    throws on [gltf.nodes.length], so every [process] call throws a TypeError
    and leaves everything as it was. *)
Theorem process_document_without_nodes frameState w webp j s gltf :
  _state (loader w) = PROCESSING → supportsWebP w = Some webp →
  _gltfJsonLoader (loader w) = Some j →
  subs w !! j = Some s → loader_gltf (sub_fields s) = Some gltf →
  gltf_nodes gltf = None →
  process frameState w = (Throw TypeError, w).
Proof.
  intros Hst Hwebp Hj Hs Hgltf Hnodes. unfold process. rewrite gets_bind, Hst.
  rewrite decide_False by (intros H; by apply H).
  rewrite gets_bind, Hwebp, gets_bind, Hj, bind_run, gets_bind, Hs, Hgltf.
  cbv beta. change (js_deref (Some gltf) ≫= ?k) with (k gltf). cbv beta.
  rewrite (bind_run (parse _ _ _)). unfold parse, loadNodes. by rewrite Hnodes.
Qed.

(** X15. A document with an empty node list and no default scene needs no
    loader: the [process] call that parses it resolves the public promise
    before it returns, on a loader that holds no loader and has not been
    destroyed. *)
Theorem process_empty_document frameState w webp j s gltf :
  _state (loader w) = PROCESSING → supportsWebP w = Some webp →
  _gltfJsonLoader (loader w) = Some j →
  subs w !! j = Some s → loader_gltf (sub_fields s) = Some gltf →
  gltf_nodes gltf = Some [] → gltf_scene gltf = None → gltf_extensions gltf = None →
  _loaders (loader w) = [] →
  isDestroyed (loader w) = false → _promise (loader w) = Pending →
  ∃ w',
    process frameState w = (Ok tt, w')
    ∧ _state (loader w') = READY
    ∧ _promise (loader w') = Resolved
    ∧ _gltfJsonLoader (loader w') = None
    ∧ calls w' = calls w ++ [PromiseResolve; CacheUnload j].
Proof.
  intros Hst Hwebp Hj Hs Hgltf Hnodes Hscene Hext Hl Hd Hp.
  unfold process. rewrite gets_bind, Hst.
  rewrite decide_False by (intros H; by apply H).
  rewrite gets_bind, Hwebp, gets_bind, Hj, bind_run, gets_bind, Hs, Hgltf.
  cbv beta. change (js_deref (Some gltf) ≫= ?k) with (k gltf). cbv beta.
  rewrite (bind_run (parse _ _ _)).
  assert (Hparse : ∃ w1,
    parse gltf
      {| supported_webp := webp;
         supported_s3tc := context_s3tc frameState;
         supported_pvrtc := context_pvrtc frameState;
         supported_etc1 := context_etc1 frameState |} frameState w = (Ok tt, w1)
    ∧ _state (loader w1) = READY ∧ _promise (loader w1) = Resolved
    ∧ _loaders (loader w1) = [] ∧ calls w1 = calls w ++ [PromiseResolve]).
  { unfold parse, loadNodes, loadScene, getSceneNodeIds.
    rewrite Hnodes, Hscene, Hext. destruct (gltf_scenes gltf).
    all: destruct w as [[gr br ta kr asy inc j0 st p ls co d] h ss c a wp mt cs];
      cbn in Hl, Hd, Hp; subst ls d p; eexists; by vm_compute. }
  destruct Hparse as (w1 & -> & Hst1 & Hp1 & Hl1 & Hc1).
  unfold ResourceCache_unload. rewrite !modify_bind. unfold modify at 1.
  rewrite gets_bind, forEach_log. eexists. split; [reflexivity|].
  cbn. rewrite Hl1, Hc1. cbn. rewrite app_nil_r, <- app_assoc. by repeat split.
Qed.

End Documents.

Lemma process_document_without_nodes_witness :
  let w := run (collaborators := sample_collaborators) sample_world
             [LoaderResolves 0 (sample_document sample_gltf_nodeless)] in
  process (collaborators := sample_collaborators) sample_frameState w
  = (Throw TypeError, w).
Proof.
  cbv zeta.
  eapply (process_document_without_nodes (collaborators := sample_collaborators)
            sample_frameState _ true 0 _ sample_gltf_nodeless);
    vm_compute; reflexivity.
Defined.

Lemma process_empty_document_witness :
  let w := run (collaborators := sample_collaborators) sample_world
             [LoaderResolves 0 (sample_document sample_gltf_empty)] in
  ∃ w',
    process (collaborators := sample_collaborators) sample_frameState w = (Ok tt, w')
    ∧ _state (loader w') = READY
    ∧ _promise (loader w') = Resolved
    ∧ _gltfJsonLoader (loader w') = None
    ∧ calls w' = calls w ++ [PromiseResolve; CacheUnload 0].
Proof.
  cbv zeta.
  eapply (process_empty_document (collaborators := sample_collaborators)
            sample_frameState _ true 0 _ sample_gltf_empty);
    vm_compute; reflexivity.
Defined.

(** ** Feature metadata without [then] *)

Section FeatureMetadata.

Context {collaborators : Collaborators}.

Lemma throws_bind {A B} (m : M A) (k : A → M B) w0 w :
  Keeps m → keeps w0 w →
  (∀ a w1, keeps w0 w1 → ∃ e w', k a w1 = (Throw e, w') ∧ keeps w0 w') →
  ∃ e w', (m ≫= k) w = (Throw e, w') ∧ keeps w0 w'.
Proof.
  intros Hm Hw Hk. rewrite bind_run. specialize (Hm w).
  assert (H1 : keeps w0 (m w).2) by (by eapply keeps_trans).
  destruct (m w) as [[a|e] w1]; cbn [snd] in H1; [by apply Hk|by eexists _, _].
Qed.

(** X16. [parse] calls [then] on the feature metadata loader itself, not
    on its promise. Unless the class of that loader has a [then] of its own,
    the call is a TypeError: [parse] throws on every document that carries
    [EXT_feature_metadata], before it gathers its loaders, and leaves the
    state and the public promise as they were. *)
Theorem parse_feature_metadata_without_then gltf extensions extension
    supportedImageFormats frameState w :
  metadataLoaderHasThen w = false →
  gltf_extensions gltf = Some extensions →
  gltf_EXT_feature_metadata extensions = Some extension →
  ∃ e w',
    parse gltf supportedImageFormats frameState w = (Throw e, w')
    ∧ aggregate w' = aggregate w
    ∧ _state (loader w') = _state (loader w)
    ∧ _promise (loader w') = _promise (loader w).
Proof.
  intros Hthen Hext Hmeta.
  assert (H : ∃ e w',
    parse gltf supportedImageFormats frameState w = (Throw e, w') ∧ keeps w w').
  { unfold parse. rewrite Hext, Hmeta.
    apply (throws_bind _ _ w); [apply Keeps_loadNodes|apply keeps_refl|intros nodes w1 H1].
    apply (throws_bind _ _ w); [apply Keeps_loadScene|exact H1|intros scene w2 H2].
    apply (throws_bind _ _ w); [apply Keeps_alloc_components|exact H2|intros c w3 H3].
    apply (throws_bind _ _ w); [apply Keeps_update_components|exact H3|intros [] w4 H4].
    apply (throws_bind _ _ w); [apply Keeps_update_components|exact H4|intros [] w5 H5].
    apply (throws_bind _ _ w); [apply Keeps_set_components|exact H5|intros [] w6 H6].
    rewrite bind_run.
    destruct (throws_bind
                (loadFeatureMetadata gltf extension supportedImageFormats)
                (λ featureMetadataLoader,
                   loader_then featureMetadataLoader (FeatureMetadataThen c))
                w w6 (Keeps_loadFeatureMetadata _ _ _) H6) as (e & w' & -> & Hk).
    - intros r w7 H7. unfold loader_then. rewrite gets_bind.
      pose proof H7 as (_ & _ & _ & _ & _ & Hh & _). rewrite Hh, Hthen.
      eexists _, _. split; [reflexivity|exact H7].
    - by eexists _, _. }
  destruct H as (e & w' & H & Hk). exists e, w'. split; [exact H|].
  by destruct Hk as (? & ? & _ & _ & ? & _).
Qed.

End FeatureMetadata.

Lemma parse_feature_metadata_without_then_witness :
  ∃ e w',
    parse (collaborators := sample_collaborators) sample_gltf_metadata
      sample_supportedImageFormats sample_frameState sample_world = (Throw e, w')
    ∧ aggregate w' = aggregate sample_world
    ∧ _state (loader w') = _state (loader sample_world)
    ∧ _promise (loader w') = _promise (loader sample_world).
Proof.
  eapply (parse_feature_metadata_without_then (collaborators := sample_collaborators)
            sample_gltf_metadata _ 0 sample_supportedImageFormats sample_frameState
            sample_world); [vm_compute; reflexivity|reflexivity|reflexivity].
Defined.
